(** * Amazon MQ broker resource: user reconciliation

    A shallow embedding of [aws/resource_aws_mq_broker.go]: the user diff
    ([diffAwsMqBrokerUsers]), its application to the remote broker
    ([updateAwsMqBrokerUsers]), the password carry-forward of the read path
    ([flattenMqUsers]), and the parts of the Read and Update handlers that
    decide state removal and reboots.

    Go maps are reference values.  [diffAwsMqBrokerUsers] writes into the
    maps of the users it is given, so user maps live in an explicit heap and
    a user collection is a list of heap locations. *)

From stdpp Require Import gmap strings list fin_maps sorting.
From Stdlib Require Import Ascii.

Local Open Scope string_scope.
Local Open Scope list_scope.

(** ** Outcomes of Go code that can panic *)

(** A failed type assertion or a nil dereference panics. *)
Inductive outcome (A : Type) : Type :=
| Ok (a : A)
| Panic (msg : string).
Arguments Ok {A} a.
Arguments Panic {A} msg.

Definition outcome_bind {A B} (f : A → outcome B) (o : outcome A) : outcome B :=
  match o with
  | Ok a => f a
  | Panic msg => Panic msg
  end.

#[global] Instance outcome_mbind : MBind outcome := @outcome_bind.
#[global] Instance outcome_mret : MRet outcome := @Ok.

(** Unfolds the binds of [outcome]. *)
Ltac unfold_bind :=
  unfold mbind, outcome_mbind, outcome_bind, mret, outcome_mret in *.

Fixpoint foldM {A B} (f : A → B → outcome A) (a : A) (l : list B) : outcome A :=
  match l with
  | [] => Ok a
  | x :: l' => a' ← f a x; foldM f a' l'
  end.

(** ** schema.Set *)

(** The plugin SDK's [schema.Set] stores each item under the hash code of the
    item and lists its items sorted by code.  The digest [hashcode.String] is
    taken to be free of collisions, so an item is keyed by the text the hash
    function of the set digests: [m] maps that text to the item.  [Add] keeps
    the item already stored under a code. *)
Record SchemaSet (A : Type) : Type := MkSet { set_m : gmap string A }.
Arguments MkSet {A} set_m.
Arguments set_m {A} s.

Definition Set_Add {A} (F : A → outcome string) (s : SchemaSet A) (item : A)
  : outcome (SchemaSet A) :=
  code ← F item;
  match set_m s !! code with
  | Some _ => Ok s
  | None => Ok (MkSet (<[code := item]> (set_m s)))
  end.

Definition schema_NewSet {A} (F : A → outcome string) (items : list A)
  : outcome (SchemaSet A) :=
  foldM (Set_Add F) (MkSet ∅) items.

(** [List]: the items in the order of their codes, a fixed function of the
    contents of the set. *)
Definition Set_List {A} (s : SchemaSet A) : list A := (map_to_list (set_m s)).*2.

Definition Set_Len {A} (s : SchemaSet A) : nat := size (set_m s).

(** [schema.HashString] digests the string itself. *)
Definition schema_HashString (v : string) : outcome string := Ok v.

(** ** Values held in [map[string]interface{}] *)

Inductive value : Type :=
| VString (s : string)
| VBool (b : bool)
| VInt (n : Z)
| VSet (s : SchemaSet string)   (* pointer to a schema.Set of strings *)
| VSlice (l : list string).     (* []interface{} of strings *)

(** The type assertions to string, bool and schema.Set pointer on the
    result of a map index; a missing key yields the nil interface, on which
    every assertion panics. *)
Definition assert_string (v : option value) : outcome string :=
  match v with
  | Some (VString s) => Ok s
  | Some _ => Panic "interface conversion: interface {} is not string"
  | None => Panic "interface conversion: interface {} is nil, not string"
  end.

Definition assert_bool (v : option value) : outcome bool :=
  match v with
  | Some (VBool b) => Ok b
  | Some _ => Panic "interface conversion: interface {} is not bool"
  | None => Panic "interface conversion: interface {} is nil, not bool"
  end.

Definition assert_set (v : value) : outcome (SchemaSet string) :=
  match v with
  | VSet s => Ok s
  | _ => Panic "interface conversion: interface {} is not *schema.Set"
  end.

(** [reflect.DeepEqual] on two values of a user map.  Two schema.Set
    pointers are deeply equal only when they are the same pointer: the set
    holds its hash function, and function values are never deeply equal.
    The sets compared here always belong to different objects. *)
Definition DeepEqual_value (a b : value) : bool :=
  match a, b with
  | VString s, VString t => bool_decide (s = t)
  | VBool x, VBool y => bool_decide (x = y)
  | VInt x, VInt y => bool_decide (x = y)
  | VSlice l, VSlice k => bool_decide (l = k)
  | _, _ => false
  end.

(** [reflect.DeepEqual] on two maps: same length, and every key of the first
    is bound in the second to a deeply equal value. *)
Definition DeepEqual (m1 m2 : gmap string value) : bool :=
  bool_decide (size m1 = size m2) &&
  forallb (λ kv, match m2 !! kv.1 with
                 | Some v' => DeepEqual_value kv.2 v'
                 | None => false
                 end) (map_to_list m1).

(** ** The heap of user maps *)

Definition loc := positive.

(** The element of a user list is asserted to be a map. *)
Definition deref (h : gmap loc (gmap string value)) (l : loc) : outcome (gmap string value) :=
  match h !! l with
  | Some m => Ok m
  | None => Panic "interface conversion: interface {} is nil, not map[string]interface {}"
  end.

(** ** Requests of the MQ API *)

Record CreateUserRequest := {
  cur_BrokerId : string;
  cur_ConsoleAccess : bool;
  cur_Groups : option (list string);   (* None: the nil slice *)
  cur_Password : string;
  cur_Username : string }.

Record DeleteUserInput := {
  dui_BrokerId : string;
  dui_Username : string }.

Record UpdateUserRequest := {
  uur_BrokerId : string;
  uur_ConsoleAccess : bool;
  uur_Groups : list string;
  uur_Password : string;
  uur_Username : string }.

(** The order in which one [for username := range existingUsers] visits the
    keys.  Go leaves it unspecified and varies it from one loop to the next,
    so each call of the diff takes the order it met as an argument. *)
Record RangeOrder := {
  range_keys : gmap string loc → list string;
  range_keys_perm : ∀ m, range_keys m ≡ₚ (map_to_list m).*1 }.

Program Definition range_in_key_order : RangeOrder :=
  {| range_keys m := (map_to_list m).*1 |}.
Next Obligation. done. Qed.

Program Definition range_in_reverse_order : RangeOrder :=
  {| range_keys m := reverse (map_to_list m).*1 |}.
Next Obligation. intros m. by rewrite reverse_Permutation. Qed.

Section Diff.

(** [expandStringList] (aws/structure.go) turns the listed strings into the
    string pointers of a request.  It is a helper outside this file and is
    kept as a parameter. *)
Variable expandStringList : list string → list string.

(** *** diffAwsMqBrokerUsers *)

(** First loop: index the old users by name, rewriting the [groups] entry of
    each old map in place. *)
Definition diff_old_user (st : gmap loc (gmap string value) * gmap string loc) (ou : loc)
  : outcome (gmap loc (gmap string value) * gmap string loc) :=
  let '(h, existingUsers) := st in
  u ← deref h ou;
  username ← assert_string (u !! "username");
  h' ← match u !! "groups" with
        | Some g =>
            s ← assert_set g;
            (* u["groups"] = groups *)
            Ok (<[ou := <["groups" := VSlice (Set_List s)]> u]> h)
        | None => Ok h
        end;
  Ok (h', <[username := ou]> existingUsers).

(** Second loop: one declared user against the index. *)
Definition diff_new_user (bId : string) (h : gmap loc (gmap string value))
    (st : gmap string loc * list CreateUserRequest * list UpdateUserRequest) (nu : loc)
  : outcome (gmap string loc * list CreateUserRequest * list UpdateUserRequest) :=
  let '(existingUsers, cr, ur) := st in
  nuOriginal ← deref h nu;
  (* copystructure.Copy: a deep copy, a map of its own *)
  let newUserMap := nuOriginal in
  username ← assert_string (newUserMap !! "username");
  '(ng, newUserMap) ← match nuOriginal !! "groups" with
        | Some g =>
            s ← assert_set g;
            Ok (Some (Set_List s), <["groups" := VSlice (Set_List s)]> newUserMap)
        | None => Ok (None, newUserMap)
        end;
  match existingUsers !! username with
  | Some eu =>
      existingUserMap ← deref h eu;
      ur' ← (if negb (DeepEqual existingUserMap newUserMap) then
               ca ← assert_bool (newUserMap !! "console_access");
               pw ← assert_string (newUserMap !! "password");
               Ok (ur ++ [{| uur_BrokerId := bId;
                             uur_ConsoleAccess := ca;
                             uur_Groups := expandStringList (default [] ng);
                             uur_Password := pw;
                             uur_Username := username |}])
             else Ok ur);
      Ok (delete username existingUsers, cr, ur')
  | None =>
      ca ← assert_bool (newUserMap !! "console_access");
      pw ← assert_string (newUserMap !! "password");
      let cur := {| cur_BrokerId := bId;
                    cur_ConsoleAccess := ca;
                    cur_Groups := if bool_decide (0 < length (default [] ng))
                                  then Some (expandStringList (default [] ng))
                                  else None;
                    cur_Password := pw;
                    cur_Username := username |} in
      Ok (existingUsers, cr ++ [cur], ur)
  end.

(** The diff returns the create, delete and update lists, in the order of
    the Go results, together with the heap it leaves behind. *)
Definition diffAwsMqBrokerUsers (ord : RangeOrder) (bId : string)
    (oldUsers newUsers : list loc) (h : gmap loc (gmap string value))
  : outcome (gmap loc (gmap string value) *
             (list CreateUserRequest * list DeleteUserInput * list UpdateUserRequest)) :=
  '(h1, existingUsers) ← foldM diff_old_user (h, ∅) oldUsers;
  '(remaining, cr, ur) ← foldM (diff_new_user bId h1) (existingUsers, [], []) newUsers;
  let di := (λ username, {| dui_BrokerId := bId; dui_Username := username |})
              <$> range_keys ord remaining in
  Ok (h1, (cr, di, ur)).

End Diff.

(** ** Errors *)

(** Go [error] values: an [awserr.Error] with its code and message, any other
    error, an error wrapped by [fmt.Errorf] with the verb w, and the two
    errors of the state poller. *)
Inductive error : Type :=
| AWSError (code message : string)
| OtherError (text : string)
| WrappedError (text : string) (cause : error)
| TimeoutError
| UnexpectedStateError (state : string).

(** Constants of the AWS SDK's [mq] package. *)
Definition mq_ErrCodeNotFoundException : string := "NotFoundException".
Definition mq_ErrCodeForbiddenException : string := "ForbiddenException".
Definition mq_BrokerStateRunning : string := "RUNNING".
Definition mq_BrokerStateRebootInProgress : string := "REBOOT_IN_PROGRESS".

(** ** The remote API *)

Record ConfigurationId := {
  cid_Id : option string;
  cid_Revision : option Z }.

Record Logs := {
  logs_General : option bool;
  logs_Audit : option bool }.

Record UpdateBrokerRequest := {
  ubr_BrokerId : string;
  ubr_SecurityGroups : option (list string);
  ubr_Configuration : option ConfigurationId;
  ubr_Logs : option Logs }.

Record BrokerInstance := {
  bi_ConsoleURL : option string;
  bi_Endpoints : list (option string);
  bi_IpAddress : option string }.

Record Configurations := { cfgs_Current : option ConfigurationId }.

Record EncryptionOptions := {
  eo_KmsKeyId : option string;
  eo_UseAwsOwnedKey : option bool }.

Record WeeklyStartTime := {
  wst_DayOfWeek : option string;
  wst_TimeOfDay : option string;
  wst_TimeZone : option string }.

Record UserSummary := { us_Username : option string }.

Record DescribeBrokerResponse := {
  dbr_BrokerArn : option string;
  dbr_AuthenticationStrategy : option string;
  dbr_AutoMinorVersionUpgrade : option bool;
  dbr_BrokerName : option string;
  dbr_DeploymentMode : option string;
  dbr_EngineType : option string;
  dbr_EngineVersion : option string;
  dbr_HostInstanceType : option string;
  dbr_BrokerInstances : list BrokerInstance;
  dbr_PubliclyAccessible : option bool;
  dbr_SecurityGroups : list (option string);
  dbr_StorageType : option string;
  dbr_SubnetIds : list (option string);
  dbr_Configurations : option Configurations;
  dbr_EncryptionOptions : option EncryptionOptions;
  dbr_Logs : option Logs;
  dbr_MaintenanceWindowStartTime : option WeeklyStartTime;
  dbr_Users : list UserSummary;
  dbr_Tags : gmap string string;
  dbr_BrokerState : option string }.

Record DescribeUserResponse := {
  dur_ConsoleAccess : option bool;
  dur_Groups : list string;
  dur_Username : option string }.

(** [mq.User]; a [None] is a nil pointer. *)
Record User := {
  User_ConsoleAccess : option bool;
  User_Groups : list string;
  User_Password : option string;
  User_Username : option string }.

(** The client [conn]: each operation answers from the state [W] of the
    remote side and moves it.  Any behaviour of the remote side is a choice
    of [W] and of these functions.  [mq_UpdateTags] stands for the calls of
    [keyvaluetags.MqUpdateTags]. *)
Record MQ (W : Type) := {
  mq_CreateUser : CreateUserRequest → W → option error * W;
  mq_DeleteUser : DeleteUserInput → W → option error * W;
  mq_UpdateUser : UpdateUserRequest → W → option error * W;
  mq_UpdateBroker : UpdateBrokerRequest → W → option error * W;
  mq_RebootBroker : string → W → option error * W;
  mq_DescribeBroker : string → W → (error + DescribeBrokerResponse) * W;
  mq_DescribeUser : string → option string → W → (error + DescribeUserResponse) * W;
  mq_UpdateTags : string → gmap string string → gmap string string → W → option error * W }.
Arguments mq_CreateUser {W} _ _ _.
Arguments mq_DeleteUser {W} _ _ _.
Arguments mq_UpdateUser {W} _ _ _.
Arguments mq_UpdateBroker {W} _ _ _.
Arguments mq_RebootBroker {W} _ _ _.
Arguments mq_DescribeBroker {W} _ _ _.
Arguments mq_DescribeUser {W} _ _ _ _.
Arguments mq_UpdateTags {W} _ _ _ _ _.

(** One remote call with its answer, as it is logged by the model. *)
Inductive event : Type :=
| ECreateUser (r : CreateUserRequest) (err : option error)
| EDeleteUser (r : DeleteUserInput) (err : option error)
| EUpdateUser (r : UpdateUserRequest) (err : option error)
| EUpdateBroker (r : UpdateBrokerRequest) (err : option error)
| ERebootBroker (id : string) (err : option error)
| EDescribeBroker (id : string) (res : error + DescribeBrokerResponse)
| EDescribeUser (id : string) (username : option string) (res : error + DescribeUserResponse)
| EUpdateTags (arn : string) (o n : gmap string string) (err : option error).

(** The error of a logged mutating call of the user API, if it is one. *)
Definition user_call_result (e : event) : option (option error) :=
  match e with
  | ECreateUser _ err | EDeleteUser _ err | EUpdateUser _ err => Some err
  | _ => None
  end.

Definition user_call_succeeded (e : event) : bool :=
  match user_call_result e with Some None => true | _ => false end.

Definition is_reboot_call (e : event) : bool :=
  match e with ERebootBroker _ _ => true | _ => false end.

Definition is_describe_broker (e : event) : bool :=
  match e with EDescribeBroker _ _ => true | _ => false end.

(** ** The state of one handler run: local heap, remote side, call log *)

Record State (W : Type) := MkState {
  heap : gmap loc (gmap string value);
  world : W;
  trace : list event }.
Arguments MkState {W} heap world trace.
Arguments heap {W} s.
Arguments world {W} s.
Arguments trace {W} s.

(** Computations over that state; a panic ends the run. *)
Definition M (W A : Type) : Type := State W → outcome (A * State W).

Definition retM {W A} (a : A) : M W A := λ s, Ok (a, s).

Definition bindM {W A B} (m : M W A) (k : A → M W B) : M W B :=
  λ s, match m s with
       | Ok (a, s') => k a s'
       | Panic msg => Panic msg
       end.

Definition liftM {W A} (o : outcome A) : M W A :=
  λ s, match o with Ok a => Ok (a, s) | Panic msg => Panic msg end.

Notation "x <-- m ;; k" := (bindM m (λ x, k))
  (at level 100, m at next level, right associativity, only parsing).

Section Client.

Context {W : Type}.
Variable conn : MQ W.
Variable expandStringList : list string → list string.

Definition log_call {A} (run : W → A * W) (ev : A → event) : M W A :=
  λ s, let '(a, w) := run (world s) in
       Ok (a, MkState (heap s) w (trace s ++ [ev a])).

Definition CreateUser (r : CreateUserRequest) : M W (option error) :=
  log_call (mq_CreateUser conn r) (ECreateUser r).
Definition DeleteUser (r : DeleteUserInput) : M W (option error) :=
  log_call (mq_DeleteUser conn r) (EDeleteUser r).
Definition UpdateUser (r : UpdateUserRequest) : M W (option error) :=
  log_call (mq_UpdateUser conn r) (EUpdateUser r).
Definition UpdateBroker (r : UpdateBrokerRequest) : M W (option error) :=
  log_call (mq_UpdateBroker conn r) (EUpdateBroker r).
Definition RebootBroker (id : string) : M W (option error) :=
  log_call (mq_RebootBroker conn id) (ERebootBroker id).
Definition DescribeBroker (id : string) : M W (error + DescribeBrokerResponse) :=
  log_call (mq_DescribeBroker conn id) (EDescribeBroker id).
Definition DescribeUser (id : string) (username : option string)
  : M W (error + DescribeUserResponse) :=
  log_call (mq_DescribeUser conn id username) (EDescribeUser id username).
Definition MqUpdateTags (arn : string) (o n : gmap string string) : M W (option error) :=
  log_call (mq_UpdateTags conn arn o n) (EUpdateTags arn o n).

(** *** updateAwsMqBrokerUsers *)

(** One of the three loops: call, set the flag, leave on an error. *)
Fixpoint apply_requests {R} (call : R → M W (option error)) (l : list R)
    (updatedUsers : bool) : M W (bool * option error) :=
  match l with
  | [] => retM (updatedUsers, None)
  | r :: l' =>
      err <-- call r ;;
      let updatedUsers := true in
      match err with
      | Some e => retM (updatedUsers, Some e)
      | None => apply_requests call l' updatedUsers
      end
  end.

(** The three loops on the lists of a diff. *)
Definition apply_diff (createL : list CreateUserRequest) (deleteL : list DeleteUserInput)
    (updateL : list UpdateUserRequest) (updatedUsers : bool) : M W (bool * option error) :=
  c <-- apply_requests CreateUser createL updatedUsers ;;
  match c.2 with
  | Some e => retM c
  | None =>
      d <-- apply_requests DeleteUser deleteL c.1 ;;
      match d.2 with
      | Some e => retM d
      | None => apply_requests UpdateUser updateL d.1
      end
  end.

(** [copystructure.Copy] does not fail on the maps of a user list, so the
    error result of the diff is nil and the first return is not taken; a
    panic of the diff ends the run. *)
Definition updateAwsMqBrokerUsers (ord : RangeOrder) (bId : string)
    (oldUsers newUsers : list loc) : M W (bool * option error) :=
  λ s,
    let updatedUsers := false in
    match diffAwsMqBrokerUsers expandStringList ord bId oldUsers newUsers (heap s) with
    | Panic msg => Panic msg
    | Ok (h', (createL, deleteL, updateL)) =>
        apply_diff createL deleteL updateL updatedUsers (MkState h' (world s) (trace s))
    end.

(** *** The state poller *)

(** Modelled from the spec: [resource.StateChangeConf.WaitForState] of the
    plugin SDK, section 4.3.  Each poll fetches the status: a fetch error
    ends the wait with that error, a status in the target set ends it with
    success, a status in the pending set polls again, any other status is
    an unexpected-state failure.  [polls] is the number of polls that fit in
    the timeout; when they are used up the wait ends with a timeout error. *)
Fixpoint WaitForState (refresh : M W (error + string)) (pending target : list string)
    (polls : nat) : M W (option error) :=
  match polls with
  | O => retM (Some TimeoutError)
  | S n =>
      r <-- refresh ;;
      match r with
      | inl e => retM (Some e)
      | inr st =>
          if bool_decide (st ∈ target) then retM None
          else if bool_decide (st ∈ pending) then WaitForState refresh pending target n
          else retM (Some (UnexpectedStateError st))
      end
  end.

End Client.

(** ** resourceAwsMqUserHash and flattenMqUsers *)

Definition Sprintf_t (b : bool) : string := if b then "true" else "false".

Fixpoint join_space (l : list string) : string :=
  match l with
  | [] => ""
  | [x] => x
  | x :: l' => x +:+ " " +:+ join_space l'
  end.

(** The verb v on a slice of strings. *)
Definition Sprintf_v (l : list string) : string := "[" +:+ join_space l +:+ "]".

(** The text written to [buf]; the set keys the user map by its digest. *)
Definition resourceAwsMqUserHash (m : gmap string value) : outcome string :=
  buf ← match m !! "console_access" with
         | Some ca => b ← assert_bool (Some ca); Ok (Sprintf_t b +:+ "-")
         | None => Ok "false-"
         end;
  buf ← match m !! "groups" with
         | Some g => s ← assert_set g; Ok (buf +:+ Sprintf_v (Set_List s) +:+ "-")
         | None => Ok buf
         end;
  buf ← match m !! "password" with
         | Some p => s ← assert_string (Some p); Ok (buf +:+ s +:+ "-")
         | None => Ok buf
         end;
  username ← assert_string (m !! "username");
  Ok (buf +:+ username +:+ "-").

Definition deref_string (p : option string) : outcome string :=
  match p with
  | Some s => Ok s
  | None => Panic "invalid memory address or nil pointer dereference"
  end.

Section Flatten.

(** [flattenStringSet] (aws/structure.go) builds the set of the listed
    strings.  It is a helper outside this file and is kept as a parameter. *)
Variable flattenStringSet : list string → SchemaSet string.

(** The first loop: the password each configured username was declared
    with; a later entry of the same name replaces an earlier one. *)
Definition existingPairs_of (cfgUsers : list (gmap string value)) : outcome (gmap string string) :=
  foldM (λ (existingPairs : gmap string string) (user : gmap string value),
           username ← assert_string (user !! "username");
           password ← assert_string (user !! "password");
           Ok (<[username := password]> existingPairs)) ∅ cfgUsers.

(** The map built for one user of the remote read. *)
Definition flatten_user (existingPairs : gmap string string) (u : User)
  : outcome (gmap string value) :=
  name ← deref_string (User_Username u);
  let m : gmap string value := {[ "username" := VString name ]} in
  let password := match existingPairs !! name with
                  | Some p => p
                  | None => ""
                  end in
  let m := if bool_decide (password ≠ "") then <["password" := VString password]> m else m in
  let m := match User_ConsoleAccess u with
           | Some ca => <["console_access" := VBool ca]> m
           | None => m
           end in
  let m := if bool_decide (0 < length (User_Groups u))
           then <["groups" := VSet (flattenStringSet (User_Groups u))]> m else m in
  Ok m.

(** The slice [out] handed to [schema.NewSet]. *)
Definition flattenMqUsers_out (users : list User) (cfgUsers : list (gmap string value))
  : outcome (list (gmap string value)) :=
  existingPairs ← existingPairs_of cfgUsers;
  foldM (λ out u, m ← flatten_user existingPairs u; Ok (out ++ [m])) [] users.

Definition flattenMqUsers (users : list User) (cfgUsers : list (gmap string value))
  : outcome (SchemaSet (gmap string value)) :=
  out ← flattenMqUsers_out users cfgUsers;
  schema_NewSet resourceAwsMqUserHash out.

End Flatten.

(** ** schema.ResourceData *)

(** The values of the attributes of the resource.  The schema fixes the
    type of every attribute, so a read of an attribute is taken at that type
    and an unset attribute reads as the zero value. *)
Inductive attr : Type :=
| AString (s : option string)
| ABool (b : option bool)
| AStringSet (s : SchemaSet string)
| ABlocks (l : list (option (gmap string value)))
| AUserSet (s : SchemaSet (gmap string value))
| ATags (m : gmap string string).

(** [d_attrs] is what [d.Get] reads and [d.Set] writes, [d_prior] the old
    side of [d.GetChange], and [d_changed] the keys for which [d.HasChange]
    answers true. *)
Record ResourceData := MkData {
  d_Id : string;
  d_attrs : gmap string attr;
  d_prior : gmap string attr;
  d_changed : gset string }.

Definition d_SetId (id : string) (d : ResourceData) : ResourceData :=
  MkData id (d_attrs d) (d_prior d) (d_changed d).

Definition d_Set (k : string) (v : attr) (d : ResourceData) : ResourceData :=
  MkData (d_Id d) (<[k := v]> (d_attrs d)) (d_prior d) (d_changed d).

Definition attr_string (a : option attr) : string :=
  match a with Some (AString (Some s)) => s | _ => "" end.
Definition attr_bool (a : option attr) : bool :=
  match a with Some (ABool (Some b)) => b | _ => false end.
Definition attr_string_set (a : option attr) : SchemaSet string :=
  match a with Some (AStringSet s) => s | _ => MkSet ∅ end.
Definition attr_blocks (a : option attr) : list (option (gmap string value)) :=
  match a with Some (ABlocks l) => l | _ => [] end.
Definition attr_user_set (a : option attr) : SchemaSet (gmap string value) :=
  match a with Some (AUserSet s) => s | _ => MkSet ∅ end.
Definition attr_tags (a : option attr) : gmap string string :=
  match a with Some (ATags m) => m | _ => ∅ end.

Definition d_Get (k : string) (d : ResourceData) : option attr := d_attrs d !! k.
Definition d_GetChange (k : string) (d : ResourceData) : option attr * option attr :=
  (d_prior d !! k, d_attrs d !! k).
Definition d_HasChange (k : string) (d : ResourceData) : bool :=
  bool_decide (k ∈ d_changed d).
Definition d_HasChanges (ks : list string) (d : ResourceData) : bool :=
  existsb (λ k, d_HasChange k d) ks.

(** ** The suppression of user diffs *)




(** ** expand and flatten helpers of the handlers *)

Definition assert_map (v : option (gmap string value)) : outcome (gmap string value) :=
  match v with
  | Some m => Ok m
  | None => Panic "interface conversion: interface {} is nil, not map[string]interface {}"
  end.

Definition expandMqConfigurationId (cfg : list (option (gmap string value)))
  : outcome (option ConfigurationId) :=
  match cfg with
  | [] => Ok None
  | c0 :: _ =>
      m ← assert_map c0;
      id ← assert_string (m !! "id");
      let out := {| cid_Id := Some id; cid_Revision := None |} in
      Ok (Some (match m !! "revision" with
                | Some (VInt v) =>
                    if bool_decide (0 < v)%Z
                    then {| cid_Id := Some id; cid_Revision := Some v |} else out
                | _ => out
                end))
  end.

Definition expandMqLogs (l : list (option (gmap string value))) : outcome (option Logs) :=
  match l with
  | [] => Ok None
  | None :: _ => Ok None
  | Some m :: _ =>
      general ← match m !! "general" with
                 | Some v => b ← assert_bool (Some v); Ok (Some b)
                 | None => Ok None
                 end;
      audit ← match m !! "audit" with
               | Some v => b ← assert_bool (Some v); Ok (Some b)
               | None => Ok None
               end;
      Ok (Some {| logs_General := general; logs_Audit := audit |})
  end.

Definition put_string (k : string) (p : option string) (m : gmap string value)
  : gmap string value :=
  match p with Some s => <[k := VString s]> m | None => m end.

Definition StringValue (p : option string) : string := default "" p.
Definition BoolValue (p : option bool) : bool := default false p.
Definition StringValueSlice (l : list (option string)) : list string := StringValue <$> l.

Definition flattenMqEncryptionOptions (encryptionOptions : option EncryptionOptions)
  : list (option (gmap string value)) :=
  match encryptionOptions with
  | None => []
  | Some eo =>
      [Some {[ "kms_key_id" := VString (StringValue (eo_KmsKeyId eo));
               "use_aws_owned_key" := VBool (BoolValue (eo_UseAwsOwnedKey eo)) ]}]
  end.

Definition flattenMqWeeklyStartTime (wst : option WeeklyStartTime)
  : list (option (gmap string value)) :=
  match wst with
  | None => []
  | Some w =>
      [Some (put_string "time_zone" (wst_TimeZone w)
              (put_string "time_of_day" (wst_TimeOfDay w)
                (put_string "day_of_week" (wst_DayOfWeek w) ∅)))]
  end.

Definition flattenMqConfigurationId (cid : option ConfigurationId)
  : list (option (gmap string value)) :=
  match cid with
  | None => []
  | Some c =>
      let m := put_string "id" (cid_Id c) ∅ in
      [Some (match cid_Revision c with
             | Some r => <["revision" := VInt r]> m
             | None => m
             end)]
  end.

Definition flattenMqBrokerInstances (instances : list BrokerInstance)
  : list (option (gmap string value)) :=
  (λ instance,
     let m := put_string "console_url" (bi_ConsoleURL instance) ∅ in
     let m := if bool_decide (0 < length (bi_Endpoints instance))
              then <["endpoints" := VSlice (StringValueSlice (bi_Endpoints instance))]> m
              else m in
     Some (put_string "ip_address" (bi_IpAddress instance) m)) <$> instances.

Definition flattenMqLogs (logs : option Logs) : list (option (gmap string value)) :=
  match logs with
  | None => []
  | Some l =>
      let m : gmap string value :=
        match logs_General l with
        | Some b => {[ "general" := VBool b ]}
        | None => ∅
        end in
      [Some (match logs_Audit l with
             | Some b => <["audit" := VBool b]> m
             | None => m
             end)]
  end.

(** ** The Read and Update handlers *)

Section Handlers.

Context {W : Type}.
Variable conn : MQ W.

(** Helpers of the provider outside this file, kept as parameters:
    [expandStringList] and [expandStringSet] (aws/structure.go) turn listed
    strings and a set of strings into the strings of a request,
    [flattenStringSet] builds a set of strings, [isAWSErr] (aws/awserr.go)
    tells whether an error is an AWS error of the given code whose message
    contains the given text, and [ignoreTags] stands for the tag filters of
    [keyvaluetags]. *)
Variable expandStringList : list string → list string.
Variable expandStringSet : SchemaSet string → list string.
Variable flattenStringSet : list string → SchemaSet string.
Variable isAWSErr : error → string → string → bool.
Variable ignoreTags : gmap string string → gmap string string.

(** *** resourceAwsMqBrokerRead *)

(** The loop over [out.Users]: one DescribeUser per user, left at the first
    error. *)
Fixpoint describe_users (id : string) (users : list UserSummary) (rawUsers : list User)
  : M W (error + list User) :=
  match users with
  | [] => retM (inr rawUsers)
  | u :: rest =>
      r <-- DescribeUser conn id (us_Username u) ;;
      match r with
      | inl err => retM (inl err)
      | inr uOut =>
          describe_users id rest
            (rawUsers ++ [{| User_ConsoleAccess := dur_ConsoleAccess uOut;
                             User_Groups := dur_Groups uOut;
                             User_Password := None;
                             User_Username := dur_Username uOut |}])
      end
  end.

(** The values written by [d.Set] have the type of their attribute, so
    [d.Set] does not fail and its error returns are not taken.  The handler
    works on [d] in place; the model returns the [d] it leaves. *)
Definition resourceAwsMqBrokerRead (d : ResourceData) : M W (ResourceData * option error) :=
  r <-- DescribeBroker conn (d_Id d) ;;
  match r with
  | inl err =>
      if isAWSErr err mq_ErrCodeNotFoundException "" then
        retM (d_SetId "" d, None)
      else if isAWSErr err mq_ErrCodeForbiddenException "Forbidden" then
        retM (d_SetId "" d, None)
      else retM (d, Some err)
  | inr out =>
      let d := d_Set "arn" (AString (dbr_BrokerArn out)) d in
      let d := d_Set "authentication_strategy" (AString (dbr_AuthenticationStrategy out)) d in
      let d := d_Set "auto_minor_version_upgrade" (ABool (dbr_AutoMinorVersionUpgrade out)) d in
      let d := d_Set "broker_name" (AString (dbr_BrokerName out)) d in
      let d := d_Set "deployment_mode" (AString (dbr_DeploymentMode out)) d in
      let d := d_Set "engine_type" (AString (dbr_EngineType out)) d in
      let d := d_Set "engine_version" (AString (dbr_EngineVersion out)) d in
      let d := d_Set "host_instance_type" (AString (dbr_HostInstanceType out)) d in
      let d := d_Set "instances" (ABlocks (flattenMqBrokerInstances (dbr_BrokerInstances out))) d in
      let d := d_Set "publicly_accessible" (ABool (dbr_PubliclyAccessible out)) d in
      sg <-- liftM (schema_NewSet schema_HashString (StringValueSlice (dbr_SecurityGroups out))) ;;
      let d := d_Set "security_groups" (AStringSet sg) d in
      let d := d_Set "storage_type" (AString (dbr_StorageType out)) d in
      sn <-- liftM (schema_NewSet schema_HashString (StringValueSlice (dbr_SubnetIds out))) ;;
      let d := d_Set "subnet_ids" (AStringSet sn) d in
      cfgs <-- liftM (match dbr_Configurations out with
                      | Some c => Ok c
                      | None => Panic "invalid memory address or nil pointer dereference"
                      end) ;;
      let d := d_Set "configuration" (ABlocks (flattenMqConfigurationId (cfgs_Current cfgs))) d in
      let d := d_Set "encryption_options"
                 (ABlocks (flattenMqEncryptionOptions (dbr_EncryptionOptions out))) d in
      let d := d_Set "logs" (ABlocks (flattenMqLogs (dbr_Logs out))) d in
      let d := d_Set "maintenance_window_start_time"
                 (ABlocks (flattenMqWeeklyStartTime (dbr_MaintenanceWindowStartTime out))) d in
      ru <-- describe_users (d_Id d) (dbr_Users out) [] ;;
      match ru with
      | inl err => retM (d, Some err)
      | inr rawUsers =>
          users <-- liftM (flattenMqUsers flattenStringSet rawUsers
                             (Set_List (attr_user_set (d_Get "user" d)))) ;;
          let d := d_Set "user" (AUserSet users) d in
          let d := d_Set "tags" (ATags (ignoreTags (dbr_Tags out))) d in
          retM (d, None)
      end
  end.

(** *** resourceAwsMqBrokerUpdate *)

(** [Set.List] hands out the maps of a user set; each is a map of its own
    on the heap. *)
Definition new_map (m : gmap string value) : M W loc :=
  λ s, let l := fresh (dom (heap s)) in
       Ok (l, MkState (<[l := m]> (heap s)) (world s) (trace s)).

Fixpoint new_maps (ms : list (gmap string value)) : M W (list loc) :=
  match ms with
  | [] => retM []
  | m :: rest =>
      l <-- new_map m ;;
      ls <-- new_maps rest ;;
      retM (l :: ls)
  end.

Definition update_security_groups (d : ResourceData) : M W (option error) :=
  if d_HasChange "security_groups" d then
    err <-- UpdateBroker conn
              {| ubr_BrokerId := d_Id d;
                 ubr_SecurityGroups :=
                   Some (expandStringSet (attr_string_set (d_Get "security_groups" d)));
                 ubr_Configuration := None;
                 ubr_Logs := None |} ;;
    match err with
    | Some e =>
        retM (Some (WrappedError
                      ("error updating MQ Broker (" +:+ d_Id d +:+ ") security groups") e))
    | None => retM None
    end
  else retM None.

Definition update_configuration (d : ResourceData) (requiresReboot : bool)
  : M W (error + bool) :=
  if d_HasChanges ["configuration"; "logs"] d then
    cfg <-- liftM (expandMqConfigurationId (attr_blocks (d_Get "configuration" d))) ;;
    logs <-- liftM (expandMqLogs (attr_blocks (d_Get "logs" d))) ;;
    err <-- UpdateBroker conn
              {| ubr_BrokerId := d_Id d;
                 ubr_SecurityGroups := None;
                 ubr_Configuration := cfg;
                 ubr_Logs := logs |} ;;
    match err with
    | Some e =>
        retM (inl (WrappedError
                     ("error updating MQ Broker (" +:+ d_Id d +:+ ") configuration") e))
    | None => retM (inr true)
    end
  else retM (inr requiresReboot).

Definition update_users (ord : RangeOrder) (d : ResourceData) (requiresReboot : bool)
  : M W (error + bool) :=
  if d_HasChange "user" d then
    let '(o, n) := d_GetChange "user" d in
    oldUsers <-- new_maps (Set_List (attr_user_set o)) ;;
    newUsers <-- new_maps (Set_List (attr_user_set n)) ;;
    r <-- updateAwsMqBrokerUsers conn expandStringList ord (d_Id d) oldUsers newUsers ;;
    let '(usersUpdated, err) := r in
    match err with
    | Some e =>
        retM (inl (WrappedError ("error updating MQ Broker (" +:+ d_Id d +:+ ") user") e))
    | None => retM (inr (if usersUpdated then true else requiresReboot))
    end
  else retM (inr requiresReboot).

(** The [Refresh] function of the wait. *)
Definition refresh_broker_state (id : string) : M W (error + string) :=
  r <-- DescribeBroker conn id ;;
  match r with
  | inl err => retM (inl err)
  | inr out =>
      st <-- liftM (deref_string (dbr_BrokerState out)) ;;
      retM (inr st)
  end.

Definition update_reboot (polls : nat) (d : ResourceData) (requiresReboot : bool)
  : M W (option error) :=
  if attr_bool (d_Get "apply_immediately" d) && requiresReboot then
    err <-- RebootBroker conn (d_Id d) ;;
    match err with
    | Some e =>
        retM (Some (WrappedError ("error rebooting MQ Broker (" +:+ d_Id d +:+ ")") e))
    | None =>
        WaitForState (refresh_broker_state (d_Id d))
          [mq_BrokerStateRunning; mq_BrokerStateRebootInProgress]
          [mq_BrokerStateRunning] polls
    end
  else retM None.

Definition update_tags (d : ResourceData) : M W (option error) :=
  if d_HasChange "tags" d then
    let '(o, n) := d_GetChange "tags" d in
    let arn := attr_string (d_Get "arn" d) in
    err <-- MqUpdateTags conn arn (attr_tags o) (attr_tags n) ;;
    match err with
    | Some e =>
        retM (Some (WrappedError ("error updating MQ Broker (" +:+ arn +:+ ") tags") e))
    | None => retM None
    end
  else retM None.

(** The steps up to the reboot decision: the error that ends the handler,
    or the value of [requiresReboot] at the reboot test. *)
Definition update_changes (ord : RangeOrder) (d : ResourceData) : M W (error + bool) :=
  let requiresReboot := false in
  e <-- update_security_groups d ;;
  match e with
  | Some err => retM (inl err)
  | None =>
      c <-- update_configuration d requiresReboot ;;
      match c with
      | inl err => retM (inl err)
      | inr requiresReboot => update_users ord d requiresReboot
      end
  end.

(** [polls] is the number of polls that fit in the 30 minute timeout of the
    wait. *)
Definition resourceAwsMqBrokerUpdate (polls : nat) (ord : RangeOrder) (d : ResourceData)
  : M W (option error) :=
  c <-- update_changes ord d ;;
  match c with
  | inl err => retM (Some err)
  | inr requiresReboot =>
      e <-- update_reboot polls d requiresReboot ;;
      match e with
      | Some err => retM (Some err)
      | None => update_tags d
      end
  end.

End Handlers.

(** ** Sample remote sides and helper instances *)

Fixpoint has_prefix (p s : string) : bool :=
  match p, s with
  | EmptyString, _ => true
  | String a p', String b s' => bool_decide (a = b) && has_prefix p' s'
  | _, _ => false
  end.

Fixpoint strings_Contains (s substr : string) : bool :=
  has_prefix substr s ||
  match s with
  | EmptyString => false
  | String _ s' => strings_Contains s' substr
  end.

Fixpoint as_AWSError (e : error) : option (string * string) :=
  match e with
  | AWSError code message => Some (code, message)
  | WrappedError _ cause => as_AWSError cause
  | _ => None
  end.

(** Modelled from the spec: [isAWSErr] of aws/awserr.go, which is not among
    the sources.  The remote boundary returns typed not-found and forbidden
    errors: the error is an AWS error, possibly wrapped, with the given code
    and a message that contains the given text. *)
Definition isAWSErr_typed (err : error) (code message : string) : bool :=
  match as_AWSError err with
  | Some (c, m) => bool_decide (c = code) && strings_Contains m message
  | None => false
  end.

(** A remote side that answers the mutating calls from a script, one entry
    per call and success once the script is used up, and every DescribeBroker
    with the same answer. *)
Definition scripted_call {A} (_ : A) (script : list (option error))
  : option error * list (option error) :=
  match script with
  | [] => (None, [])
  | e :: rest => (e, rest)
  end.

Definition scripted_conn (describe : error + DescribeBrokerResponse)
  : MQ (list (option error)) :=
  {| mq_CreateUser := scripted_call;
     mq_DeleteUser := scripted_call;
     mq_UpdateUser := scripted_call;
     mq_UpdateBroker := scripted_call;
     mq_RebootBroker := scripted_call;
     mq_DescribeBroker := λ _ w, (describe, w);
     mq_DescribeUser := λ _ _ w, (inl (OtherError "no such user"), w);
     mq_UpdateTags := λ _ _ _ w, (None, w) |}.

Definition expandStringList_nonempty (l : list string) : list string :=
  filter (λ s, s ≠ "") l.


(** A broker resource with no attributes set. *)
Definition sample_broker : ResourceData := MkData "b-1234" ∅ ∅ ∅.

Definition not_found_error : error := AWSError "NotFoundException" "broker is gone".


(** An instance of [flattenStringSet]: the set of the listed strings. *)
Definition flattenStringSet_new (l : list string) : SchemaSet string :=
  match schema_NewSet schema_HashString l with
  | Ok s => s
  | Panic _ => MkSet ∅
  end.

(** A user map as the schema reads it from the configuration. *)
Definition sample_user (name password : string) (console_access : bool)
    (groups : list string) : gmap string value :=
  {[ "username" := VString name;
     "password" := VString password;
     "console_access" := VBool console_access;
     "groups" := VSet (flattenStringSet_new groups) ]}.

Definition sample_cfg_users : list (gmap string value) :=
  [sample_user "alice" "correct horse" false ["admin"];
   sample_user "bob" "battery staple" true []].

Definition sample_remote_users : list User :=
  [{| User_ConsoleAccess := Some false; User_Groups := ["admin"];
      User_Password := Some "from the remote side"; User_Username := Some "alice" |};
   {| User_ConsoleAccess := None; User_Groups := [];
      User_Password := None; User_Username := Some "carol" |}].

(** The calls of the user API a diff asks for, and the event a call leaves
    in the log. *)
Inductive user_call : Type :=
| CallCreate (r : CreateUserRequest)
| CallDelete (r : DeleteUserInput)
| CallUpdate (r : UpdateUserRequest).

Definition call_event (c : user_call) (err : option error) : event :=
  match c with
  | CallCreate r => ECreateUser r err
  | CallDelete r => EDeleteUser r err
  | CallUpdate r => EUpdateUser r err
  end.

(** All creates, then all deletes, then all updates. *)
Definition diff_plan (createL : list CreateUserRequest) (deleteL : list DeleteUserInput)
    (updateL : list UpdateUserRequest) : list user_call :=
  (CallCreate <$> createL) ++ (CallDelete <$> deleteL) ++ (CallUpdate <$> updateL).

(** What one loop of the apply does: it issues the requests in order up to
    and including the first that fails. *)
Definition loop_result (evs : list event) (plan : list user_call)
    (flag0 flag : bool) (err : option error) : Prop :=
  match err with
  | None => evs = (λ c, call_event c None) <$> plan ∧
            flag = (if evs is [] then flag0 else true)
  | Some e => ∃ ok failed rest,
      plan = ok ++ failed :: rest ∧
      evs = ((λ c, call_event c None) <$> ok) ++ [call_event failed (Some e)] ∧
      flag = true
  end.

(** A heap with an observed alice at 1, a declared alice with a new
    password at 2 and a declared bob at 3. *)
Definition sample_heap : gmap loc (gmap string value) :=
  {[ 1%positive := sample_user "alice" "correct horse" false ["admin"; "ops"];
     2%positive := sample_user "alice" "new password" false ["ops"; "admin"];
     3%positive := sample_user "bob" "battery staple" true [] ]}.

Definition rejected : error := AWSError "BadRequestException" "rejected".

(** Users without a [groups] entry: an observed alice at 1, a declared alice
    with a new password at 2 and a declared bob at 3. *)
Definition plain_user (name password : string) : gmap string value :=
  {[ "username" := VString name;
     "password" := VString password;
     "console_access" := VBool false ]}.

Definition plain_heap : gmap loc (gmap string value) :=
  {[ 1%positive := plain_user "alice" "correct horse";
     2%positive := plain_user "alice" "new password";
     3%positive := plain_user "bob" "battery staple" ]}.

Definition create_bob : CreateUserRequest :=
  {| cur_BrokerId := "b-1234"; cur_ConsoleAccess := false; cur_Groups := None;
     cur_Password := "battery staple"; cur_Username := "bob" |}.

Definition update_alice : UpdateUserRequest :=
  {| uur_BrokerId := "b-1234"; uur_ConsoleAccess := false; uur_Groups := [];
     uur_Password := "new password"; uur_Username := "alice" |}.

(** ** Vocabulary of the diff properties *)

(** The map a user is compared as: the [groups] set replaced by its list. *)
Definition listed_groups (m : gmap string value) : gmap string value :=
  match m !! "groups" with
  | Some (VSet s) => <["groups" := VSlice (Set_List s)]> m
  | _ => m
  end.

Definition user_name (m : gmap string value) : option string :=
  match m !! "username" with
  | Some (VString n) => Some n
  | _ => None
  end.

Definition name_at (h : gmap loc (gmap string value)) (l : loc) : option string :=
  h !! l ≫= user_name.

(** The usernames of a user collection. *)
Definition user_names (h : gmap loc (gmap string value)) (users : list loc) : list string :=
  omap (name_at h) users.

(** A user map as the schema of the [user] attribute types it: username and
    password are strings, console_access is a bool, groups is a set when it
    is there, and no other entry is a set. *)
Definition wf_user (m : gmap string value) : Prop :=
  is_Some (user_name m) ∧
  (∃ p, m !! "password" = Some (VString p)) ∧
  (∃ b, m !! "console_access" = Some (VBool b)) ∧
  (∀ v, m !! "groups" = Some v → ∃ s, v = VSet s) ∧
  (∀ k s, m !! k = Some (VSet s) → k = "groups").

(** The users of a collection are maps of the heap typed by the schema. *)
Definition wf_users (h : gmap loc (gmap string value)) (users : list loc) : Prop :=
  ∀ l, l ∈ users → ∃ m, h !! l = Some m ∧ wf_user m.

(** What the second loop decides for a declared user, given the index
    [existingUsers] of the observed users: the name to create, or the name
    to update. *)
Definition create_verdict (h : gmap loc (gmap string value)) (existingUsers : gmap string loc)
    (nu : loc) : option string :=
  n ← name_at h nu;
  match existingUsers !! n with
  | None => Some n
  | Some _ => None
  end.

Definition update_verdict (h : gmap loc (gmap string value)) (existingUsers : gmap string loc)
    (nu : loc) : option string :=
  m ← h !! nu;
  n ← user_name m;
  eu ← existingUsers !! n;
  mo ← h !! eu;
  if DeepEqual mo (listed_groups m) then None else Some n.

(** A username held by an observed and by a declared user whose compared
    maps are deeply equal ([eq = true]) or not ([eq = false]). *)
Definition compared (h : gmap loc (gmap string value)) (old new : list loc)
    (n : string) (eq : bool) : Prop :=
  ∃ lo ln mo mn, lo ∈ old ∧ ln ∈ new ∧ h !! lo = Some mo ∧ h !! ln = Some mn ∧
    user_name mo = Some n ∧ user_name mn = Some n ∧
    DeepEqual (listed_groups mo) (listed_groups mn) = eq.

(** An observed alice and bob at 1 and 2, and a declared copy of each, in
    maps of their own, at 3 and 4. *)
Definition twin_heap : gmap loc (gmap string value) :=
  {[ 1%positive := sample_user "alice" "correct horse" false ["admin"; "ops"];
     2%positive := sample_user "bob" "battery staple" true [];
     3%positive := sample_user "alice" "correct horse" false ["admin"; "ops"];
     4%positive := sample_user "bob" "battery staple" true [] ]}.

(** The heap the diff of the observed alice leaves behind. *)
Definition heap_after_diff : gmap loc (gmap string value) :=
  match diffAwsMqBrokerUsers expandStringList_nonempty range_in_key_order "b-1234"
          [1%positive] [] sample_heap with
  | Ok (h1, _) => h1
  | Panic _ => ∅
  end.

(** An observed alice at 1 and a declared alice at 2 who differ in the
    order in which their groups were given. *)
Definition groups_heap : gmap loc (gmap string value) :=
  {[ 1%positive := sample_user "alice" "correct horse" false ["admin"; "ops"];
     2%positive := sample_user "alice" "correct horse" false ["ops"; "admin"] ]}.

Definition delete_named (name : string) : DeleteUserInput :=
  {| dui_BrokerId := "b-1234"; dui_Username := name |}.

(** What a call of the diff returns. *)
Definition DiffOutcome : Type :=
  outcome (gmap loc (gmap string value) *
           (list CreateUserRequest * list DeleteUserInput * list UpdateUserRequest)).

(** The heap a call of the diff leaves behind. *)
Definition left_heap (o : DiffOutcome) : gmap loc (gmap string value) :=
  match o with
  | Ok (h1, _) => h1
  | Panic _ => ∅
  end.

(** The first example of the specification: alice is observed with the
    groups admin and ops and declared with ops and admin, and bob is
    declared without groups. *)
Definition example_heap : gmap loc (gmap string value) :=
  <[3%positive := sample_user "bob" "battery staple" false []]> groups_heap.

(** The answer of DescribeBroker for a running broker. *)
Definition running_broker : DescribeBrokerResponse :=
  {| dbr_BrokerArn := Some "arn:aws:mq:eu-west-1:123456789012:broker:sample:b-1234";
     dbr_AuthenticationStrategy := None;
     dbr_AutoMinorVersionUpgrade := None;
     dbr_BrokerName := Some "sample";
     dbr_DeploymentMode := None;
     dbr_EngineType := Some "ActiveMQ";
     dbr_EngineVersion := None;
     dbr_HostInstanceType := None;
     dbr_BrokerInstances := [];
     dbr_PubliclyAccessible := None;
     dbr_SecurityGroups := [];
     dbr_StorageType := None;
     dbr_SubnetIds := [];
     dbr_Configurations := Some {| cfgs_Current := None |};
     dbr_EncryptionOptions := None;
     dbr_Logs := None;
     dbr_MaintenanceWindowStartTime := None;
     dbr_Users := [];
     dbr_Tags := ∅;
     dbr_BrokerState := Some mq_BrokerStateRunning |}.

(** An instance of [expandStringSet]: the non-empty strings of the set. *)
Definition expandStringSet_nonempty (s : SchemaSet string) : list string :=
  expandStringList_nonempty (Set_List s).

(** A broker whose configuration changed, to be applied immediately. *)
Definition configuration_changed_broker : ResourceData :=
  MkData "b-1234"
    {[ "apply_immediately" := ABool (Some true);
       "configuration" := ABlocks [Some {[ "id" := VString "c-1"; "revision" := VInt 2 ]}] ]}
    ∅ {[ "configuration" ]}.

Definition update_configuration_request : UpdateBrokerRequest :=
  {| ubr_BrokerId := "b-1234";
     ubr_SecurityGroups := None;
     ubr_Configuration := Some {| cid_Id := Some "c-1"; cid_Revision := Some 2%Z |};
     ubr_Logs := None |}.

(** The set of the listed user maps. *)
Definition user_set (users : list (gmap string value)) : SchemaSet (gmap string value) :=
  match schema_NewSet resourceAwsMqUserHash users with
  | Ok s => s
  | Panic _ => MkSet ∅
  end.

(** A broker with no observed user and two declared users, to be applied
    immediately. *)
Definition users_changed_broker : ResourceData :=
  MkData "b-1234"
    {[ "apply_immediately" := ABool (Some true);
       "user" := AUserSet (user_set [sample_user "bob" "battery staple" false [];
                                     sample_user "carol" "tr0ub4dor and 3" false []]) ]}
    {[ "user" := AUserSet (MkSet ∅) ]}
    {[ "user" ]}.

(** The events a computation adds to the log all satisfy [P]. *)
Definition logs_only {W A} (P : event → Prop) (m : M W A) : Prop :=
  ∀ s a s', m s = Ok (a, s') → ∃ evs, trace s' = trace s ++ evs ∧ Forall P evs.

(** An event of the broker API other than a reboot. *)
Definition broker_update_event (e : event) : Prop :=
  is_reboot_call e = false ∧ user_call_result e = None.

(** ** Vocabulary of the further properties *)

(** The list the groups of a user map are sent as. *)
Definition listed_groups_of (m : gmap string value) : list string :=
  match m !! "groups" with
  | Some (VSet s) => Set_List s
  | _ => []
  end.

(** A create request that carries the attributes of the declared map [m]:
    no groups at all when the user has none. *)
Definition create_request_of (expandStringList : list string → list string) (bId : string)
    (m : gmap string value) (c : CreateUserRequest) : Prop :=
  cur_BrokerId c = bId ∧
  user_name m = Some (cur_Username c) ∧
  m !! "password" = Some (VString (cur_Password c)) ∧
  m !! "console_access" = Some (VBool (cur_ConsoleAccess c)) ∧
  cur_Groups c = match listed_groups_of m with
                 | [] => None
                 | g => Some (expandStringList g)
                 end.

(** An update request that carries the attributes of the declared map [m]. *)
Definition update_request_of (expandStringList : list string → list string) (bId : string)
    (m : gmap string value) (u : UpdateUserRequest) : Prop :=
  uur_BrokerId u = bId ∧
  user_name m = Some (uur_Username u) ∧
  m !! "password" = Some (VString (uur_Password u)) ∧
  m !! "console_access" = Some (VBool (uur_ConsoleAccess u)) ∧
  uur_Groups u = expandStringList (listed_groups_of m).


(** What the diff asks of a user map before it compares it: a string
    username and, if there are groups, a set of them. *)
Definition diffable (m : gmap string value) : Prop :=
  (∃ n, m !! "username" = Some (VString n)) ∧
  (m !! "groups" = None ∨ ∃ s, m !! "groups" = Some (VSet s)).

(** A configured user map: username and password are strings. *)
Definition configured_user (c : gmap string value) : Prop :=
  ∃ n p, c !! "username" = Some (VString n) ∧ c !! "password" = Some (VString p).

(** The map [flattenMqUsers] builds for the user [u] of the remote read:
    name, console access and groups are those of [u], a password is a
    non-empty password configured for that name, and there is no other
    key. *)
Definition mirrors_remote_user (flattenStringSet : list string → SchemaSet string)
    (cfgUsers : list (gmap string value)) (u : User) (m : gmap string value) : Prop :=
  m !! "username" = VString <$> User_Username u ∧
  m !! "console_access" = VBool <$> User_ConsoleAccess u ∧
  m !! "groups" = match User_Groups u with
                  | [] => None
                  | g => Some (VSet (flattenStringSet g))
                  end ∧
  (∀ k, k ∉ ["username"; "password"; "console_access"; "groups"] → m !! k = None) ∧
  (m !! "password" = None ∨
   ∃ p c, p ≠ "" ∧ m !! "password" = Some (VString p) ∧
          c ∈ cfgUsers ∧ c !! "username" = m !! "username" ∧
          c !! "password" = Some (VString p)).

(** A user of the remote read. *)
Definition remote_user (name : string) (console_access : option bool) (groups : list string)
  : User :=
  {| User_ConsoleAccess := console_access; User_Groups := groups;
     User_Password := None; User_Username := Some name |}.

(** ** The other expand helpers *)

Definition expandMqEncryptionOptions (l : list (option (gmap string value)))
  : outcome (option EncryptionOptions) :=
  match l with
  | [] => Ok None
  | None :: _ => Ok None
  | Some m :: _ =>
      b ← assert_bool (m !! "use_aws_owned_key");
      let encryptionOptions := {| eo_KmsKeyId := None; eo_UseAwsOwnedKey := Some b |} in
      Ok (Some (match m !! "kms_key_id" with
                | Some (VString v) =>
                    if bool_decide (v ≠ "")
                    then {| eo_KmsKeyId := Some v; eo_UseAwsOwnedKey := Some b |}
                    else encryptionOptions
                | _ => encryptionOptions
                end))
  end.

Definition expandMqWeeklyStartTime (cfg : list (option (gmap string value)))
  : outcome (option WeeklyStartTime) :=
  match cfg with
  | [] => Ok None
  | c0 :: _ =>
      m ← assert_map c0;
      day ← assert_string (m !! "day_of_week");
      time ← assert_string (m !! "time_of_day");
      zone ← assert_string (m !! "time_zone");
      Ok (Some {| wst_DayOfWeek := Some day;
                  wst_TimeOfDay := Some time;
                  wst_TimeZone := Some zone |})
  end.

Section ExpandUsers.

(** [expandStringSet] (aws/structure.go), a helper outside this file. *)
Variable expandStringSet : SchemaSet string → list string.

(** The body of the loop of expandMqUsers. *)
Definition expand_user (u : gmap string value) : outcome User :=
  username ← assert_string (u !! "username");
  password ← assert_string (u !! "password");
  ca ← match u !! "console_access" with
        | Some v => b ← assert_bool (Some v); Ok (Some b)
        | None => Ok None
        end;
  groups ← match u !! "groups" with
            | Some g => s ← assert_set g; Ok (expandStringSet s)
            | None => Ok []
            end;
  Ok {| User_ConsoleAccess := ca; User_Groups := groups;
        User_Password := Some password; User_Username := Some username |}.

Definition expandMqUsers (cfg : list (gmap string value)) : outcome (list User) :=
  foldM (λ users u, user ← expand_user u; Ok (users ++ [user])) [] cfg.

End ExpandUsers.


(** A weekly start time with every field set. *)
Definition sample_start_time : WeeklyStartTime :=
  {| wst_DayOfWeek := Some "MONDAY"; wst_TimeOfDay := Some "02:00";
     wst_TimeZone := Some "UTC" |}.

(** ** Vocabulary of the read properties *)

(** The user that Read keeps of a DescribeUser answer. *)
Definition user_of_response (uOut : DescribeUserResponse) : User :=
  {| User_ConsoleAccess := dur_ConsoleAccess uOut;
     User_Groups := dur_Groups uOut;
     User_Password := None;
     User_Username := dur_Username uOut |}.

(** The log of successful DescribeUser calls for the listed users. *)
Definition described (id : string) (users : list UserSummary)
    (resps : list DescribeUserResponse) : list event :=
  zip_with (λ u r, EDescribeUser id (us_Username u) (inr r)) users resps.

(** A call that only reads the broker [id] or one of its users. *)
Definition describe_event (id : string) (e : event) : Prop :=
  match e with
  | EDescribeBroker i _ => i = id
  | EDescribeUser i _ _ => i = id
  | _ => False
  end.

(** A remote side like [scripted_conn] that knows the listed users. *)
Definition describing_conn (describe : error + DescribeBrokerResponse) (known : list string)
  : MQ (list (option error)) :=
  {| mq_CreateUser := scripted_call;
     mq_DeleteUser := scripted_call;
     mq_UpdateUser := scripted_call;
     mq_UpdateBroker := scripted_call;
     mq_RebootBroker := scripted_call;
     mq_DescribeBroker := λ _ w, (describe, w);
     mq_DescribeUser := λ _ name w,
       match name with
       | Some n =>
           if bool_decide (n ∈ known)
           then (inr {| dur_ConsoleAccess := Some true; dur_Groups := [];
                        dur_Username := Some n |}, w)
           else (inl (AWSError "NotFoundException" "no such user"), w)
       | None => (inl (OtherError "no user name"), w)
       end;
     mq_UpdateTags := λ _ _ _ w, (None, w) |}.

(** The answer of DescribeBroker for a running broker with two users. *)
Definition broker_with_users : DescribeBrokerResponse :=
  {| dbr_BrokerArn := dbr_BrokerArn running_broker;
     dbr_AuthenticationStrategy := None;
     dbr_AutoMinorVersionUpgrade := None;
     dbr_BrokerName := Some "sample";
     dbr_DeploymentMode := None;
     dbr_EngineType := Some "ActiveMQ";
     dbr_EngineVersion := None;
     dbr_HostInstanceType := None;
     dbr_BrokerInstances := [];
     dbr_PubliclyAccessible := None;
     dbr_SecurityGroups := [];
     dbr_StorageType := None;
     dbr_SubnetIds := [];
     dbr_Configurations := Some {| cfgs_Current := None |};
     dbr_EncryptionOptions := None;
     dbr_Logs := None;
     dbr_MaintenanceWindowStartTime := None;
     dbr_Users := [{| us_Username := Some "alice" |}; {| us_Username := Some "mallory" |}];
     dbr_Tags := ∅;
     dbr_BrokerState := Some mq_BrokerStateRunning |}.

(** ** resourceAwsMqBrokerDelete *)

Definition mq_BrokerStateDeletionInProgress : string := "DELETION_IN_PROGRESS".

Section Delete.

Context {W : Type}.
Variable conn : MQ W.

(** The DeleteBroker operation of the client, a function on the remote side
    like the operations of [MQ].  The call log has no entry for it: what it
    does shows in the remote side it leaves. *)
Variable mq_DeleteBroker : string → W → option error * W.
Variable isAWSErr : error → string → string → bool.

Definition DeleteBroker (id : string) : M W (option error) :=
  λ s, let '(err, w) := mq_DeleteBroker id (world s) in
       Ok (err, MkState (heap s) w (trace s)).

(** The [Refresh] function of the wait for the deletion. *)
Definition refresh_broker_deletion (id : string) : M W (error + string) :=
  r <-- DescribeBroker conn id ;;
  match r with
  | inl err =>
      if isAWSErr err "NotFoundException" "" then retM (inr "")
      else retM (inl err)
  | inr out =>
      st <-- liftM (deref_string (dbr_BrokerState out)) ;;
      retM (inr st)
  end.

(** [polls] is the number of polls that fit in the 30 minute timeout. *)
Definition waitForMqBrokerDeletion (polls : nat) (id : string) : M W (option error) :=
  WaitForState (refresh_broker_deletion id)
    [mq_BrokerStateRunning; mq_BrokerStateRebootInProgress; mq_BrokerStateDeletionInProgress]
    [""] polls.

Definition resourceAwsMqBrokerDelete (polls : nat) (d : ResourceData) : M W (option error) :=
  err <-- DeleteBroker (d_Id d) ;;
  match err with
  | Some e => retM (Some e)
  | None => waitForMqBrokerDeletion polls (d_Id d)
  end.

End Delete.

(** A poll of the deletion wait that saw the broker in a pending state. *)
Definition deletion_pending (id : string) (e : event) : Prop :=
  ∃ out st, e = EDescribeBroker id (inr out) ∧ dbr_BrokerState out = Some st ∧
    st ∈ [mq_BrokerStateRunning; mq_BrokerStateRebootInProgress;
          mq_BrokerStateDeletionInProgress].

(** A poll that saw the broker gone: a not-found error, or an empty state. *)
Definition deletion_done (isAWSErr : error → string → string → bool) (id : string)
    (e : event) : Prop :=
  (∃ err, e = EDescribeBroker id (inl err) ∧ isAWSErr err "NotFoundException" "" = true) ∨
  (∃ out, e = EDescribeBroker id (inr out) ∧ dbr_BrokerState out = Some "").

(** ** validateMqBrokerPassword *)

(** A Go string is a sequence of bytes: a [string] here holds one byte per
    character.  A range over a string decodes it as UTF-8, as
    [utf8.DecodeRuneInString] does: a byte sequence that is not the encoding
    of a code point yields the rune 0xFFFD and a width of one byte. *)
Definition RuneError : N := 65533.

Definition DecodeRuneInString (s : string) : N * nat :=
  match s with
  | EmptyString => (RuneError, 0%nat)
  | String c0 t0 =>
      let s0 := N_of_ascii c0 in
      if (s0 <? 128)%N then (s0, 1%nat)
      else if ((s0 <? 194) || (244 <? s0))%N then (RuneError, 1%nat)
      else
        let sz := if (s0 <? 224)%N then 2%nat else if (s0 <? 240)%N then 3%nat else 4%nat in
        let lo := (if s0 =? 224 then 160 else if s0 =? 240 then 144 else 128)%N in
        let hi := (if s0 =? 237 then 159 else if s0 =? 244 then 143 else 191)%N in
        if (String.length s <? sz)%nat then (RuneError, 1%nat)
        else
          match t0 with
          | EmptyString => (RuneError, 1%nat)
          | String c1 t1 =>
              let s1 := N_of_ascii c1 in
              if ((s1 <? lo) || (hi <? s1))%N then (RuneError, 1%nat)
              else if (sz <=? 2)%nat
              then (N.lor (N.shiftl (N.land s0 31) 6) (N.land s1 63), 2%nat)
              else
                match t1 with
                | EmptyString => (RuneError, 1%nat)
                | String c2 t2 =>
                    let s2 := N_of_ascii c2 in
                    if ((s2 <? 128) || (191 <? s2))%N then (RuneError, 1%nat)
                    else if (sz <=? 3)%nat
                    then (N.lor (N.lor (N.shiftl (N.land s0 15) 12)
                                       (N.shiftl (N.land s1 63) 6))
                                (N.land s2 63), 3%nat)
                    else
                      match t2 with
                      | EmptyString => (RuneError, 1%nat)
                      | String c3 _ =>
                          let s3 := N_of_ascii c3 in
                          if ((s3 <? 128) || (191 <? s3))%N then (RuneError, 1%nat)
                          else (N.lor (N.lor (N.lor (N.shiftl (N.land s0 7) 18)
                                                    (N.shiftl (N.land s1 63) 12))
                                             (N.shiftl (N.land s2 63) 6))
                                      (N.land s3 63), 4%nat)
                      end
                end
          end
  end.

(** The string without its first [n] bytes. *)
Fixpoint skip_bytes (n : nat) (s : string) : string :=
  match n, s with
  | S n', String _ s' => skip_bytes n' s'
  | _, _ => s
  end.

(** The runes a range over the string yields, in order.  Every step takes
    at least one byte, so [fuel] bytes of fuel are enough for a string of
    that length. *)
Fixpoint range_runes_from (fuel : nat) (s : string) : list N :=
  match fuel, s with
  | S fuel', String _ _ =>
      let '(r, size) := DecodeRuneInString s in
      r :: range_runes_from fuel' (skip_bytes size s)
  | _, _ => []
  end.

Definition range_runes (s : string) : list N := range_runes_from (String.length s) s.

Section Validate.

(** The verbs q and d of [fmt], outside this file. *)
Variable Sprintf_q : string → string.
Variable Sprintf_d : nat → string.

Definition comma_error (k : string) : error :=
  OtherError (Sprintf_q k +:+ " must not contain commas").

Definition unique_error (k : string) : error :=
  OtherError (Sprintf_q k +:+ " must contain at least 4 unique characters").

Definition length_error (k : string) (min max len : nat) : error :=
  OtherError (Sprintf_q k +:+ " must be " +:+ Sprintf_d min +:+ " to " +:+ Sprintf_d max
              +:+ " characters long. provided string length: " +:+ Sprintf_d len).

(** One round of the loop.  The map [unique] is keyed by [string(v)], the
    UTF-8 text of the rune, which is a different text for every rune that a
    range yields; it is kept as the set of the runes, and the test of
    [string(v)] against the comma is the test of the rune against 44. *)
Definition validate_rune (k : string) (st : gset N * list error) (v : N)
  : gset N * list error :=
  let '(unique, errors) := st in
  if bool_decide (v ∈ unique) then (unique, errors)
  else
    let errors := if bool_decide (v = 44%N) then errors ++ [comma_error k] else errors in
    ({[ v ]} ∪ unique, errors).

(** The results [ws] and [errors]; [ws] stays nil. *)
Definition validateMqBrokerPassword (v : value) (k : string)
  : outcome (list string * list error) :=
  let min := 12%nat in
  let max := 250%nat in
  value ← assert_string (Some v);
  let '(unique, errors) := foldl (validate_rune k) (∅, []) (range_runes value) in
  let errors := if bool_decide (size unique < 4)%nat
                then errors ++ [unique_error k] else errors in
  let errors := if bool_decide (String.length value < min ∨ max < String.length value)%nat
                then errors ++ [length_error k min max (String.length value)]
                else errors in
  Ok ([], errors).

End Validate.

(** The bytes of a string. *)
Fixpoint bytes_of (s : string) : list ascii :=
  match s with
  | EmptyString => []
  | String c s' => c :: bytes_of s'
  end.

(** The comma, byte 44. *)
Definition comma : ascii := ascii_of_nat 44.

(** Tactics for the cases of the decoder. *)

(** The tests of the decoder as inequalities. *)
Ltac decoder_tests :=
  repeat match goal with
         | H : (_ || _) = false |- _ => apply orb_false_iff in H as [? ?]
         | H : (_ <? _)%N = true |- _ => apply N.ltb_lt in H
         | H : (_ <? _)%N = false |- _ => apply N.ltb_ge in H
         | H : (_ =? _)%N = true |- _ => apply N.eqb_eq in H
         | H : (_ =? _)%N = false |- _ => apply N.eqb_neq in H
         end.

(** Settles the tests of the decoder that the inequalities at hand decide. *)
Ltac settle_tests :=
  repeat match goal with
         | |- context [(?x <? ?y)%N] =>
             first [ rewrite (proj2 (N.ltb_lt x y)) by lia
                   | rewrite (proj2 (N.ltb_ge x y)) by lia ]
         | |- context [(?x =? ?y)%N] =>
             first [ rewrite (proj2 (N.eqb_eq x y)) by lia
                   | rewrite (proj2 (N.eqb_neq x y)) by lia ]
         end.

Ltac decode_leaves :=
  settle_tests; cbn [orb];
  repeat match goal with
         | |- context [if ?b then _ else _] => destruct b eqn:?
         | |- context [match ?t with EmptyString => _ | String _ _ => _ end] =>
             destruct t
         end;
  simpl in *; try discriminate;
  (eexists _, _; split; [reflexivity|]);
  decoder_tests;
  (split; [|split; [simpl; lia|]]).

Ltac skipped_no_comma :=
  simpl; try done; rewrite ?elem_of_cons; (split; [|by auto]);
  let H := fresh in
  intros H; repeat (destruct H as [<-|H]; [exfalso|]); try done;
  change (N_of_ascii comma) with 44%N in *; lia.

Ltac rune_is_error :=
  split; [discriminate | intros ->; change (N_of_ascii comma) with 44%N in *; lia].

(** ** Vocabulary of the update properties *)

(** The error a logged call answered with, if it failed. *)
Definition event_error (e : event) : option error :=
  match e with
  | ECreateUser _ err | EDeleteUser _ err | EUpdateUser _ err
  | EUpdateBroker _ err | ERebootBroker _ err | EUpdateTags _ _ _ err => err
  | EDescribeBroker _ (inl err) | EDescribeUser _ _ (inl err) => Some err
  | _ => None
  end.

(** Calls that all succeeded. *)
Definition all_succeeded (evs : list event) : Prop :=
  Forall (λ e, event_error e = None) evs.

(** Calls of which the last one failed and no other, with the error [err]
    made of the error of that call, bare or wrapped once. *)
Definition failed_at_last (evs : list event) (err : error) : Prop :=
  ∃ init e cause,
    evs = init ++ [e] ∧ all_succeeded init ∧ event_error e = Some cause ∧
    (err = cause ∨ ∃ text, err = WrappedError text cause).

(** The calls of a handler that stops at the first call that fails: either
    the last call failed and its error is returned, or every call succeeded
    and the handler returns nil or an error of the state poller. *)
Definition stops_at_failure (evs : list event) (res : option error) : Prop :=
  (all_succeeded evs ∧
   (res = None ∨ res = Some TimeoutError ∨ ∃ st, res = Some (UnexpectedStateError st))) ∨
  (∃ err, res = Some err ∧ failed_at_last evs err).

(** The state an update of [users_changed_broker] leaves when the second
    call of the user API is rejected. *)
Definition rejected_user_update : State (list (option error)) :=
  match resourceAwsMqBrokerUpdate (scripted_conn (inr running_broker))
          expandStringList_nonempty expandStringSet_nonempty 3 range_in_key_order
          users_changed_broker (MkState ∅ [None; Some rejected] []) with
  | Ok (_, s') => s'
  | Panic _ => MkState ∅ [] []
  end.

(** ** resourceAwsMqBrokerCreate *)

Definition mq_BrokerStateCreationInProgress : string := "CREATION_IN_PROGRESS".

Record CreateBrokerRequest := {
  cbr_AuthenticationStrategy : option string;
  cbr_AutoMinorVersionUpgrade : option bool;
  cbr_BrokerName : option string;
  cbr_Configuration : option ConfigurationId;
  cbr_CreatorRequestId : option string;
  cbr_DeploymentMode : option string;
  cbr_EncryptionOptions : option EncryptionOptions;
  cbr_EngineType : option string;
  cbr_EngineVersion : option string;
  cbr_HostInstanceType : option string;
  cbr_Logs : option Logs;
  cbr_MaintenanceWindowStartTime : option WeeklyStartTime;
  cbr_PubliclyAccessible : option bool;
  cbr_SecurityGroups : option (list string);
  cbr_StorageType : option string;
  cbr_SubnetIds : option (list string);
  cbr_Tags : option (gmap string string);
  cbr_Users : list User }.

Record CreateBrokerResponse := {
  cbo_BrokerArn : option string;
  cbo_BrokerId : option string }.

Section Create.

Context {W : Type}.
Variable conn : MQ W.

(** The CreateBroker operation of the client, a function on the remote side
    like the operations of [MQ]; the call log has no entry for it.  Helpers
    outside this file, kept as parameters: [PrefixedUniqueId] of the plugin
    SDK, which makes the request id; [d_GetOk], the [d.GetOk] of the plugin
    SDK, which gives the value of an attribute that is set to something
    other than the zero value; [MqTags], the chain of [keyvaluetags] calls
    that turns the tags into those of the request; and the helpers of
    Read. *)
Variable mq_CreateBroker : CreateBrokerRequest → W → (error + CreateBrokerResponse) * W.
Variable PrefixedUniqueId : string → string.
Variable d_GetOk : string → ResourceData → option attr.
Variable MqTags : gmap string string → gmap string string.
Variable expandStringSet : SchemaSet string → list string.
Variable flattenStringSet : list string → SchemaSet string.
Variable isAWSErr : error → string → string → bool.
Variable ignoreTags : gmap string string → gmap string string.

(** The request that Create builds; the expand helpers can panic. *)
Definition create_input (d : ResourceData) : outcome CreateBrokerRequest :=
  let name := attr_string (d_Get "broker_name" d) in
  let requestId := PrefixedUniqueId ("tf-" +:+ name) in
  encryptionOptions ← expandMqEncryptionOptions (attr_blocks (d_Get "encryption_options" d));
  logs ← expandMqLogs (attr_blocks (d_Get "logs" d));
  users ← expandMqUsers expandStringSet (Set_List (attr_user_set (d_Get "user" d)));
  configuration ← match d_GetOk "configuration" d with
                   | Some v => expandMqConfigurationId (attr_blocks (Some v))
                   | None => Ok None
                   end;
  maintenance ← match d_GetOk "maintenance_window_start_time" d with
                 | Some v => expandMqWeeklyStartTime (attr_blocks (Some v))
                 | None => Ok None
                 end;
  Ok {| cbr_AuthenticationStrategy :=
          match d_GetOk "authentication_strategy" d with
          | Some v => Some (attr_string (Some v))
          | None => None
          end;
        cbr_AutoMinorVersionUpgrade := Some (attr_bool (d_Get "auto_minor_version_upgrade" d));
        cbr_BrokerName := Some name;
        cbr_Configuration := configuration;
        cbr_CreatorRequestId := Some requestId;
        cbr_DeploymentMode :=
          match d_GetOk "deployment_mode" d with
          | Some v => Some (attr_string (Some v))
          | None => None
          end;
        cbr_EncryptionOptions := encryptionOptions;
        cbr_EngineType := Some (attr_string (d_Get "engine_type" d));
        cbr_EngineVersion := Some (attr_string (d_Get "engine_version" d));
        cbr_HostInstanceType := Some (attr_string (d_Get "host_instance_type" d));
        cbr_Logs := logs;
        cbr_MaintenanceWindowStartTime := maintenance;
        cbr_PubliclyAccessible := Some (attr_bool (d_Get "publicly_accessible" d));
        cbr_SecurityGroups :=
          match d_GetOk "security_groups" d with
          | Some v =>
              if bool_decide (0 < Set_Len (attr_string_set (Some v)))
              then Some (expandStringSet (attr_string_set (d_Get "security_groups" d)))
              else None
          | None => None
          end;
        cbr_StorageType :=
          match d_GetOk "storage_type" d with
          | Some v => Some (attr_string (Some v))
          | None => None
          end;
        cbr_SubnetIds :=
          match d_GetOk "subnet_ids" d with
          | Some v => Some (expandStringSet (attr_string_set (Some v)))
          | None => None
          end;
        cbr_Tags :=
          match d_GetOk "tags" d with
          | Some v => Some (MqTags (attr_tags (Some v)))
          | None => None
          end;
        cbr_Users := users |}.

Definition CreateBroker (input : CreateBrokerRequest) : M W (error + CreateBrokerResponse) :=
  λ s, let '(r, w) := mq_CreateBroker input (world s) in
       Ok (r, MkState (heap s) w (trace s)).

(** [polls] is the number of polls that fit in the 30 minute timeout of the
    wait.  Its [Refresh] function is that of the wait in Update. *)
Definition resourceAwsMqBrokerCreate (polls : nat) (d : ResourceData)
  : M W (ResourceData * option error) :=
  input <-- liftM (create_input d) ;;
  r <-- CreateBroker input ;;
  match r with
  | inl err => retM (d, Some err)
  | inr out =>
      let d := d_SetId (StringValue (cbo_BrokerId out)) d in
      let d := d_Set "arn" (AString (cbo_BrokerArn out)) d in
      e <-- WaitForState (refresh_broker_state conn (d_Id d))
              [mq_BrokerStateCreationInProgress; mq_BrokerStateRebootInProgress]
              [mq_BrokerStateRunning] polls ;;
      match e with
      | Some err => retM (d, Some err)
      | None => resourceAwsMqBrokerRead conn flattenStringSet isAWSErr ignoreTags d
      end
  end.

End Create.

(** A remote side that refuses to create a broker. *)
Definition refuses_broker (_ : CreateBrokerRequest) (w : list (option error))
  : (error + CreateBrokerResponse) * list (option error) :=
  (inl rejected, w).

(** A broker that is yet to be created. *)
Definition new_broker : ResourceData :=
  MkData "" {[ "broker_name" := AString (Some "sample") ]} ∅ ∅.

(** * Properties *)

(** ** The suppression of user diffs *)




(** ** State removal in Read *)

(** C8: when DescribeBroker fails, Read clears the id and returns no error
    if the error is a NotFoundException, and likewise if it is a
    ForbiddenException whose message contains Forbidden; every other error
    is returned as it is, with the resource data untouched. *)
Theorem read_describe_broker_error {W} (conn : MQ W)
    (flattenStringSet : list string → SchemaSet string)
    (isAWSErr : error → string → string → bool)
    (ignoreTags : gmap string string → gmap string string)
    (d : ResourceData) (s : State W) (err : error) (w' : W) :
  mq_DescribeBroker conn (d_Id d) (world s) = (inl err, w') →
  let s' := MkState (heap s) w' (trace s ++ [EDescribeBroker (d_Id d) (inl err)]) in
  let read := resourceAwsMqBrokerRead conn flattenStringSet isAWSErr ignoreTags d s in
  (isAWSErr err mq_ErrCodeNotFoundException "" = true →
     read = Ok ((d_SetId "" d, None), s')) ∧
  (isAWSErr err mq_ErrCodeForbiddenException "Forbidden" = true →
     read = Ok ((d_SetId "" d, None), s')) ∧
  (isAWSErr err mq_ErrCodeNotFoundException "" = false →
   isAWSErr err mq_ErrCodeForbiddenException "Forbidden" = false →
     read = Ok ((d, Some err), s')).
Proof.
  intros Hd s' read. subst read s'.
  unfold resourceAwsMqBrokerRead, bindM, DescribeBroker, log_call. rewrite Hd.
  repeat split.
  - intros ->. done.
  - intros ->. by destruct (isAWSErr err mq_ErrCodeNotFoundException "").
  - intros -> ->. done.
Qed.

Lemma read_describe_broker_error_witness :
  resourceAwsMqBrokerRead (scripted_conn (inl not_found_error)) (λ _, MkSet ∅)
    isAWSErr_typed id sample_broker (MkState ∅ [] [])
  = Ok ((d_SetId "" sample_broker, None),
        MkState ∅ [] [EDescribeBroker "b-1234" (inl not_found_error)]).
Proof.
  pose proof (read_describe_broker_error (scripted_conn (inl not_found_error))
                (λ _, MkSet ∅) isAWSErr_typed id sample_broker (MkState ∅ [] [])
                not_found_error [] eq_refl) as [Hnf _].
  apply Hnf. reflexivity.
Defined.

(** ** Generic facts on the loops *)

(** A loop that keeps an invariant and cannot panic under it returns, and
    its result satisfies the invariant. *)
Lemma foldM_invariant {A B} (P : A → Prop) (f : A → B → outcome A) (l : list B) (a : A) :
  P a →
  (∀ a x, x ∈ l → P a → ∃ a', f a x = Ok a' ∧ P a') →
  ∃ a', foldM f a l = Ok a' ∧ P a'.
Proof.
  revert a. induction l as [|x l IH]; intros a Ha Hstep; simpl.
  - eauto.
  - destruct (Hstep a x) as (a1 & Hf & Ha1); [left | done |].
    unfold_bind. rewrite Hf. apply IH; [done |].
    intros a2 y Hy. apply Hstep. by right.
Qed.

(** The same, for a loop that is known to return. *)
Lemma foldM_preserves {A B} (P : A → Prop) (f : A → B → outcome A) (l : list B) (a a' : A) :
  P a →
  (∀ a x a', x ∈ l → P a → f a x = Ok a' → P a') →
  foldM f a l = Ok a' → P a'.
Proof.
  revert a. induction l as [|x l IH]; intros a Ha Hstep; simpl.
  - by intros [= <-].
  - unfold_bind. destruct (f a x) as [a1|] eqn:Hf; [|done].
    apply IH; [eapply Hstep; [left | done | done] |].
    intros a2 y a3 Hy. apply Hstep. by right.
Qed.

Lemma elem_of_Set_List {A} (s : SchemaSet A) (x : A) :
  x ∈ Set_List s ↔ ∃ code, set_m s !! code = Some x.
Proof.
  unfold Set_List. rewrite list_elem_of_fmap. split.
  - intros ([k y] & -> & Hin). exists k. by apply elem_of_map_to_list in Hin.
  - intros (k & Hk). exists (k, x). split; [done|]. by apply elem_of_map_to_list.
Qed.

(** The items of a new set are among the items it was built from, and the
    set is built whenever the hash function accepts every item. *)
Lemma schema_NewSet_items {A} (F : A → outcome string) (items : list A) :
  (∀ x, x ∈ items → ∃ code, F x = Ok code) →
  ∃ s, schema_NewSet F items = Ok s ∧ ∀ x, x ∈ Set_List s → x ∈ items.
Proof.
  intros HF. unfold schema_NewSet.
  destruct (foldM_invariant (λ s, ∀ code x, set_m s !! code = Some x → x ∈ items)
              (Set_Add F) items (MkSet ∅)) as (s & Hs & Hinv).
  - intros code x. simpl. by rewrite lookup_empty.
  - intros s x Hx Hinv. destruct (HF x Hx) as (code & Hcode).
    unfold Set_Add. unfold_bind. rewrite Hcode.
    destruct (set_m s !! code) eqn:Hl; [by eauto|].
    eexists; split; [done|]. simpl. intros c y.
    rewrite lookup_insert. case_decide; [by intros [= <-] | by apply Hinv].
  - exists s. split; [done|]. intros x [code Hc]%elem_of_Set_List. by eapply Hinv.
Qed.

(** ** Password carry-forward in flattenMqUsers *)


Lemma flatten_user_spec (flattenStringSet : list string → SchemaSet string)
    (ep : gmap string string) (u : User) (name : string) :
  User_Username u = Some name →
  ∃ m, flatten_user flattenStringSet ep u = Ok m ∧
       m !! "username" = Some (VString name) ∧
       (∀ p, ep !! name = Some p → p ≠ "" → m !! "password" = Some (VString p)) ∧
       (∃ code, resourceAwsMqUserHash m = Ok code).
Proof.
  intros Hname. unfold flatten_user. rewrite Hname. simpl.
  eexists; split; [done|].
  set (pw := match ep !! name with Some p => p | None => "" end).
  assert (Hkeys : ∀ m0 : gmap string value,
    m0 !! "username" = Some (VString name) →
    (m0 !! "password" = None ∨ ∃ p, m0 !! "password" = Some (VString p)) →
    (m0 !! "console_access" = None ∨ ∃ b, m0 !! "console_access" = Some (VBool b)) →
    (m0 !! "groups" = None ∨ ∃ s, m0 !! "groups" = Some (VSet s)) →
    ∃ code, resourceAwsMqUserHash m0 = Ok code).
  { intros m0 Hu Hp Hc Hg. unfold resourceAwsMqUserHash. unfold_bind.
    destruct Hc as [-> | [b ->]], Hg as [-> | [s ->]], Hp as [-> | [p ->]];
      rewrite Hu; simpl; eexists; reflexivity. }
  assert (Hpw : ∀ p, ep !! name = Some p → p ≠ "" → pw = p ∧ bool_decide (pw ≠ "") = true).
  { intros p Hp Hne. subst pw. rewrite Hp. split; [done|]. by apply bool_decide_eq_true_2. }
  destruct (bool_decide (0 < length (User_Groups u))), (User_ConsoleAccess u) as [ca|],
    (bool_decide (pw ≠ "")) eqn:Hb.
  all: split_and!;
    [ by simplify_map_eq
    | intros p Hp Hne; destruct (Hpw p Hp Hne) as [-> ?]; by simplify_map_eq
    | apply Hkeys; simplify_map_eq; eauto ].
Qed.





(** ** Applying a diff *)

Lemma apply_requests_spec {W R} (run : R → W → option error * W)
    (ev : R → option error → event) (mk : R → user_call)
    (Hev : ∀ r err, ev r err = call_event (mk r) err)
    (l : list R) (flag0 : bool) (s : State W) :
  ∃ flag err s' evs,
    apply_requests (λ r, log_call (run r) (ev r)) l flag0 s = Ok ((flag, err), s') ∧
    heap s' = heap s ∧ trace s' = trace s ++ evs ∧
    loop_result evs (mk <$> l) flag0 flag err.
Proof.
  revert flag0 s. induction l as [|r l IH]; intros flag0 s; cbn [apply_requests].
  - exists flag0, None, s, []. split_and!; try done. by rewrite app_nil_r.
  - unfold bindM, log_call. destruct (run r (world s)) as [[e|] w] eqn:Hrun.
    + eexists true, (Some e), _, [ev r (Some e)]. split_and!; try done.
      exists [], (mk r), (mk <$> l). by rewrite Hev.
    + destruct (IH true (MkState (heap s) w (trace s ++ [ev r None])))
        as (flag & err & s' & evs & Hrun' & Hh & Ht & Hres).
      exists flag, err, s', (ev r None :: evs). split_and!; try done.
      * rewrite Ht. simpl. by rewrite <- app_assoc.
      * unfold loop_result in *. rewrite fmap_cons. destruct err as [e|].
        -- destruct Hres as (ok & failed & rest & Hl & Hevs & Hf).
           exists (mk r :: ok), failed, rest. rewrite Hl, Hevs, Hev. by split_and!.
        -- destruct Hres as [-> ->]. rewrite fmap_cons, Hev. split; [done|]. by destruct l.
Qed.

Lemma loop_result_app (evs1 evs2 : list event) (p1 p2 : list user_call)
    (flag0 flag1 flag2 : bool) (err : option error) :
  loop_result evs1 p1 flag0 flag1 None →
  loop_result evs2 p2 flag1 flag2 err →
  loop_result (evs1 ++ evs2) (p1 ++ p2) flag0 flag2 err.
Proof.
  unfold loop_result. intros [-> ->] H2. destruct err as [e|].
  - destruct H2 as (ok & failed & rest & -> & -> & ->).
    exists (p1 ++ ok), failed, rest. rewrite fmap_app, <- !app_assoc. by split_and!.
  - destruct H2 as [-> ->]. rewrite fmap_app. split; [done|].
    destruct p1, p2; simpl; try done.
Qed.

Lemma loop_result_stop (evs : list event) (p1 p2 : list user_call)
    (flag0 flag : bool) (e : error) :
  loop_result evs p1 flag0 flag (Some e) →
  loop_result evs (p1 ++ p2) flag0 flag (Some e).
Proof.
  intros (ok & failed & rest & -> & -> & ->).
  exists ok, failed, (rest ++ p2). by rewrite <- app_assoc.
Qed.

Lemma apply_diff_spec {W} (conn : MQ W) (createL : list CreateUserRequest)
    (deleteL : list DeleteUserInput) (updateL : list UpdateUserRequest)
    (flag0 : bool) (s : State W) :
  ∃ flag err s' evs,
    apply_diff conn createL deleteL updateL flag0 s = Ok ((flag, err), s') ∧
    heap s' = heap s ∧ trace s' = trace s ++ evs ∧
    loop_result evs (diff_plan createL deleteL updateL) flag0 flag err.
Proof.
  unfold apply_diff, bindM, diff_plan.
  destruct (apply_requests_spec (mq_CreateUser conn) ECreateUser CallCreate
              (λ _ _, eq_refl) createL flag0 s)
    as (f1 & e1 & s1 & evs1 & Hr1 & Hh1 & Ht1 & Hres1).
  unfold CreateUser. rewrite Hr1. simpl. destruct e1 as [e|].
  { exists f1, (Some e), s1, evs1. split_and!; try done. by apply loop_result_stop. }
  destruct (apply_requests_spec (mq_DeleteUser conn) EDeleteUser CallDelete
              (λ _ _, eq_refl) deleteL f1 s1)
    as (f2 & e2 & s2 & evs2 & Hr2 & Hh2 & Ht2 & Hres2).
  unfold DeleteUser. rewrite Hr2. simpl. destruct e2 as [e|].
  { exists f2, (Some e), s2, (evs1 ++ evs2). split_and!; try done.
    - congruence.
    - by rewrite Ht2, Ht1, app_assoc.
    - eapply loop_result_app; [done|]. by apply loop_result_stop. }
  destruct (apply_requests_spec (mq_UpdateUser conn) EUpdateUser CallUpdate
              (λ _ _, eq_refl) updateL f2 s2)
    as (f3 & e3 & s3 & evs3 & Hr3 & Hh3 & Ht3 & Hres3).
  unfold UpdateUser. rewrite Hr3.
  exists f3, e3, s3, (evs1 ++ evs2 ++ evs3). split_and!; try done.
  - congruence.
  - by rewrite Ht3, Ht2, Ht1, !app_assoc.
  - eapply loop_result_app; [done|]. by eapply loop_result_app.
Qed.



(** C2, as the code has it: the flag is true exactly when a call of the
    user API was issued.  When no error is returned this is the same as one
    call having succeeded. *)
Theorem updateAwsMqBrokerUsers_flag {W} (conn : MQ W)
    (expandStringList : list string → list string) (ord : RangeOrder) (bId : string)
    (oldUsers newUsers : list loc) (s : State W) (h' : gmap loc (gmap string value))
    (createL : list CreateUserRequest) (deleteL : list DeleteUserInput)
    (updateL : list UpdateUserRequest) :
  diffAwsMqBrokerUsers expandStringList ord bId oldUsers newUsers (heap s)
    = Ok (h', (createL, deleteL, updateL)) →
  ∃ flag err s' evs,
    updateAwsMqBrokerUsers conn expandStringList ord bId oldUsers newUsers s
      = Ok ((flag, err), s') ∧
    trace s' = trace s ++ evs ∧
    (flag = true ↔ evs ≠ []) ∧
    (err = None → (flag = true ↔ Exists (λ ev, user_call_succeeded ev = true) evs)).
Proof.
  intros Hdiff. unfold updateAwsMqBrokerUsers. rewrite Hdiff.
  destruct (apply_diff_spec conn createL deleteL updateL false
              (MkState h' (world s) (trace s)))
    as (flag & err & s' & evs & Hrun & _ & Ht & Hres).
  exists flag, err, s', evs. split_and!; [done | done | |].
  - unfold loop_result in Hres. destruct err as [e|].
    + destruct Hres as (ok & failed & rest & _ & -> & ->).
      split; [|done]. intros _. by destruct ok.
    + destruct Hres as [_ ->]. by destruct evs.
  - intros ->. destruct Hres as [-> ->].
    destruct (diff_plan createL deleteL updateL) as [|c plan]; simpl.
    + split; [done|]. by intros ?%Exists_nil.
    + split; [|done]. intros _. left. by destruct c.
Qed.

Lemma updateAwsMqBrokerUsers_flag_witness :
  diffAwsMqBrokerUsers expandStringList_nonempty range_in_key_order "b-1234"
    [1%positive] [2%positive; 3%positive] plain_heap
    = Ok (plain_heap, ([create_bob], [], [update_alice])) ∧
  ∃ flag err s' evs,
    updateAwsMqBrokerUsers (scripted_conn (inl rejected)) expandStringList_nonempty
      range_in_key_order "b-1234" [1%positive] [2%positive; 3%positive]
      (MkState plain_heap [] [])
      = Ok ((flag, err), s') ∧
    trace s' = [] ++ evs ∧
    (flag = true ↔ evs ≠ []) ∧
    (err = None → (flag = true ↔ Exists (λ ev, user_call_succeeded ev = true) evs)).
Proof.
  split.
  - vm_cast_no_check (eq_refl (Ok (plain_heap, ([create_bob], @nil DeleteUserInput, [update_alice])))).
  - apply (updateAwsMqBrokerUsers_flag (scripted_conn (inl rejected))
             expandStringList_nonempty range_in_key_order "b-1234"
             [1%positive] [2%positive; 3%positive]
             (MkState plain_heap [] []) plain_heap [create_bob] [] [update_alice]).
    vm_cast_no_check (eq_refl (Ok (plain_heap, ([create_bob], @nil DeleteUserInput, [update_alice])))).
Defined.

(** Against C2 as stated: the first call of the apply is rejected, so no
    call has succeeded, and the flag is true all the same. *)
Lemma updateAwsMqBrokerUsers_flag_counterexample :
  ∃ s' r,
    updateAwsMqBrokerUsers (scripted_conn (inl rejected)) expandStringList_nonempty
      range_in_key_order "b-1234" [] [3%positive]
      (MkState plain_heap [Some rejected] [])
      = Ok ((true, Some rejected), s') ∧
    trace s' = [ECreateUser r (Some rejected)] ∧
    ¬ Exists (λ ev, user_call_succeeded ev = true) (trace s').
Proof.
  eexists _, _. split; [vm_compute; reflexivity|]. split; [reflexivity|].
  simpl. intros H. apply Exists_cons in H as [H|H%Exists_nil]; [discriminate H | done].
Qed.

(** ** The first loop of the diff *)

Lemma user_name_listed_groups (m : gmap string value) :
  user_name (listed_groups m) = user_name m.
Proof.
  unfold listed_groups, user_name.
  destruct (m !! "groups") as [[]|]; try done. by rewrite lookup_insert_ne.
Qed.

Lemma diff_old_user_ok (h : gmap loc (gmap string value)) (ex : gmap string loc)
    (l : loc) (m : gmap string value) (n : string) :
  h !! l = Some m → wf_user m → user_name m = Some n →
  diff_old_user (h, ex) l = Ok (<[l := listed_groups m]> h, <[n := l]> ex).
Proof.
  intros Hl (_ & _ & _ & Hg & _) Hn. unfold diff_old_user, deref. rewrite Hl.
  unfold_bind. unfold user_name in Hn.
  destruct (m !! "username") as [[]|] eqn:Hu; try done. injection Hn as ->. simpl.
  unfold listed_groups. destruct (m !! "groups") as [v|] eqn:Hgr.
  - destruct (Hg v eq_refl) as [s ->]. done.
  - simpl. by rewrite (insert_id h l m).
Qed.

Lemma omap_ext_in {A B} (f g : A → option B) (l : list A) :
  (∀ x, x ∈ l → f x = g x) → omap f l = omap g l.
Proof.
  induction l as [|x l IH]; intros H; simpl; [done|].
  rewrite (H x) by left.
  assert (Hl : omap f l = omap g l) by (apply IH; intros y Hy; apply H; by right).
  destruct (g x); [f_equal|]; exact Hl.
Qed.

Lemma elem_of_user_names (h : gmap loc (gmap string value)) (users : list loc) (n : string) :
  n ∈ user_names h users ↔ ∃ l, l ∈ users ∧ name_at h l = Some n.
Proof. unfold user_names. by rewrite list_elem_of_omap. Qed.

Lemma diff_old_loop (old : list loc) (h : gmap loc (gmap string value))
    (ex : gmap string loc) :
  wf_users h old → NoDup old → NoDup (user_names h old) →
  ∃ h1 ex1,
    foldM diff_old_user (h, ex) old = Ok (h1, ex1) ∧
    (∀ l, h1 !! l = if decide (l ∈ old) then listed_groups <$> h !! l else h !! l) ∧
    (∀ l n, l ∈ old → name_at h l = Some n → ex1 !! n = Some l) ∧
    (∀ n, n ∉ user_names h old → ex1 !! n = ex !! n).
Proof.
  revert h ex. induction old as [|l0 rest IH]; intros h ex Hwf Hnd Hnames.
  - exists h, ex. split_and!; try done. by intros ?? ?%elem_of_nil.
  - destruct (Hwf l0) as (m0 & Hl0 & Hm0); [left|].
    destruct Hm0 as [[n0 Hn0] Hrest0].
    assert (Hname0 : name_at h l0 = Some n0) by (unfold name_at; by rewrite Hl0).
    apply NoDup_cons in Hnd as [Hl0rest Hnd].
    unfold user_names in Hnames. simpl in Hnames. rewrite Hname0 in Hnames.
    apply NoDup_cons in Hnames as [Hn0rest Hnames].
    set (h' := <[l0 := listed_groups m0]> h).
    assert (Hsame : ∀ l, l ∈ rest → h' !! l = h !! l).
    { intros l Hl. unfold h'. rewrite lookup_insert_ne; [done|]. by intros ->. }
    assert (Hnm : omap (name_at h') rest = omap (name_at h) rest).
    { apply omap_ext_in. intros l Hl. unfold name_at. by rewrite Hsame. }
    destruct (IH h' (<[n0 := l0]> ex)) as (h1 & ex1 & Hrun & Hh1 & Hin & Hout).
    { intros l Hl. rewrite Hsame by done. apply Hwf. by right. }
    { done. }
    { unfold user_names. by rewrite Hnm. }
    exists h1, ex1. split_and!.
    + cbn [foldM]. rewrite (diff_old_user_ok h ex l0 m0 n0) by done. apply Hrun.
    + intros l. rewrite Hh1. destruct (decide (l = l0)) as [->|Hne].
      * rewrite decide_False by done. rewrite decide_True by left.
        unfold h'. by rewrite lookup_insert_eq, Hl0.
      * unfold h'. rewrite lookup_insert_ne by done.
        destruct (decide (l ∈ rest)).
        -- rewrite decide_True; [done | by right].
        -- rewrite decide_False; [done|]. by intros [?|?]%elem_of_cons.
    + intros l n [->|Hl]%elem_of_cons Hn.
      * rewrite Hname0 in Hn. injection Hn as <-.
        rewrite Hout; [by rewrite lookup_insert_eq|].
        unfold user_names. by rewrite Hnm.
      * apply Hin; [done|]. unfold name_at. by rewrite Hsame.
    + intros n Hn. unfold user_names in Hn. simpl in Hn. rewrite Hname0 in Hn.
      apply not_elem_of_cons in Hn as [Hne Hn].
      rewrite Hout; [by rewrite lookup_insert_ne|].
      unfold user_names. by rewrite Hnm.
Qed.

(** ** The second loop of the diff *)

Lemma diff_new_user_ok (expandStringList : list string → list string) (bId : string)
    (h : gmap loc (gmap string value)) (ex : gmap string loc)
    (cr : list CreateUserRequest) (ur : list UpdateUserRequest)
    (nu : loc) (m : gmap string value) (n : string) :
  h !! nu = Some m → wf_user m → user_name m = Some n →
  (∀ eu, ex !! n = Some eu → is_Some (h !! eu)) →
  ∃ cr' ur',
    diff_new_user expandStringList bId h (ex, cr, ur) nu = Ok (delete n ex, cr', ur') ∧
    cur_Username <$> cr' = (cur_Username <$> cr) ++ option_list (create_verdict h ex nu) ∧
    uur_Username <$> ur' = (uur_Username <$> ur) ++ option_list (update_verdict h ex nu).
Proof.
  intros Hnu (_ & [p Hp] & [b Hb] & Hg & _) Hn Hex.
  unfold diff_new_user, deref, create_verdict, update_verdict, name_at.
  rewrite Hnu. unfold_bind. simpl. rewrite Hn. simpl.
  unfold user_name in Hn. destruct (m !! "username") as [[]|] eqn:Hu; try done.
  injection Hn as ->. simpl.
  assert (Hnew : ∃ ng,
    match m !! "groups" with
    | Some g =>
        match assert_set g with
        | Ok s => Ok (Some (Set_List s), <["groups" := VSlice (Set_List s)]> m)
        | Panic msg => Panic msg
        end
    | None => Ok (None, m)
    end = Ok (ng, listed_groups m)).
  { unfold listed_groups. destruct (m !! "groups") as [v|] eqn:Hgr; [|by eexists].
    destruct (Hg v eq_refl) as [s ->]. by eexists. }
  destruct Hnew as [ng ->].
  assert (Hca : listed_groups m !! "console_access" = Some (VBool b)).
  { unfold listed_groups. destruct (m !! "groups") as [[]|]; try done.
    by rewrite lookup_insert_ne. }
  assert (Hpw : listed_groups m !! "password" = Some (VString p)).
  { unfold listed_groups. destruct (m !! "groups") as [[]|]; try done.
    by rewrite lookup_insert_ne. }
  rewrite Hca, Hpw. simpl.
  destruct (ex !! n) as [eu|] eqn:Hexn; simpl.
  - destruct (Hex eu eq_refl) as [mo Hmo]. rewrite Hmo. simpl.
    destruct (DeepEqual mo (listed_groups m)); simpl.
    + eexists cr, ur. by rewrite !app_nil_r.
    + eexists cr, _. split; [done|]. rewrite app_nil_r. split; [done|].
      by rewrite fmap_app.
  - eexists _, ur. rewrite delete_id by done. split; [done|].
    rewrite app_nil_r. split; [|done]. by rewrite fmap_app.
Qed.

Lemma diff_new_loop (expandStringList : list string → list string) (bId : string)
    (h : gmap loc (gmap string value)) (new : list loc) (ex : gmap string loc)
    (cr : list CreateUserRequest) (ur : list UpdateUserRequest) :
  wf_users h new → NoDup (user_names h new) →
  (∀ n eu, ex !! n = Some eu → is_Some (h !! eu)) →
  ∃ ex' cr' ur',
    foldM (diff_new_user expandStringList bId h) (ex, cr, ur) new = Ok (ex', cr', ur') ∧
    (∀ k, ex' !! k = if decide (k ∈ user_names h new) then None else ex !! k) ∧
    cur_Username <$> cr' = (cur_Username <$> cr) ++ omap (create_verdict h ex) new ∧
    uur_Username <$> ur' = (uur_Username <$> ur) ++ omap (update_verdict h ex) new.
Proof.
  revert ex cr ur. induction new as [|l0 rest IH]; intros ex cr ur Hwf Hnames Hex.
  - exists ex, cr, ur. split_and!; try done; by rewrite app_nil_r.
  - destruct (Hwf l0) as (m0 & Hl0 & Hm0); [left|].
    pose proof Hm0 as [[n0 Hn0] _].
    assert (Hname0 : name_at h l0 = Some n0) by (unfold name_at; by rewrite Hl0).
    unfold user_names in Hnames. simpl in Hnames. rewrite Hname0 in Hnames.
    apply NoDup_cons in Hnames as [Hn0rest Hnames].
    destruct (diff_new_user_ok expandStringList bId h ex cr ur l0 m0 n0)
      as (cr1 & ur1 & Hstep & Hcr1 & Hur1); try done.
    { intros eu. apply Hex. }
    destruct (IH (delete n0 ex) cr1 ur1) as (ex' & cr' & ur' & Hrun & Hex' & Hcr' & Hur').
    { intros l Hl. apply Hwf. by right. }
    { done. }
    { intros n eu [_ Hn]%lookup_delete_Some. by eapply Hex. }
    assert (Hother : ∀ l, l ∈ rest → ∀ n, name_at h l = Some n → delete n0 ex !! n = ex !! n).
    { intros l Hl n Hn. rewrite lookup_delete_ne; [done|]. intros ->.
      apply Hn0rest. apply elem_of_user_names. eauto. }
    assert (Hcv : omap (create_verdict h (delete n0 ex)) rest = omap (create_verdict h ex) rest).
    { apply omap_ext_in. intros l Hl. unfold create_verdict.
      destruct (name_at h l) as [n|] eqn:Hn; [|done]. simpl.
      by rewrite (Hother l Hl n Hn). }
    assert (Huv : omap (update_verdict h (delete n0 ex)) rest = omap (update_verdict h ex) rest).
    { apply omap_ext_in. intros l Hl. unfold update_verdict.
      destruct (h !! l) as [m|] eqn:Hm; [|done]. simpl.
      destruct (user_name m) as [n|] eqn:Hn; [|done]. simpl.
      rewrite (Hother l Hl n); [done|]. unfold name_at. by rewrite Hm. }
    exists ex', cr', ur'. split_and!.
    + cbn [foldM]. rewrite Hstep. apply Hrun.
    + intros k. rewrite Hex'. unfold user_names. simpl. rewrite Hname0.
      destruct (decide (k = n0)) as [->|Hne].
      * rewrite decide_False by done. rewrite decide_True by left.
        apply lookup_delete_eq.
      * rewrite lookup_delete_ne by done.
        destruct (decide (k ∈ omap (name_at h) rest)).
        -- rewrite decide_True; [done | by right].
        -- rewrite decide_False; [done|]. by intros [?|?]%elem_of_cons.
    + rewrite Hcr', Hcr1, Hcv, <- app_assoc. f_equal. simpl.
      by destruct (create_verdict h ex l0).
    + rewrite Hur', Hur1, Huv, <- app_assoc. f_equal. simpl.
      by destruct (update_verdict h ex l0).
Qed.

(** ** The diff as a whole *)

Lemma NoDup_omap_weaken {A B} (f g : A → option B) (l : list A) :
  (∀ x y, f x = Some y → g x = Some y) → NoDup (omap g l) → NoDup (omap f l).
Proof.
  intros Hfg. induction l as [|x l IH]; simpl; [done|].
  destruct (f x) as [y|] eqn:Hf.
  - rewrite (Hfg x y Hf). intros [Hy Hnd]%NoDup_cons. apply NoDup_cons. split; [|by apply IH].
    intros (z & Hz & Hfz)%list_elem_of_omap. apply Hy. apply list_elem_of_omap. eauto.
  - destruct (g x); [intros [_ ?]%NoDup_cons|]; by apply IH.
Qed.

Lemma NoDup_omap_total {A B} (f : A → option B) (l : list A) :
  (∀ x, x ∈ l → is_Some (f x)) → NoDup (omap f l) → NoDup l.
Proof.
  induction l as [|x l IH]; intros Hf; simpl; [constructor|].
  destruct (Hf x) as [y Hy]; [left|]. rewrite Hy. intros [Hx Hnd]%NoDup_cons.
  apply NoDup_cons. split.
  - intros Hin. apply Hx. apply list_elem_of_omap. eauto.
  - apply IH; [|done]. intros z Hz. apply Hf. by right.
Qed.

Lemma wf_users_name (h : gmap loc (gmap string value)) (users : list loc) (l : loc) :
  wf_users h users → l ∈ users → is_Some (name_at h l).
Proof.
  intros Hwf Hl. destruct (Hwf l Hl) as (m & Hm & [n Hn] & _).
  exists n. unfold name_at. by rewrite Hm.
Qed.

Lemma diff_spec (expandStringList : list string → list string) (ord : RangeOrder)
    (bId : string) (old new : list loc) (h : gmap loc (gmap string value)) :
  wf_users h old → wf_users h new →
  (∀ l, l ∈ old → l ∉ new) →
  NoDup (user_names h old) → NoDup (user_names h new) →
  ∃ h1 cr di ur,
    diffAwsMqBrokerUsers expandStringList ord bId old new h = Ok (h1, (cr, di, ur)) ∧
    (∀ l, h1 !! l = if decide (l ∈ old) then listed_groups <$> h !! l else h !! l) ∧
    (NoDup (cur_Username <$> cr) ∧ NoDup (uur_Username <$> ur) ∧
     NoDup (dui_Username <$> di)) ∧
    (∀ n, n ∈ cur_Username <$> cr ↔ n ∈ user_names h new ∧ n ∉ user_names h old) ∧
    (∀ n, n ∈ dui_Username <$> di ↔ n ∈ user_names h old ∧ n ∉ user_names h new) ∧
    (∀ n, n ∈ uur_Username <$> ur ↔
       ∃ lo ln mo mn, lo ∈ old ∧ ln ∈ new ∧ h !! lo = Some mo ∧ h !! ln = Some mn ∧
         user_name mo = Some n ∧ user_name mn = Some n ∧
         DeepEqual (listed_groups mo) (listed_groups mn) = false).
Proof.
  intros Hwfo Hwfn Hsep Hndo Hndn.
  assert (Hnd : NoDup old).
  { apply (NoDup_omap_total (name_at h)); [|exact Hndo].
    intros l Hl. exact (wf_users_name h old l Hwfo Hl). }
  destruct (diff_old_loop old h ∅ Hwfo Hnd Hndo) as (h1 & ex1 & Hrun1 & Hh1 & Hin & Hout).
  assert (Hnew : ∀ l, l ∈ new → h1 !! l = h !! l).
  { intros l Hl. rewrite Hh1. rewrite decide_False; [done|]. intros Ho. by eapply Hsep. }
  assert (Hnames : user_names h1 new = user_names h new).
  { apply omap_ext_in. intros l Hl. unfold name_at. by rewrite Hnew. }
  assert (Hex1 : ∀ n eu, ex1 !! n = Some eu ↔ eu ∈ old ∧ name_at h eu = Some n).
  { intros n eu. split.
    - intros Hn. destruct (decide (n ∈ user_names h old)) as [Hno|Hno].
      + apply elem_of_user_names in Hno as (l & Hl & Hln).
        rewrite (Hin l n Hl Hln) in Hn. by injection Hn as <-.
      + rewrite (Hout n Hno), lookup_empty in Hn. done.
    - intros [Hl Hn]. by apply Hin. }
  assert (Hex1None : ∀ n, ex1 !! n = None ↔ n ∉ user_names h old).
  { intros n. split.
    - intros Hn (l & Hl & Hln)%elem_of_user_names. by rewrite (Hin l n Hl Hln) in Hn.
    - intros Hn. by rewrite (Hout n Hn), lookup_empty. }
  destruct (diff_new_loop expandStringList bId h1 new ex1 [] [])
    as (ex' & cr & ur & Hrun2 & Hex' & Hcr & Hur).
  { intros l Hl. rewrite Hnew by done. by apply Hwfn. }
  { by rewrite Hnames. }
  { intros n eu [Heu _]%Hex1. rewrite Hh1, decide_True by done.
    destruct (Hwfo eu Heu) as (m & -> & _). by eexists. }
  simpl in Hcr, Hur.
  set (di := (λ username, {| dui_BrokerId := bId; dui_Username := username |})
               <$> range_keys ord ex').
  assert (Hdi : dui_Username <$> di = range_keys ord ex').
  { unfold di. rewrite <- list_fmap_compose. apply list_fmap_id. }
  assert (Hkeys : ∀ n, n ∈ range_keys ord ex' ↔ n ∈ user_names h old ∧ n ∉ user_names h new).
  { intros n. rewrite (range_keys_perm ord ex'). rewrite list_elem_of_fmap. split.
    - intros ([k eu] & -> & Hk%elem_of_map_to_list). simpl.
      rewrite Hex', Hnames in Hk. case_decide; [done|]. split; [|done].
      apply Hex1 in Hk as [Heu Hn]. apply elem_of_user_names. eauto.
    - intros [(l & Hl & Hln)%elem_of_user_names Hn]. exists (n, l). split; [done|].
      apply elem_of_map_to_list. rewrite Hex', Hnames. rewrite decide_False by done.
      by apply Hin. }
  exists h1, cr, di, ur. split_and!.
  - unfold diffAwsMqBrokerUsers. unfold_bind. by rewrite Hrun1, Hrun2.
  - done.
  - rewrite Hcr. eapply NoDup_omap_weaken; [|rewrite <- Hnames in Hndn; exact Hndn].
    intros l n. unfold create_verdict. destruct (name_at h1 l) as [k|]; [|done]. simpl.
    by destruct (ex1 !! k).
  - rewrite Hur. eapply NoDup_omap_weaken; [|rewrite <- Hnames in Hndn; exact Hndn].
    intros l n. unfold update_verdict, name_at. destruct (h1 !! l) as [m|]; [|done]. simpl.
    destruct (user_name m) as [k|]; [|done]. simpl.
    destruct (ex1 !! k) as [eu|]; [|done]. simpl.
    destruct (h1 !! eu) as [mo|]; [|done]. simpl. by destruct (DeepEqual _ _).
  - rewrite Hdi, (range_keys_perm ord ex'). apply NoDup_fst_map_to_list.
  - intros n. rewrite Hcr, list_elem_of_omap. unfold create_verdict. split.
    + intros (l & Hl & Hv). destruct (name_at h1 l) as [k|] eqn:Hk; [|done]. simpl in Hv.
      destruct (ex1 !! k) eqn:Hexk; [done|]. injection Hv as ->. split.
      * rewrite <- Hnames. apply elem_of_user_names. eauto.
      * by apply Hex1None.
    + intros [Hn Ho]. rewrite <- Hnames in Hn.
      apply elem_of_user_names in Hn as (l & Hl & Hln). exists l. split; [done|].
      rewrite Hln. simpl. apply Hex1None in Ho. by rewrite Ho.
  - intros n. by rewrite Hdi.
  - intros n. rewrite Hur, list_elem_of_omap. unfold update_verdict. split.
    + intros (ln & Hln & Hv). rewrite (Hnew ln Hln) in Hv.
      destruct (h !! ln) as [mn|] eqn:Hmn; [|done]. simpl in Hv.
      destruct (user_name mn) as [k|] eqn:Hk; [|done]. simpl in Hv.
      destruct (ex1 !! k) as [lo|] eqn:Hexk; [|done]. simpl in Hv.
      apply Hex1 in Hexk as [Hlo Hlon].
      rewrite Hh1, decide_True in Hv by done.
      destruct (h !! lo) as [mo|] eqn:Hmo; [|done]. simpl in Hv.
      destruct (DeepEqual (listed_groups mo) (listed_groups mn)) eqn:Hde; [done|].
      injection Hv as ->. exists lo, ln, mo, mn. split_and!; try done.
      unfold name_at in Hlon. by rewrite Hmo in Hlon.
    + intros (lo & ln & mo & mn & Hlo & Hln & Hmo & Hmn & Hno & Hnn & Hde).
      exists ln. split; [done|]. rewrite (Hnew ln Hln), Hmn. simpl. rewrite Hnn. simpl.
      assert (Hexn : ex1 !! n = Some lo).
      { apply Hex1. split; [done|]. unfold name_at. by rewrite Hmo. }
      rewrite Hexn. simpl. rewrite Hh1, decide_True by done. rewrite Hmo. simpl.
      by rewrite Hde.
Qed.

Lemma NoDup_omap_inj {A B} (f : A → option B) (l : list A) (x y : A) (b : B) :
  NoDup (omap f l) → x ∈ l → y ∈ l → f x = Some b → f y = Some b → x = y.
Proof.
  induction l as [|z l IH]; simpl; [by intros _ ?%elem_of_nil|].
  intros Hnd [->|Hx]%elem_of_cons [->|Hy]%elem_of_cons Hfx Hfy; [done| | |].
  - rewrite Hfx in Hnd. apply NoDup_cons in Hnd as [Hb _].
    exfalso. apply Hb. apply list_elem_of_omap. eauto.
  - rewrite Hfy in Hnd. apply NoDup_cons in Hnd as [Hb _].
    exfalso. apply Hb. apply list_elem_of_omap. eauto.
  - apply IH; try done. destruct (f z); [by apply NoDup_cons in Hnd as [_ ?] | done].
Qed.

Lemma compared_functional (h : gmap loc (gmap string value)) (old new : list loc)
    (n : string) (b1 b2 : bool) :
  NoDup (user_names h old) → NoDup (user_names h new) →
  compared h old new n b1 → compared h old new n b2 → b1 = b2.
Proof.
  intros Ho Hn (lo & ln & mo & mn & Hlo & Hln & Hmo & Hmn & Hno & Hnn & <-)
    (lo' & ln' & mo' & mn' & Hlo' & Hln' & Hmo' & Hmn' & Hno' & Hnn' & <-).
  assert (lo = lo') as <-.
  { apply (NoDup_omap_inj (name_at h) old lo lo' n Ho); try done;
      unfold name_at; [by rewrite Hmo | by rewrite Hmo']. }
  assert (ln = ln') as <-.
  { apply (NoDup_omap_inj (name_at h) new ln ln' n Hn); try done;
      unfold name_at; [by rewrite Hmn | by rewrite Hmn']. }
  congruence.
Qed.

(** C1: for an observed and a declared collection with unique usernames,
    the diff returns, no username occurs twice in its three lists taken
    together, and every username falls in exactly one class: created when
    it is declared and not observed, updated when it is in both with
    differing attributes, deleted when it is observed and not declared, and
    in none of the lists when it is in both with equal attributes. *)
Theorem diff_partitions_usernames (expandStringList : list string → list string)
    (ord : RangeOrder) (bId : string) (old new : list loc)
    (h : gmap loc (gmap string value)) :
  wf_users h old → wf_users h new →
  (∀ l, l ∈ old → l ∉ new) →
  NoDup (user_names h old) → NoDup (user_names h new) →
  ∃ h1 cr di ur,
    diffAwsMqBrokerUsers expandStringList ord bId old new h = Ok (h1, (cr, di, ur)) ∧
    NoDup ((cur_Username <$> cr) ++ (uur_Username <$> ur) ++ (dui_Username <$> di)) ∧
    ∀ n,
      (n ∈ cur_Username <$> cr ↔ n ∈ user_names h new ∧ n ∉ user_names h old) ∧
      (n ∈ uur_Username <$> ur ↔ compared h old new n false) ∧
      (n ∈ dui_Username <$> di ↔ n ∈ user_names h old ∧ n ∉ user_names h new) ∧
      (n ∈ user_names h old ∨ n ∈ user_names h new →
         ((n ∉ cur_Username <$> cr) ∧ (n ∉ uur_Username <$> ur) ∧
          (n ∉ dui_Username <$> di)
          ↔ compared h old new n true)).
Proof.
  intros Hwfo Hwfn Hsep Hndo Hndn.
  destruct (diff_spec expandStringList ord bId old new h Hwfo Hwfn Hsep Hndo Hndn)
    as (h1 & cr & di & ur & Hrun & _ & (HC & HU & HD) & Hcr & Hdi & Hur).
  assert (Hboth : ∀ n b, compared h old new n b → n ∈ user_names h old ∧ n ∈ user_names h new).
  { intros n b (lo & ln & mo & mn & Hlo & Hln & Hmo & Hmn & Hno & Hnn & _).
    split; apply elem_of_user_names; [exists lo | exists ln]; unfold name_at;
      [by rewrite Hmo | by rewrite Hmn]. }
  assert (Hur' : ∀ n, n ∈ uur_Username <$> ur ↔ compared h old new n false).
  { intros n. by rewrite Hur. }
  exists h1, cr, di, ur. split_and!; [done | |].
  - apply NoDup_app. split_and!; [done | |].
    + intros n [_ Hno]%Hcr [Hu|Hd]%elem_of_app.
      * apply Hur' in Hu. by destruct (Hboth n false Hu).
      * by apply Hdi in Hd as [? _].
    + apply NoDup_app. split_and!; [done | | done].
      intros n Hu%Hur' [_ Hd]%Hdi. by destruct (Hboth n false Hu).
  - intros n. split_and!; [done | done | done |].
    intros Hn. split.
    + intros (HnC & HnU & HnD).
      assert (Ho : n ∈ user_names h old).
      { destruct Hn as [?|Hnn]; [done|].
        destruct (decide (n ∈ user_names h old)); [done|].
        exfalso. apply HnC. by apply Hcr. }
      assert (Hnw : n ∈ user_names h new).
      { destruct (decide (n ∈ user_names h new)); [done|].
        exfalso. apply HnD. by apply Hdi. }
      apply elem_of_user_names in Ho as (lo & Hlo & Hlon).
      apply elem_of_user_names in Hnw as (ln & Hln & Hlnn).
      unfold name_at in Hlon, Hlnn.
      destruct (h !! lo) as [mo|] eqn:Hmo; [|done].
      destruct (h !! ln) as [mn|] eqn:Hmn; [|done]. simpl in Hlon, Hlnn.
      destruct (DeepEqual (listed_groups mo) (listed_groups mn)) eqn:Hde.
      * by exists lo, ln, mo, mn.
      * exfalso. apply HnU. apply Hur'. by exists lo, ln, mo, mn.
    + intros Hsame. destruct (Hboth n true Hsame) as [Ho Hnw]. split_and!.
      * by intros [_ ?]%Hcr.
      * intros Hu%Hur'.
        by pose proof (compared_functional h old new n true false Hndo Hndn Hsame Hu).
      * by intros [_ ?]%Hdi.
Qed.

Lemma wf_user_sample (name password : string) (console_access : bool) (groups : list string) :
  wf_user (sample_user name password console_access groups).
Proof.
  unfold wf_user, sample_user, user_name. split_and!.
  - by simplify_map_eq.
  - eexists. by simplify_map_eq.
  - eexists. by simplify_map_eq.
  - intros v Hv. simplify_map_eq. by eexists.
  - intros k s Hk.
    repeat (apply lookup_insert_Some in Hk as [[<- Hk]|[? Hk]]; [by simplify_eq|]).
    apply lookup_singleton_Some in Hk as [<- Hk]. by simplify_eq.
Qed.

Lemma wf_user_plain (name password : string) : wf_user (plain_user name password).
Proof.
  unfold wf_user, plain_user, user_name. split_and!.
  - by simplify_map_eq.
  - eexists. by simplify_map_eq.
  - eexists. by simplify_map_eq.
  - intros v Hv. by simplify_map_eq.
  - intros k s Hk.
    repeat (apply lookup_insert_Some in Hk as [[<- Hk]|[? Hk]]; [by simplify_eq|]).
    apply lookup_singleton_Some in Hk as [<- Hk]. by simplify_eq.
Qed.

Lemma wf_users_sample_old : wf_users sample_heap [1%positive].
Proof.
  intros l Hl. apply list_elem_of_singleton in Hl as ->. eexists. split; [reflexivity|]. apply wf_user_sample.
Qed.

Lemma wf_users_sample_new : wf_users sample_heap [2%positive; 3%positive].
Proof.
  intros l [->|Hl]%elem_of_cons; [|apply list_elem_of_singleton in Hl as ->];
    (eexists; split; [reflexivity|]; apply wf_user_sample).
Qed.

Lemma diff_partitions_usernames_witness :
  ∃ h1 cr di ur,
    diffAwsMqBrokerUsers expandStringList_nonempty range_in_key_order "b-1234"
      [1%positive] [2%positive; 3%positive] sample_heap = Ok (h1, (cr, di, ur)) ∧
    NoDup ((cur_Username <$> cr) ++ (uur_Username <$> ur) ++ (dui_Username <$> di)) ∧
    ∀ n,
      (n ∈ cur_Username <$> cr ↔
         n ∈ user_names sample_heap [2%positive; 3%positive] ∧
         n ∉ user_names sample_heap [1%positive]) ∧
      (n ∈ uur_Username <$> ur ↔
         compared sample_heap [1%positive] [2%positive; 3%positive] n false) ∧
      (n ∈ dui_Username <$> di ↔
         n ∈ user_names sample_heap [1%positive] ∧
         n ∉ user_names sample_heap [2%positive; 3%positive]) ∧
      (n ∈ user_names sample_heap [1%positive] ∨
       n ∈ user_names sample_heap [2%positive; 3%positive] →
         ((n ∉ cur_Username <$> cr) ∧ (n ∉ uur_Username <$> ur) ∧
          (n ∉ dui_Username <$> di)
          ↔ compared sample_heap [1%positive] [2%positive; 3%positive] n true)).
Proof.
  apply (diff_partitions_usernames expandStringList_nonempty range_in_key_order "b-1234"
           [1%positive] [2%positive; 3%positive] sample_heap).
  - exact wf_users_sample_old.
  - exact wf_users_sample_new.
  - intros l Hl. apply list_elem_of_singleton in Hl as ->.
    intros [?|?%list_elem_of_singleton]%elem_of_cons; done.
  - apply (bool_decide_unpack _). vm_compute. exact I.
  - apply (bool_decide_unpack _). vm_compute. exact I.
Defined.

(** ** Diffing a collection against a copy of itself *)

Lemma DeepEqual_refl (m : gmap string value) :
  (∀ k s, m !! k ≠ Some (VSet s)) → DeepEqual m m = true.
Proof.
  intros Hm. unfold DeepEqual. rewrite bool_decide_eq_true_2 by done. simpl.
  apply forallb_forall. intros [k v] Hin%list_elem_of_In%elem_of_map_to_list. simpl.
  rewrite Hin. destruct v; simpl; try by apply bool_decide_eq_true_2.
  by destruct (Hm k s).
Qed.

Lemma listed_groups_no_set (m : gmap string value) :
  wf_user m → ∀ k s, listed_groups m !! k ≠ Some (VSet s).
Proof.
  intros (_ & _ & _ & Hg & Hset) k s. unfold listed_groups.
  destruct (m !! "groups") as [v|] eqn:Hgr.
  - destruct (Hg v eq_refl) as [s0 ->].
    destruct (decide (k = "groups")) as [->|Hne].
    + by rewrite lookup_insert_eq.
    + rewrite lookup_insert_ne by done. intros Hk. by apply Hne, (Hset k s).
  - intros Hk. pose proof (Hset k s Hk) as ->. congruence.
Qed.

Lemma fmap_nil_of_no_elem {A B} (f : A → B) (l : list A) :
  (∀ b, b ∉ f <$> l) → l = [].
Proof.
  destruct l as [|a l]; [done|]. intros H. exfalso. apply (H (f a)). rewrite fmap_cons. left.
Qed.



(** ** Order of the group lists *)





(** ** The effect of the diff on its inputs *)

(** The diff leaves the maps of the declared users as they are and writes
    the listed groups into the maps of the observed users. *)
Lemma diff_heap_effect (expandStringList : list string → list string) (ord : RangeOrder)
    (bId : string) (old new : list loc) (h : gmap loc (gmap string value)) :
  wf_users h old → wf_users h new →
  (∀ l, l ∈ old → l ∉ new) →
  NoDup (user_names h old) → NoDup (user_names h new) →
  ∃ h1 r,
    diffAwsMqBrokerUsers expandStringList ord bId old new h = Ok (h1, r) ∧
    (∀ l, l ∉ old → h1 !! l = h !! l) ∧
    (∀ l, l ∈ old → h1 !! l = listed_groups <$> h !! l).
Proof.
  intros Hwfo Hwfn Hsep Hndo Hndn.
  destruct (diff_spec expandStringList ord bId old new h Hwfo Hwfn Hsep Hndo Hndn)
    as (h1 & cr & di & ur & Hrun & Hh1 & _).
  exists h1, (cr, di, ur). split_and!; [done | |].
  - intros l Hl. by rewrite Hh1, decide_False.
  - intros l Hl. by rewrite Hh1, decide_True.
Qed.

(** C7: the diff of the observed alice against no declared user returns
    the deletion of alice and leaves a changed heap: in the map of alice
    the groups entry, a set before the call, is now a list.  A second call
    on the same observed user panics on that entry, and so does a call that
    is given one map as the observed and as the declared user. *)
Theorem diff_writes_into_observed_maps :
  diffAwsMqBrokerUsers expandStringList_nonempty range_in_key_order "b-1234"
    [1%positive] [] sample_heap
    = Ok (heap_after_diff, ([], [delete_named "alice"], [])) ∧
  heap_after_diff ≠ sample_heap ∧
  sample_heap !! 1%positive ≫= (.!! "groups")
    = Some (VSet (flattenStringSet_new ["admin"; "ops"])) ∧
  heap_after_diff !! 1%positive ≫= (.!! "groups")
    = Some (VSlice (Set_List (flattenStringSet_new ["admin"; "ops"]))) ∧
  diffAwsMqBrokerUsers expandStringList_nonempty range_in_key_order "b-1234"
    [1%positive] [] heap_after_diff
    = Panic "interface conversion: interface {} is not *schema.Set" ∧
  diffAwsMqBrokerUsers expandStringList_nonempty range_in_key_order "b-1234"
    [1%positive] [1%positive] sample_heap
    = Panic "interface conversion: interface {} is not *schema.Set".
Proof.
  assert (Hafter : heap_after_diff !! 1%positive ≫= (.!! "groups")
                   = Some (VSlice (Set_List (flattenStringSet_new ["admin"; "ops"])))).
  { vm_cast_no_check
      (eq_refl (Some (VSlice (Set_List (flattenStringSet_new ["admin"; "ops"]))))). }
  assert (Hbefore : sample_heap !! 1%positive ≫= (.!! "groups")
                    = Some (VSet (flattenStringSet_new ["admin"; "ops"]))).
  { vm_cast_no_check (eq_refl (Some (VSet (flattenStringSet_new ["admin"; "ops"])))). }
  split_and!.
  - vm_cast_no_check
      (eq_refl (Ok (heap_after_diff,
                    (@nil CreateUserRequest, [delete_named "alice"],
                     @nil UpdateUserRequest)))).
  - intros Heq. rewrite Heq, Hbefore in Hafter. discriminate Hafter.
  - exact Hbefore.
  - exact Hafter.
  - vm_cast_no_check
      (eq_refl (Panic "interface conversion: interface {} is not *schema.Set" : DiffOutcome)).
  - vm_cast_no_check
      (eq_refl (Panic "interface conversion: interface {} is not *schema.Set" : DiffOutcome)).
Qed.

(** The order of the delete list is the order of the map iteration: two
    calls on equal inputs that meet different orders return different
    lists. *)
Lemma diff_delete_order_follows_range :
  diffAwsMqBrokerUsers expandStringList_nonempty range_in_key_order "b-1234"
    [1%positive; 2%positive] [] twin_heap
    = Ok (left_heap (diffAwsMqBrokerUsers expandStringList_nonempty range_in_key_order
                       "b-1234" [1%positive; 2%positive] [] twin_heap),
          ([], [delete_named "alice"; delete_named "bob"], [])) ∧
  diffAwsMqBrokerUsers expandStringList_nonempty range_in_reverse_order "b-1234"
    [1%positive; 2%positive] [] twin_heap
    = Ok (left_heap (diffAwsMqBrokerUsers expandStringList_nonempty range_in_key_order
                       "b-1234" [1%positive; 2%positive] [] twin_heap),
          ([], [delete_named "bob"; delete_named "alice"], [])).
Proof.
  split.
  - vm_cast_no_check (eq_refl
      (Ok (left_heap (diffAwsMqBrokerUsers expandStringList_nonempty range_in_key_order
                        "b-1234" [1%positive; 2%positive] [] twin_heap),
           (@nil CreateUserRequest, [delete_named "alice"; delete_named "bob"],
            @nil UpdateUserRequest)))).
  - vm_cast_no_check (eq_refl
      (Ok (left_heap (diffAwsMqBrokerUsers expandStringList_nonempty range_in_key_order
                        "b-1234" [1%positive; 2%positive] [] twin_heap),
           (@nil CreateUserRequest, [delete_named "bob"; delete_named "alice"],
            @nil UpdateUserRequest)))).
Qed.

(** The examples of the specification.  Alice observed with groups admin
    and ops and declared with ops and admin, and bob declared: bob is
    created and nothing else. *)
Example diff_example_create_bob :
  diffAwsMqBrokerUsers expandStringList_nonempty range_in_key_order "b-1234"
    [1%positive] [2%positive; 3%positive] example_heap
    = Ok (left_heap (diffAwsMqBrokerUsers expandStringList_nonempty range_in_key_order
                       "b-1234" [1%positive] [2%positive; 3%positive] example_heap),
          ([create_bob], [], [])).
Proof.
  vm_cast_no_check (eq_refl
    (Ok (left_heap (diffAwsMqBrokerUsers expandStringList_nonempty range_in_key_order
                      "b-1234" [1%positive] [2%positive; 3%positive] example_heap),
         ([create_bob], @nil DeleteUserInput, @nil UpdateUserRequest)))).
Qed.

(** Alice and bob observed and alice declared: bob is deleted. *)
Example diff_example_delete_bob :
  diffAwsMqBrokerUsers expandStringList_nonempty range_in_key_order "b-1234"
    [1%positive; 2%positive] [3%positive] twin_heap
    = Ok (left_heap (diffAwsMqBrokerUsers expandStringList_nonempty range_in_key_order
                       "b-1234" [1%positive; 2%positive] [3%positive] twin_heap),
          ([], [delete_named "bob"], [])).
Proof.
  vm_cast_no_check (eq_refl
    (Ok (left_heap (diffAwsMqBrokerUsers expandStringList_nonempty range_in_key_order
                      "b-1234" [1%positive; 2%positive] [3%positive] twin_heap),
         (@nil CreateUserRequest, [delete_named "bob"], @nil UpdateUserRequest)))).
Qed.

Lemma bindM_Ok {W A B} (m : M W A) (k : A → M W B) (s : State W) (r : B * State W) :
  bindM m k s = Ok r ↔ ∃ a s1, m s = Ok (a, s1) ∧ k a s1 = Ok r.
Proof.
  unfold bindM. split.
  - destruct (m s) as [[a s1]|] eqn:Hm; [|done]. intros Hk. by exists a, s1.
  - intros (a & s1 & -> & Hk). done.
Qed.

Lemma logs_only_ret {W A} (P : event → Prop) (a : A) : logs_only P (retM (W := W) a).
Proof. intros s a' s' [= <- <-]. exists []. by rewrite app_nil_r. Qed.

Lemma logs_only_lift {W A} (P : event → Prop) (o : outcome A) : logs_only P (liftM (W := W) o).
Proof.
  intros s a s'. unfold liftM. destruct o; [|done]. intros [= <- <-].
  exists []. by rewrite app_nil_r.
Qed.

Lemma logs_only_bind {W A B} (P : event → Prop) (m : M W A) (k : A → M W B) :
  logs_only P m → (∀ a, logs_only P (k a)) → logs_only P (bindM m k).
Proof.
  intros Hm Hk s b s' (a & s1 & Hma & Hkb)%bindM_Ok.
  destruct (Hm s a s1 Hma) as (evs1 & Ht1 & HP1).
  destruct (Hk a s1 b s' Hkb) as (evs2 & Ht2 & HP2).
  exists (evs1 ++ evs2). split; [by rewrite Ht2, Ht1, app_assoc | by apply Forall_app].
Qed.

Lemma logs_only_call {W A} (P : event → Prop) (run : W → A * W) (ev : A → event) :
  (∀ a, P (ev a)) → logs_only P (log_call run ev).
Proof.
  intros HP s a s'. unfold log_call. destruct (run (world s)) as [a' w]. intros [= <- <-].
  exists [ev a']. split; [done|]. by apply Forall_singleton.
Qed.

Lemma logs_only_new_maps {W} (P : event → Prop) (ms : list (gmap string value)) :
  logs_only (W := W) P (new_maps ms).
Proof.
  induction ms as [|m ms IH]; simpl; [apply logs_only_ret|].
  apply logs_only_bind.
  - intros s a s' [= <- <-]. exists []. by rewrite app_nil_r.
  - intros l. apply logs_only_bind; [done|]. intros ls. apply logs_only_ret.
Qed.

Lemma Forall_loop_result (P : event → Prop) (evs : list event) (plan : list user_call)
    (flag0 flag : bool) (err : option error) :
  (∀ c e, P (call_event c e)) → loop_result evs plan flag0 flag err → Forall P evs.
Proof.
  intros HP. unfold loop_result. destruct err as [e|].
  - intros (ok & failed & rest & _ & -> & _). apply Forall_app. split.
    + apply Forall_fmap, Forall_forall. intros c _. apply HP.
    + apply Forall_singleton, HP.
  - intros [-> _]. apply Forall_fmap, Forall_forall. intros c _. apply HP.
Qed.

(** The run of updateAwsMqBrokerUsers: the events are calls of the user
    API, and when no error is returned the flag tells whether one of them
    succeeded. *)
Lemma updateAwsMqBrokerUsers_events {W} (conn : MQ W)
    (expandStringList : list string → list string) (ord : RangeOrder) (bId : string)
    (oldUsers newUsers : list loc) (s s' : State W) (flag : bool) (err : option error) :
  updateAwsMqBrokerUsers conn expandStringList ord bId oldUsers newUsers s
    = Ok ((flag, err), s') →
  ∃ evs, trace s' = trace s ++ evs ∧
    Forall (λ e, is_Some (user_call_result e)) evs ∧
    (err = None → (flag = true ↔ Exists (λ e, user_call_succeeded e = true) evs)).
Proof.
  unfold updateAwsMqBrokerUsers.
  destruct (diffAwsMqBrokerUsers _ _ _ _ _ _) as [[h' [[createL deleteL] updateL]]|]; [|done].
  destruct (apply_diff_spec conn createL deleteL updateL false
              (MkState h' (world s) (trace s)))
    as (flag1 & err1 & s1 & evs & Hrun & _ & Ht & Hres).
  rewrite Hrun. intros [= <- <- <-]. exists evs. split_and!; [done | |].
  - eapply Forall_loop_result; [|done]. intros [] e; by eexists.
  - intros ->. destruct Hres as [-> ->].
    destruct (diff_plan createL deleteL updateL) as [|c plan]; simpl.
    + split; [done|]. by intros ?%Exists_nil.
    + split; [|done]. intros _. left. by destruct c.
Qed.

Lemma update_security_groups_logs {W} (conn : MQ W)
    (expandStringSet : SchemaSet string → list string) (d : ResourceData) :
  logs_only broker_update_event (update_security_groups conn expandStringSet d).
Proof.
  unfold update_security_groups. destruct (d_HasChange "security_groups" d);
    [|apply logs_only_ret].
  apply logs_only_bind; [by apply logs_only_call|].
  intros [e|]; apply logs_only_ret.
Qed.

Lemma update_configuration_spec {W} (conn : MQ W) (d : ResourceData) (rr : bool) :
  logs_only broker_update_event (update_configuration conn d rr) ∧
  ∀ s rr' s', update_configuration conn d rr s = Ok (inr rr', s') →
    rr' = (if d_HasChanges ["configuration"; "logs"] d then true else rr).
Proof.
  unfold update_configuration. destruct (d_HasChanges _ d).
  - split.
    + apply logs_only_bind; [apply logs_only_lift|]. intros cfg.
      apply logs_only_bind; [apply logs_only_lift|]. intros logs.
      apply logs_only_bind; [by apply logs_only_call|].
      intros [e|]; apply logs_only_ret.
    + intros s rr' s' (cfg & s1 & _ & (logs & s2 & _ & (e & s3 & _ & H)%bindM_Ok)%bindM_Ok)%bindM_Ok.
      destruct e; unfold retM in H; [discriminate H | by injection H as <- <-].
  - split; [apply logs_only_ret|]. by intros s rr' s' [= <- <-].
Qed.

Lemma update_users_spec {W} (conn : MQ W) (expandStringList : list string → list string)
    (ord : RangeOrder) (d : ResourceData) (rr : bool) (s s' : State W) (c : error + bool) :
  update_users conn expandStringList ord d rr s = Ok (c, s') →
  ∃ evs, trace s' = trace s ++ evs ∧
    Forall (λ e, is_Some (user_call_result e)) evs ∧
    ∀ rr', c = inr rr' →
      (rr' = true ↔ rr = true ∨ Exists (λ e, user_call_succeeded e = true) evs).
Proof.
  unfold update_users. destruct (d_HasChange "user" d).
  - unfold d_GetChange.
    intros (oldUsers & s1 & Ho & (newUsers & s2 & Hn & (r & s3 & Hu & Hr)%bindM_Ok)%bindM_Ok)%bindM_Ok.
    destruct (logs_only_new_maps (λ _, False) _ s oldUsers s1 Ho) as (e1 & Ht1 & He1).
    destruct (logs_only_new_maps (λ _, False) _ s1 newUsers s2 Hn) as (e2 & Ht2 & He2).
    assert (e1 = []) as -> by (destruct e1; [done | by apply Forall_cons in He1 as [[] _]]).
    assert (e2 = []) as -> by (destruct e2; [done | by apply Forall_cons in He2 as [[] _]]).
    rewrite app_nil_r in Ht1, Ht2.
    destruct r as [usersUpdated err].
    destruct (updateAwsMqBrokerUsers_events conn expandStringList ord (d_Id d)
                oldUsers newUsers s2 s3 usersUpdated err Hu) as (evs & Ht3 & Hev & Hflag).
    destruct err as [e|].
    + injection Hr as <- <-. exists evs. split_and!; [congruence | done | done].
    + injection Hr as <- <-. exists evs. split_and!; [congruence | done |].
      intros rr' [= <-]. specialize (Hflag eq_refl).
      destruct usersUpdated.
      * split; [|done]. intros _. right. by apply Hflag.
      * split; [by left|]. intros [?|Hex]; [done|]. by apply Hflag in Hex.
  - intros [= <- <-]. exists []. rewrite app_nil_r. split_and!; [done | done |].
    intros rr' [= <-]. split; [by left|]. by intros [?|?%Exists_nil].
Qed.

(** The steps before the reboot test issue no reboot, and when they all
    return without error [requiresReboot] is true exactly when the
    configuration or the logs changed or a call of the user API succeeded. *)
Lemma update_changes_spec {W} (conn : MQ W) (expandStringList : list string → list string)
    (expandStringSet : SchemaSet string → list string) (ord : RangeOrder)
    (d : ResourceData) (s s1 : State W) (c : error + bool) :
  update_changes conn expandStringList expandStringSet ord d s = Ok (c, s1) →
  ∃ evs, trace s1 = trace s ++ evs ∧
    Forall (λ e, is_reboot_call e = false) evs ∧
    ∀ requiresReboot, c = inr requiresReboot →
      (requiresReboot = true ↔
         d_HasChanges ["configuration"; "logs"] d = true ∨
         Exists (λ e, user_call_succeeded e = true) evs).
Proof.
  unfold update_changes. intros (e & sA & Hsg & Hrest)%bindM_Ok.
  destruct (update_security_groups_logs conn expandStringSet d s e sA Hsg)
    as (evsA & HtA & HA).
  assert (HAr : Forall (λ e, is_reboot_call e = false) evsA).
  { eapply Forall_impl; [exact HA|]. by intros ? [? _]. }
  destruct e as [err|].
  { injection Hrest as <- <-. exists evsA. split_and!; try done. }
  apply bindM_Ok in Hrest as (cB & sB & Hcfg & Hrest).
  destruct (update_configuration_spec conn d false) as [HlB HrB].
  destruct (HlB sA cB sB Hcfg) as (evsB & HtB & HB).
  assert (HBr : Forall (λ e, is_reboot_call e = false) evsB).
  { eapply Forall_impl; [exact HB|]. by intros ? [? _]. }
  destruct cB as [err|rrB].
  { injection Hrest as <- <-. exists (evsA ++ evsB). split_and!; try done.
    - by rewrite HtB, HtA, app_assoc.
    - by apply Forall_app. }
  pose proof (HrB sA rrB sB Hcfg) as HrrB.
  destruct (update_users_spec conn expandStringList ord d rrB sB s1 c Hrest)
    as (evsU & HtU & HU & HrrU).
  exists (evsA ++ evsB ++ evsU). split_and!.
  - by rewrite HtU, HtB, HtA, !app_assoc.
  - apply Forall_app. split; [done|]. apply Forall_app. split; [done|].
    eapply Forall_impl; [exact HU|]. intros ev [r Hr]. by destruct ev.
  - intros rr Hc. rewrite (HrrU rr Hc), HrrB.
    assert (Hquiet : ∀ l, Forall broker_update_event l →
              ¬ Exists (λ e, user_call_succeeded e = true) l).
    { intros l Hl Hex. apply Exists_exists in Hex as (ev & Hin & Hev).
      rewrite Forall_forall in Hl. destruct (Hl ev Hin) as [_ Hnone].
      unfold user_call_succeeded in Hev. by rewrite Hnone in Hev. }
    rewrite !Exists_app. split.
    + intros [Hcfgch|Hex]; [left | by right; right; right].
      by destruct (d_HasChanges _ d).
    + intros [Hcfgch|[Hex|[Hex|Hex]]].
      * left. by rewrite Hcfgch.
      * by apply Hquiet in Hex.
      * by apply Hquiet in Hex.
      * by right.
Qed.

Lemma refresh_broker_state_spec {W} (conn : MQ W) (id : string) (s s' : State W)
    (r : error + string) :
  refresh_broker_state conn id s = Ok (r, s') →
  ∃ res, trace s' = trace s ++ [EDescribeBroker id res] ∧
    ∀ st, r = inr st → ∃ out, res = inr out ∧ dbr_BrokerState out = Some st.
Proof.
  unfold refresh_broker_state. intros (res & s1 & Hd & Hr)%bindM_Ok.
  unfold DescribeBroker, log_call in Hd.
  destruct (mq_DescribeBroker conn id (world s)) as [res' w]. injection Hd as <- <-.
  exists res'. destruct res' as [e|out].
  - injection Hr as <- <-. split; [done|]. by intros st.
  - apply bindM_Ok in Hr as (st & s2 & Hst & Hr). injection Hr as <- <-.
    unfold liftM, deref_string in Hst.
    destruct (dbr_BrokerState out) as [st'|] eqn:Hbs; [|done]. injection Hst as <- <-.
    split; [done|]. intros st0 [= <-]. by exists out.
Qed.

(** A wait on the broker state only describes the broker, and when it ends
    with success its last poll saw a target state. *)
Lemma WaitForState_broker {W} (conn : MQ W) (id : string) (pending target : list string)
    (polls : nat) (s s' : State W) (e : option error) :
  WaitForState (refresh_broker_state conn id) pending target polls s = Ok (e, s') →
  ∃ evs, trace s' = trace s ++ evs ∧
    Forall (λ ev, is_describe_broker ev = true) evs ∧
    (e = None → ∃ seen out st,
       evs = seen ++ [EDescribeBroker id (inr out)] ∧
       dbr_BrokerState out = Some st ∧ st ∈ target).
Proof.
  revert s. induction polls as [|n IH]; intros s; cbn [WaitForState].
  - intros [= <- <-]. exists []. rewrite app_nil_r. by split_and!.
  - intros (r & s1 & Hr & Hk)%bindM_Ok.
    destruct (refresh_broker_state_spec conn id s s1 r Hr) as (res & Ht & Hres).
    destruct r as [err|st].
    + injection Hk as <- <-. exists [EDescribeBroker id res].
      split_and!; [done | by apply Forall_singleton | done].
    + destruct (Hres st eq_refl) as (out & -> & Hout).
      case_bool_decide as Htarget.
      * injection Hk as <- <-. exists [EDescribeBroker id (inr out)].
        split_and!; [done | by apply Forall_singleton |].
        intros _. by exists [], out, st.
      * case_bool_decide as Hpending.
        -- destruct (IH s1 Hk) as (evs & Ht' & Hd & Hlast).
           exists (EDescribeBroker id (inr out) :: evs). split_and!.
           ++ rewrite Ht', Ht. by rewrite <- app_assoc.
           ++ by apply Forall_cons.
           ++ intros He. destruct (Hlast He) as (seen & out' & st' & -> & Ho & Hin).
              by exists (EDescribeBroker id (inr out) :: seen), out', st'.
        -- injection Hk as <- <-. exists [EDescribeBroker id (inr out)].
           split_and!; [done | by apply Forall_singleton | done].
Qed.

Lemma update_reboot_spec {W} (conn : MQ W) (polls : nat) (d : ResourceData)
    (requiresReboot : bool) (s s' : State W) (e : option error) :
  update_reboot conn polls d requiresReboot s = Ok (e, s') →
  if attr_bool (d_Get "apply_immediately" d) && requiresReboot then
    ∃ r evs, trace s' = trace s ++ ERebootBroker (d_Id d) r :: evs ∧
      Forall (λ ev, is_describe_broker ev = true) evs ∧
      (e = None → r = None ∧ ∃ seen out,
         evs = seen ++ [EDescribeBroker (d_Id d) (inr out)] ∧
         dbr_BrokerState out = Some mq_BrokerStateRunning)
  else e = None ∧ s' = s.
Proof.
  unfold update_reboot. destruct (attr_bool _ && requiresReboot).
  - intros (r & s1 & Hr & Hk)%bindM_Ok. unfold RebootBroker, log_call in Hr.
    destruct (mq_RebootBroker conn (d_Id d) (world s)) as [r' w]. injection Hr as <- <-.
    exists r'. destruct r' as [err|].
    + injection Hk as <- <-. exists []. by split_and!.
    + destruct (WaitForState_broker conn (d_Id d) _ _ polls _ s' e Hk)
        as (evs & Ht & Hd & Hlast).
      simpl in Ht. exists evs. split_and!; [by rewrite Ht, <- app_assoc | done |].
      intros He. split; [done|]. destruct (Hlast He) as (seen & out & st & -> & Ho & Hin).
      exists seen, out. split; [done|].
      apply list_elem_of_singleton in Hin. by rewrite <- Hin.
  - by intros [= <- <-].
Qed.

Lemma update_tags_logs {W} (conn : MQ W) (d : ResourceData) :
  logs_only (λ e, is_reboot_call e = false ∧ is_describe_broker e = false)
    (update_tags conn d).
Proof.
  unfold update_tags. destruct (d_HasChange "tags" d); [|apply logs_only_ret].
  unfold d_GetChange. apply logs_only_bind; [by apply logs_only_call|].
  intros [e|]; apply logs_only_ret.
Qed.

(** C9, as the code has it: when the security group update, the
    configuration update and the user reconciliation of the cycle have
    returned without error, a RebootBroker call is issued exactly when
    apply_immediately is true and the configuration or the logs changed or a
    call of the user API succeeded; the call is followed by polls of the
    broker, and when the handler then returns no error the last poll saw the
    broker running.  When one of the earlier steps returns an error the
    handler returns that error and issues no reboot. *)
Theorem update_reboots_iff_required {W} (conn : MQ W)
    (expandStringList : list string → list string)
    (expandStringSet : SchemaSet string → list string)
    (polls : nat) (ord : RangeOrder) (d : ResourceData) (s s1 s' : State W)
    (c : error + bool) (res : option error) :
  update_changes conn expandStringList expandStringSet ord d s = Ok (c, s1) →
  resourceAwsMqBrokerUpdate conn expandStringList expandStringSet polls ord d s
    = Ok (res, s') →
  ∃ evs1 evs2,
    trace s1 = trace s ++ evs1 ∧ trace s' = trace s1 ++ evs2 ∧
    match c with
    | inl err =>
        res = Some err ∧ evs2 = [] ∧
        ¬ Exists (λ e, is_reboot_call e = true) (evs1 ++ evs2)
    | inr _ =>
        (Exists (λ e, is_reboot_call e = true) (evs1 ++ evs2) ↔
           attr_bool (d_Get "apply_immediately" d) = true ∧
           (d_HasChanges ["configuration"; "logs"] d = true ∨
            Exists (λ e, user_call_succeeded e = true) evs1)) ∧
        (Exists (λ e, is_reboot_call e = true) (evs1 ++ evs2) → res = None →
           ∃ seen out rest,
             evs2 = ERebootBroker (d_Id d) None :: seen ++
                      EDescribeBroker (d_Id d) (inr out) :: rest ∧
             Forall (λ e, is_describe_broker e = true) seen ∧
             dbr_BrokerState out = Some mq_BrokerStateRunning ∧
             Forall (λ e, is_reboot_call e = false ∧ is_describe_broker e = false) rest)
    end.
Proof.
  intros Hch Hrun.
  destruct (update_changes_spec conn expandStringList expandStringSet ord d s s1 c Hch)
    as (evs1 & Ht1 & Hnr1 & Hrr).
  assert (Hno1 : ¬ Exists (λ e, is_reboot_call e = true) evs1).
  { intros (ev & Hin & Hev)%Exists_exists. rewrite Forall_forall in Hnr1.
    rewrite (Hnr1 ev Hin) in Hev. done. }
  unfold resourceAwsMqBrokerUpdate in Hrun.
  apply bindM_Ok in Hrun as (c' & s1' & Hch' & Hk).
  rewrite Hch in Hch'. injection Hch' as <- <-.
  exists evs1. destruct c as [err|requiresReboot].
  { injection Hk as <- <-. exists []. rewrite !app_nil_r. by split_and!. }
  specialize (Hrr requiresReboot eq_refl).
  apply bindM_Ok in Hk as (e & s2 & Hrb & Hk).
  pose proof (update_reboot_spec conn polls d requiresReboot s1 s2 e Hrb) as Hspec.
  assert (Htags : ∃ evsT, trace s' = trace s2 ++ evsT ∧
            Forall (λ e, is_reboot_call e = false ∧ is_describe_broker e = false) evsT ∧
            (res = None → e = None)).
  { destruct e as [err|].
    - injection Hk as <- <-. exists []. rewrite app_nil_r. by split_and!.
    - destruct (update_tags_logs conn d s2 res s' Hk) as (evsT & HtT & HT).
      exists evsT. by split_and!. }
  destruct Htags as (evsT & HtT & HT & Hres).
  assert (HnoT : ¬ Exists (λ e, is_reboot_call e = true) evsT).
  { intros (ev & Hin & Hev)%Exists_exists. rewrite Forall_forall in HT.
    destruct (HT ev Hin) as [Hf _]. rewrite Hf in Hev. done. }
  destruct (attr_bool (d_Get "apply_immediately" d)) eqn:Happly;
    destruct requiresReboot eqn:Hreq; simpl in Hspec.
  - destruct Hspec as (r & evs & Ht2 & Hdesc & Hlast).
    exists (ERebootBroker (d_Id d) r :: evs ++ evsT). split_and!.
    + done.
    + rewrite HtT, Ht2. by rewrite <- app_assoc.
    + split.
      * intros _. split; [done|]. by apply Hrr.
      * intros _. apply Exists_app. right. by left.
    + intros _ Hnone. destruct (Hlast (Hres Hnone)) as (-> & seen & out & -> & Hout).
      exists seen, out, evsT. split_and!; try done.
      * by rewrite <- app_assoc.
      * apply Forall_app in Hdesc as [? _]. done.
  - destruct Hspec as [-> ->]. exists evsT. split_and!; [done | done | |].
    + split.
      * intros [?|?]%Exists_app; done.
      * intros [_ Hreq']. apply Hrr in Hreq'. done.
    + intros [?|?]%Exists_app; done.
  - destruct Hspec as [-> ->]. exists evsT. split_and!; [done | done | |].
    + split; [|by intros [? _]]. intros [?|?]%Exists_app; done.
    + intros [?|?]%Exists_app; done.
  - destruct Hspec as [-> ->]. exists evsT. split_and!; [done | done | |].
    + split; [|by intros [? _]]. intros [?|?]%Exists_app; done.
    + intros [?|?]%Exists_app; done.
Qed.

Lemma update_reboots_iff_required_witness :
  ∃ evs1 evs2,
    [EUpdateBroker update_configuration_request None] = [] ++ evs1 ∧
    [EUpdateBroker update_configuration_request None;
     ERebootBroker "b-1234" None;
     EDescribeBroker "b-1234" (inr running_broker)]
      = [EUpdateBroker update_configuration_request None] ++ evs2 ∧
    (Exists (λ e, is_reboot_call e = true) (evs1 ++ evs2) ↔
       attr_bool (d_Get "apply_immediately" configuration_changed_broker) = true ∧
       (d_HasChanges ["configuration"; "logs"] configuration_changed_broker = true ∨
        Exists (λ e, user_call_succeeded e = true) evs1)) ∧
    (Exists (λ e, is_reboot_call e = true) (evs1 ++ evs2) → @None error = None →
       ∃ seen out rest,
         evs2 = ERebootBroker (d_Id configuration_changed_broker) None :: seen ++
                  EDescribeBroker (d_Id configuration_changed_broker) (inr out) :: rest ∧
         Forall (λ e, is_describe_broker e = true) seen ∧
         dbr_BrokerState out = Some mq_BrokerStateRunning ∧
         Forall (λ e, is_reboot_call e = false ∧ is_describe_broker e = false) rest).
Proof.
  apply (update_reboots_iff_required (scripted_conn (inr running_broker))
           expandStringList_nonempty expandStringSet_nonempty 3 range_in_key_order
           configuration_changed_broker
           (MkState ∅ [] [])
           (MkState ∅ [] [EUpdateBroker update_configuration_request None])
           (MkState ∅ [] [EUpdateBroker update_configuration_request None;
                          ERebootBroker "b-1234" None;
                          EDescribeBroker "b-1234" (inr running_broker)])
           (inr true) None).
  - vm_cast_no_check
      (eq_refl (Ok (inr true : error + bool,
                    MkState ∅ ([] : list (option error))
                      [EUpdateBroker update_configuration_request None]))).
  - vm_cast_no_check
      (eq_refl (Ok (None : option error,
                    MkState ∅ ([] : list (option error))
                      [EUpdateBroker update_configuration_request None;
                       ERebootBroker "b-1234" None;
                       EDescribeBroker "b-1234" (inr running_broker)]))).
Defined.

(** Against C9 as stated: two users are declared and the broker is to be
    updated immediately.  The first CreateUser succeeds and the second is
    rejected:
    updateAwsMqBrokerUsers reports true with the error, and the handler
    returns the error without a reboot. *)
Lemma update_reboots_iff_required_counterexample :
  attr_bool (d_Get "apply_immediately" users_changed_broker) = true ∧
  match (newUsers <-- new_maps (Set_List (attr_user_set (d_Get "user" users_changed_broker))) ;;
         updateAwsMqBrokerUsers (scripted_conn (inr running_broker))
           expandStringList_nonempty range_in_key_order "b-1234" [] newUsers)
          (MkState ∅ [None; Some rejected] []) with
  | Ok (r, _) => r = (true, Some rejected)
  | Panic _ => False
  end ∧
  match resourceAwsMqBrokerUpdate (scripted_conn (inr running_broker))
          expandStringList_nonempty expandStringSet_nonempty 3 range_in_key_order
          users_changed_broker (MkState ∅ [None; Some rejected] []) with
  | Ok (res, s') =>
      res = Some (WrappedError "error updating MQ Broker (b-1234) user" rejected) ∧
      Exists (λ e, user_call_succeeded e = true) (trace s') ∧
      ¬ Exists (λ e, is_reboot_call e = true) (trace s')
  | Panic _ => False
  end.
Proof.
  split_and!.
  - reflexivity.
  - vm_compute. reflexivity.
  - vm_compute. split_and!.
    + reflexivity.
    + left. reflexivity.
    + intros H. apply Exists_cons in H as [H|H]; [discriminate H|].
      apply Exists_cons in H as [H|H]; [discriminate H|]. by apply Exists_nil in H.
Qed.

(** * Further properties *)

(** ** The requests of the diff *)


(** One step of the second loop, with the request it appends. *)
Lemma diff_new_user_request (expandStringList : list string → list string) (bId : string)
    (h : gmap loc (gmap string value)) (ex : gmap string loc)
    (cr : list CreateUserRequest) (ur : list UpdateUserRequest)
    (nu : loc) (m : gmap string value) (n : string) :
  h !! nu = Some m → wf_user m → user_name m = Some n →
  (∀ eu, ex !! n = Some eu → is_Some (h !! eu)) →
  ∃ crn urn,
    diff_new_user expandStringList bId h (ex, cr, ur) nu
      = Ok (delete n ex, cr ++ crn, ur ++ urn) ∧
    Forall (create_request_of expandStringList bId m) crn ∧
    Forall (update_request_of expandStringList bId m) urn ∧
    (ex !! n = None → crn ≠ []) ∧
    (∀ eu mo, ex !! n = Some eu → h !! eu = Some mo →
       crn = [] ∧ (urn ≠ [] ↔ DeepEqual mo (listed_groups m) = false)).
Proof.
  intros Hnu (_ & [p Hp] & [b Hb] & Hg & _) Hn Hex.
  unfold diff_new_user, deref. rewrite Hnu. unfold_bind. simpl.
  pose proof Hn as Hn'. unfold user_name in Hn'.
  destruct (m !! "username") as [[]|] eqn:Hu; try done. injection Hn' as ->. simpl.
  assert (Hnew : ∃ ng,
    match m !! "groups" with
    | Some g =>
        match assert_set g with
        | Ok s => Ok (Some (Set_List s), <["groups" := VSlice (Set_List s)]> m)
        | Panic msg => Panic msg
        end
    | None => Ok (None, m)
    end = Ok (ng, listed_groups m) ∧ default [] ng = listed_groups_of m).
  { unfold listed_groups, listed_groups_of.
    destruct (m !! "groups") as [v|] eqn:Hgr; [|by eexists].
    destruct (Hg v eq_refl) as [s ->]. by eexists. }
  destruct Hnew as (ng & -> & Hng). rewrite Hng.
  assert (Hca : listed_groups m !! "console_access" = Some (VBool b)).
  { unfold listed_groups. destruct (m !! "groups") as [[]|]; try done.
    by rewrite lookup_insert_ne. }
  assert (Hpw : listed_groups m !! "password" = Some (VString p)).
  { unfold listed_groups. destruct (m !! "groups") as [[]|]; try done.
    by rewrite lookup_insert_ne. }
  rewrite Hca, Hpw. simpl.
  destruct (ex !! n) as [eu|] eqn:Hexn; simpl.
  - destruct (Hex eu eq_refl) as [mo Hmo]. rewrite Hmo. simpl.
    destruct (DeepEqual mo (listed_groups m)) eqn:Hde; simpl.
    + exists [], []. rewrite !app_nil_r. split_and!; try done.
      intros eu' mo' [= <-] Hmo'. rewrite Hmo in Hmo'. injection Hmo' as <-.
      rewrite Hde. by split.
    + eexists [], [_]. rewrite app_nil_r. split_and!; try done.
      * apply Forall_singleton. by split_and!.
      * intros eu' mo' [= <-] Hmo'. rewrite Hmo in Hmo'. injection Hmo' as <-.
        rewrite Hde. by split.
  - eexists [_], []. rewrite delete_id by done. rewrite app_nil_r.
    split_and!; try done.
    apply Forall_singleton. split_and!; try done. simpl.
    destruct (listed_groups_of m); simpl; [done|]. done.
Qed.

(** The second loop without any assumption on the declared names: the
    requests it appends carry the attributes of declared users, and a name
    that is not in the index when its user is met is created. *)
Lemma diff_new_loop_requests (expandStringList : list string → list string) (bId : string)
    (h : gmap loc (gmap string value)) (new : list loc) (ex : gmap string loc)
    (cr : list CreateUserRequest) (ur : list UpdateUserRequest) :
  wf_users h new →
  (∀ n eu, ex !! n = Some eu → is_Some (h !! eu)) →
  ∃ ex' crn urn,
    foldM (diff_new_user expandStringList bId h) (ex, cr, ur) new
      = Ok (ex', cr ++ crn, ur ++ urn) ∧
    (∀ k, ex' !! k = if decide (k ∈ user_names h new) then None else ex !! k) ∧
    Forall (λ c, ∃ ln m, ln ∈ new ∧ h !! ln = Some m ∧
                 create_request_of expandStringList bId m c) crn ∧
    Forall (λ u, ∃ ln m, ln ∈ new ∧ h !! ln = Some m ∧
                 update_request_of expandStringList bId m u) urn ∧
    (∀ n, ex !! n = None → n ∈ user_names h new → n ∈ cur_Username <$> crn).
Proof.
  revert ex cr ur. induction new as [|l0 rest IH]; intros ex cr ur Hwf Hex.
  - exists ex, [], []. rewrite !app_nil_r. by split_and!.
  - destruct (Hwf l0) as (m0 & Hl0 & Hm0); [left|].
    pose proof Hm0 as [[n0 Hn0] _].
    assert (Hname0 : name_at h l0 = Some n0) by (unfold name_at; by rewrite Hl0).
    destruct (diff_new_user_request expandStringList bId h ex cr ur l0 m0 n0)
      as (cr1 & ur1 & Hstep & Hcr1 & Hur1 & Hcreate & _); try done.
    { intros eu. apply Hex. }
    destruct (IH (delete n0 ex) (cr ++ cr1) (ur ++ ur1))
      as (ex' & crn & urn & Hrun & Hex' & Hcrn & Hurn & Hmiss).
    { intros l Hl. apply Hwf. by right. }
    { intros n eu [_ Hn]%lookup_delete_Some. by eapply Hex. }
    exists ex', (cr1 ++ crn), (ur1 ++ urn). split_and!.
    + cbn [foldM]. rewrite Hstep. unfold_bind. by rewrite !app_assoc.
    + intros k. rewrite Hex'. unfold user_names. simpl. rewrite Hname0.
      destruct (decide (k = n0)) as [->|Hne].
      * rewrite (decide_True (P := n0 ∈ n0 :: _)) by left.
        case_decide; [done | apply lookup_delete_eq].
      * rewrite lookup_delete_ne by done.
        destruct (decide (k ∈ omap (name_at h) rest)).
        -- rewrite decide_True; [done | by right].
        -- rewrite decide_False; [done|]. by intros [?|?]%elem_of_cons.
    + apply Forall_app. split.
      * eapply Forall_impl; [exact Hcr1|]. intros c Hc. exists l0, m0.
        split_and!; [left | done | done].
      * eapply Forall_impl; [exact Hcrn|]. intros c (ln & m & Hln & Hm & Hc).
        exists ln, m. split_and!; [by right | done | done].
    + apply Forall_app. split.
      * eapply Forall_impl; [exact Hur1|]. intros u Hu. exists l0, m0.
        split_and!; [left | done | done].
      * eapply Forall_impl; [exact Hurn|]. intros u (ln & m & Hln & Hm & Hu).
        exists ln, m. split_and!; [by right | done | done].
    + intros n Hn Hin. rewrite fmap_app. apply elem_of_app.
      unfold user_names in Hin. simpl in Hin. rewrite Hname0 in Hin.
      destruct (decide (n = n0)) as [->|Hne].
      * left. specialize (Hcreate Hn). destruct cr1 as [|c cr1]; [done|].
        apply Forall_cons in Hcr1 as [(_ & Hc & _) _].
        rewrite Hn0 in Hc. injection Hc as ->. left.
      * right. apply Hmiss.
        -- by rewrite lookup_delete_ne.
        -- by apply elem_of_cons in Hin as [?|?].
Qed.

(** The two loops together, for observed users with unique names and any
    declared users. *)
Lemma diff_requests_spec (expandStringList : list string → list string) (ord : RangeOrder)
    (bId : string) (old new : list loc) (h : gmap loc (gmap string value)) :
  wf_users h old → wf_users h new →
  (∀ l, l ∈ old → l ∉ new) →
  NoDup (user_names h old) →
  ∃ h1 ex1 ex' cr ur,
    foldM diff_old_user (h, ∅) old = Ok (h1, ex1) ∧
    foldM (diff_new_user expandStringList bId h1) (ex1, [], []) new = Ok (ex', cr, ur) ∧
    diffAwsMqBrokerUsers expandStringList ord bId old new h
      = Ok (h1, (cr, (λ username, {| dui_BrokerId := bId; dui_Username := username |})
                       <$> range_keys ord ex', ur)) ∧
    (∀ l, l ∈ new → h1 !! l = h !! l) ∧
    (∀ n, ex1 !! n = None ↔ n ∉ user_names h old) ∧
    (∀ k, ex' !! k = if decide (k ∈ user_names h new) then None else ex1 !! k) ∧
    Forall (λ c, ∃ ln m, ln ∈ new ∧ h !! ln = Some m ∧
                 create_request_of expandStringList bId m c) cr ∧
    Forall (λ u, ∃ ln m, ln ∈ new ∧ h !! ln = Some m ∧
                 update_request_of expandStringList bId m u) ur ∧
    (∀ n, ex1 !! n = None → n ∈ user_names h new → n ∈ cur_Username <$> cr).
Proof.
  intros Hwfo Hwfn Hsep Hndo.
  assert (Hnd : NoDup old).
  { apply (NoDup_omap_total (name_at h)); [|exact Hndo].
    intros l Hl. exact (wf_users_name h old l Hwfo Hl). }
  destruct (diff_old_loop old h ∅ Hwfo Hnd Hndo) as (h1 & ex1 & Hrun1 & Hh1 & Hin & Hout).
  assert (Hnew : ∀ l, l ∈ new → h1 !! l = h !! l).
  { intros l Hl. rewrite Hh1. rewrite decide_False; [done|]. intros Ho. by eapply Hsep. }
  assert (Hnames : user_names h1 new = user_names h new).
  { apply omap_ext_in. intros l Hl. unfold name_at. by rewrite Hnew. }
  assert (Hex1None : ∀ n, ex1 !! n = None ↔ n ∉ user_names h old).
  { intros n. split.
    - intros Hn (l & Hl & Hln)%elem_of_user_names. by rewrite (Hin l n Hl Hln) in Hn.
    - intros Hn. by rewrite (Hout n Hn), lookup_empty. }
  destruct (diff_new_loop_requests expandStringList bId h1 new ex1 [] [])
    as (ex' & cr & ur & Hrun2 & Hex' & Hcr & Hur & Hmiss).
  { intros l Hl. rewrite Hnew by done. by apply Hwfn. }
  { intros n eu Hn. destruct (decide (n ∈ user_names h old)) as [Hno|Hno].
    - apply elem_of_user_names in Hno as (l & Hl & Hln).
      rewrite (Hin l n Hl Hln) in Hn. injection Hn as <-.
      rewrite Hh1, decide_True by done. destruct (Hwfo l Hl) as (m & -> & _). by eexists.
    - by rewrite (Hout n Hno), lookup_empty in Hn. }
  simpl in Hrun2. exists h1, ex1, ex', cr, ur. split_and!; try done.
  - unfold diffAwsMqBrokerUsers. unfold_bind. by rewrite Hrun1, Hrun2.
  - intros k. by rewrite Hex', Hnames.
  - eapply Forall_impl; [exact Hcr|]. intros c (ln & m & Hln & Hm & Hc).
    exists ln, m. split_and!; try done. by rewrite <- Hnew.
  - eapply Forall_impl; [exact Hur|]. intros u (ln & m & Hln & Hm & Hu).
    exists ln, m. split_and!; try done. by rewrite <- Hnew.
  - intros n Hn Hin'. apply Hmiss; [done|]. by rewrite Hnames.
Qed.

(** X1: every create and every update request of the diff carries the
    broker id and the username, password and console access of a declared
    user, with the listed groups of that user (left out of a create request
    when there are none); every delete input carries the broker id and the
    name of an observed user. *)
Theorem diff_requests_carry_declared_attributes
    (expandStringList : list string → list string) (ord : RangeOrder)
    (bId : string) (old new : list loc) (h : gmap loc (gmap string value)) :
  wf_users h old → wf_users h new →
  (∀ l, l ∈ old → l ∉ new) →
  NoDup (user_names h old) →
  ∃ h1 cr di ur,
    diffAwsMqBrokerUsers expandStringList ord bId old new h = Ok (h1, (cr, di, ur)) ∧
    Forall (λ c, ∃ ln m, ln ∈ new ∧ h !! ln = Some m ∧
                 create_request_of expandStringList bId m c) cr ∧
    Forall (λ u, ∃ ln m, ln ∈ new ∧ h !! ln = Some m ∧
                 update_request_of expandStringList bId m u) ur ∧
    Forall (λ x, dui_BrokerId x = bId ∧ dui_Username x ∈ user_names h old) di.
Proof.
  intros Hwfo Hwfn Hsep Hndo.
  destruct (diff_requests_spec expandStringList ord bId old new h Hwfo Hwfn Hsep Hndo)
    as (h1 & ex1 & ex' & cr & ur & _ & _ & Hrun & _ & Hex1 & Hex' & Hcr & Hur & _).
  eexists h1, cr, _, ur. split_and!; try done.
  apply Forall_fmap, Forall_forall. intros n Hn. simpl. split; [done|].
  rewrite (range_keys_perm ord ex') in Hn.
  apply list_elem_of_fmap in Hn as ([k eu] & -> & Hk%elem_of_map_to_list). simpl.
  rewrite Hex' in Hk. case_decide; [done|].
  destruct (decide (k ∈ user_names h old)); [done|].
  apply Hex1 in n. by rewrite n in Hk.
Qed.

Lemma diff_requests_carry_declared_attributes_witness :
  ∃ h1 cr di ur,
    diffAwsMqBrokerUsers expandStringList_nonempty range_in_key_order "b-1234"
      [1%positive] [2%positive; 3%positive] sample_heap = Ok (h1, (cr, di, ur)) ∧
    Forall (λ c, ∃ ln m, ln ∈ [2%positive; 3%positive] ∧ sample_heap !! ln = Some m ∧
                 create_request_of expandStringList_nonempty "b-1234" m c) cr ∧
    Forall (λ u, ∃ ln m, ln ∈ [2%positive; 3%positive] ∧ sample_heap !! ln = Some m ∧
                 update_request_of expandStringList_nonempty "b-1234" m u) ur ∧
    Forall (λ x, dui_BrokerId x = "b-1234" ∧
                 dui_Username x ∈ user_names sample_heap [1%positive]) di.
Proof.
  apply (diff_requests_carry_declared_attributes expandStringList_nonempty
           range_in_key_order "b-1234" [1%positive] [2%positive; 3%positive] sample_heap).
  - exact wf_users_sample_old.
  - exact wf_users_sample_new.
  - intros l Hl. apply list_elem_of_singleton in Hl as ->.
    intros [?|?%list_elem_of_singleton]%elem_of_cons; done.
  - apply (bool_decide_unpack _). vm_compute. exact I.
Defined.


Lemma wf_users_nil (h : gmap loc (gmap string value)) : wf_users h [].
Proof. by intros l ?%elem_of_nil. Qed.

Lemma wf_users_cons (h : gmap loc (gmap string value)) (l : loc) (ls : list loc)
    (m : gmap string value) :
  h !! l = Some m → wf_user m → wf_users h ls → wf_users h (l :: ls).
Proof. intros Hl Hm Hls l' [->|?]%elem_of_cons; [by exists m | by apply Hls]. Qed.


Lemma omap_create_verdict (h : gmap loc (gmap string value)) (ex : gmap string loc)
    (P : string → Prop) `{!∀ n, Decision (P n)} (new : list loc) :
  (∀ n, ex !! n = None ↔ P n) →
  omap (create_verdict h ex) new = filter P (user_names h new).
Proof.
  intros HP. unfold user_names. induction new as [|l new IH]; [done|].
  change (omap (create_verdict h ex) (l :: new))
    with (match create_verdict h ex l with
          | Some y => y :: omap (create_verdict h ex) new
          | None => omap (create_verdict h ex) new
          end).
  change (omap (name_at h) (l :: new))
    with (match name_at h l with
          | Some y => y :: omap (name_at h) new
          | None => omap (name_at h) new
          end).
  unfold create_verdict at 1.
  destruct (name_at h l) as [n|]; simpl; [|exact IH].
  destruct (ex !! n) eqn:Hn.
  - rewrite filter_cons_False; [exact IH|]. intros HPn%HP. congruence.
  - rewrite filter_cons_True by by apply HP. by rewrite IH.
Qed.

Lemma omap_sublist {A B} (f g : A → option B) (l : list A) :
  (∀ x y, f x = Some y → g x = Some y) → omap f l `sublist_of` omap g l.
Proof.
  intros Hfg. induction l as [|x l IH]; simpl; [done|].
  destruct (f x) as [y|] eqn:Hf.
  - rewrite (Hfg x y Hf). by apply sublist_skip.
  - destruct (g x); [by apply sublist_cons | done].
Qed.

(** X3: with unique usernames on both sides, the create requests come in
    the order in which the users are declared, one for each declared name
    that is not observed, and the update requests follow the order of
    declaration as well. *)
Theorem diff_requests_in_declaration_order
    (expandStringList : list string → list string) (ord : RangeOrder)
    (bId : string) (old new : list loc) (h : gmap loc (gmap string value)) :
  wf_users h old → wf_users h new →
  (∀ l, l ∈ old → l ∉ new) →
  NoDup (user_names h old) → NoDup (user_names h new) →
  ∃ h1 cr di ur,
    diffAwsMqBrokerUsers expandStringList ord bId old new h = Ok (h1, (cr, di, ur)) ∧
    cur_Username <$> cr = filter (λ n, n ∉ user_names h old) (user_names h new) ∧
    (uur_Username <$> ur) `sublist_of` user_names h new.
Proof.
  intros Hwfo Hwfn Hsep Hndo Hndn.
  destruct (diff_requests_spec expandStringList ord bId old new h Hwfo Hwfn Hsep Hndo)
    as (h1 & ex1 & ex' & cr & ur & Hrun1 & Hrun2 & Hrun & Hnew & Hex1 & _).
  assert (Hnames : user_names h1 new = user_names h new).
  { apply omap_ext_in. intros l Hl. unfold name_at. by rewrite Hnew. }
  destruct (diff_new_loop expandStringList bId h1 new ex1 [] [])
    as (ex2 & cr2 & ur2 & Hrun2' & _ & Hcr & Hur).
  { intros l Hl. rewrite Hnew by done. by apply Hwfn. }
  { by rewrite Hnames. }
  { destruct (diff_old_loop old h ∅ Hwfo) as (h1' & ex1' & Hrun1' & Hh1 & Hin & Hout);
      try done.
    { apply (NoDup_omap_total (name_at h)); [|exact Hndo].
      intros l Hl. exact (wf_users_name h old l Hwfo Hl). }
    rewrite Hrun1 in Hrun1'. injection Hrun1' as <- <-.
    intros k eu Hk. destruct (decide (k ∈ user_names h old)) as [Hko|Hko].
    - apply elem_of_user_names in Hko as (l & Hl & Hln).
      rewrite (Hin l k Hl Hln) in Hk. injection Hk as <-.
      rewrite Hh1, decide_True by done. destruct (Hwfo l Hl) as (m & -> & _). by eexists.
    - by rewrite (Hout k Hko), lookup_empty in Hk. }
  rewrite Hrun2 in Hrun2'. injection Hrun2' as <- <- <-. simpl in Hcr, Hur.
  eexists h1, cr, _, ur. split_and!; [exact Hrun | |].
  - rewrite Hcr, <- Hnames. by apply omap_create_verdict.
  - rewrite Hur, <- Hnames. apply omap_sublist.
    intros l n. unfold update_verdict, name_at. destruct (h1 !! l) as [m|]; [|done]. simpl.
    destruct (user_name m) as [k|]; [|done]. simpl.
    destruct (ex1 !! k) as [eu|]; [|done]. simpl.
    destruct (h1 !! eu) as [mo|]; [|done]. simpl. by destruct (DeepEqual _ _).
Qed.

Lemma diff_requests_in_declaration_order_witness :
  ∃ h1 cr di ur,
    diffAwsMqBrokerUsers expandStringList_nonempty range_in_key_order "b-1234"
      [1%positive] [3%positive; 2%positive] sample_heap = Ok (h1, (cr, di, ur)) ∧
    cur_Username <$> cr
      = filter (λ n, n ∉ user_names sample_heap [1%positive])
          (user_names sample_heap [3%positive; 2%positive]) ∧
    (uur_Username <$> ur) `sublist_of` user_names sample_heap [3%positive; 2%positive].
Proof.
  apply (diff_requests_in_declaration_order expandStringList_nonempty range_in_key_order
           "b-1234" [1%positive] [3%positive; 2%positive] sample_heap).
  - exact wf_users_sample_old.
  - repeat (eapply wf_users_cons; [reflexivity | apply wf_user_sample |]).
    apply wf_users_nil.
  - intros l Hl. apply list_elem_of_singleton in Hl as ->.
    rewrite !elem_of_cons, elem_of_nil. intros [?|[?|[]]]; done.
  - apply (bool_decide_unpack _). vm_compute. exact I.
  - apply (bool_decide_unpack _). vm_compute. exact I.
Defined.

(** ** What the diff needs to return *)

Lemma diffable_listed_groups (m : gmap string value) :
  diffable (listed_groups m) → diffable m ∧ m !! "groups" = None.
Proof.
  intros [Hu Hgr]. unfold listed_groups in Hu, Hgr.
  destruct (m !! "groups") as [v|] eqn:Hg.
  - exfalso. destruct v.
    1-3, 5: rewrite Hg in Hgr; by destruct Hgr as [?|[? ?]].
    rewrite lookup_insert_eq in Hgr. by destruct Hgr as [?|[? ?]].
  - split; [|done]. split; [done | by left].
Qed.

Lemma listed_groups_None (m : gmap string value) :
  m !! "groups" = None → listed_groups m = m.
Proof. unfold listed_groups. by intros ->. Qed.

Lemma diff_old_user_inv (h h' : gmap loc (gmap string value)) (ex ex' : gmap string loc)
    (l : loc) :
  diff_old_user (h, ex) l = Ok (h', ex') →
  ∃ m, h !! l = Some m ∧ diffable m ∧ h' = <[l := listed_groups m]> h.
Proof.
  unfold diff_old_user, deref. destruct (h !! l) as [m|] eqn:Hl; [|done].
  unfold_bind. simpl.
  destruct (m !! "username") as [[n| | | |]|] eqn:Hu; try done. simpl.
  unfold listed_groups.
  destruct (m !! "groups") as [[| | |s|]|] eqn:Hg; try done; simpl.
  - intros [= <- <-]. exists m. split_and!; [done | | by rewrite Hg].
    split; [by exists n | right; by exists s].
  - intros [= <- <-]. exists m. split_and!; [done | | by rewrite Hg, insert_id].
    split; [by exists n | by left].
Qed.

Lemma diff_old_loop_inv (old : list loc) (h h1 : gmap loc (gmap string value))
    (ex ex1 : gmap string loc) :
  foldM diff_old_user (h, ex) old = Ok (h1, ex1) →
  (∀ l, l ∈ old → ∃ m, h !! l = Some m ∧ diffable m) ∧
  (∀ l, h1 !! l = if decide (l ∈ old) then listed_groups <$> h !! l else h !! l) ∧
  (∀ pre post l m, old = pre ++ l :: post → l ∈ post → h !! l = Some m →
     m !! "groups" = None).
Proof.
  revert h ex. induction old as [|l0 rest IH]; intros h ex; cbn [foldM].
  - intros [= <- <-]. split_and!.
    + by intros l ?%elem_of_nil.
    + done.
    + intros [|??] ???; done.
  - unfold_bind. destruct (diff_old_user (h, ex) l0) as [[h' ex']|] eqn:Hstep; [|done].
    intros Hrun. destruct (diff_old_user_inv h h' ex ex' l0 Hstep) as (m0 & Hl0 & Hd0 & ->).
    destruct (IH _ _ Hrun) as (Hall & Hh1 & Hdup).
    assert (Hagain : l0 ∈ rest → m0 !! "groups" = None ∧ listed_groups m0 = m0).
    { intros Hin. destruct (Hall l0 Hin) as (m' & Hm' & Hd').
      rewrite lookup_insert_eq in Hm'. injection Hm' as <-.
      apply diffable_listed_groups in Hd' as [_ Hnone].
      split; [done | by apply listed_groups_None]. }
    split_and!.
    + intros l [->|Hl]%elem_of_cons; [by exists m0|].
      destruct (decide (l = l0)) as [->|Hne]; [by exists m0|].
      destruct (Hall l Hl) as (m & Hm & Hd). rewrite lookup_insert_ne in Hm by done.
      by exists m.
    + intros l. rewrite Hh1. destruct (decide (l = l0)) as [->|Hne].
      * rewrite (decide_True (P := l0 ∈ l0 :: rest)) by left.
        rewrite lookup_insert_eq, Hl0. simpl. case_decide as Hin; [|done].
        destruct (Hagain Hin) as [_ Heq]. by rewrite !Heq.
      * rewrite lookup_insert_ne by done.
        destruct (decide (l ∈ rest)).
        -- rewrite decide_True; [done | by right].
        -- rewrite decide_False; [done|]. by intros [?|?]%elem_of_cons.
    + intros pre post l m Hold Hl Hm. destruct pre as [|p pre]; simpl in Hold.
      * injection Hold as <- <-. rewrite Hl0 in Hm. injection Hm as <-.
        by destruct (Hagain Hl).
      * injection Hold as <- ->.
        destruct (decide (l = l0)) as [->|Hne].
        -- rewrite Hl0 in Hm. injection Hm as <-.
           apply Hagain. apply elem_of_app. right. left.
        -- apply (Hdup pre post l m eq_refl Hl). by rewrite lookup_insert_ne.
Qed.

Lemma diff_new_loop_inv (expandStringList : list string → list string) (bId : string)
    (h : gmap loc (gmap string value)) (new : list loc)
    (st st' : gmap string loc * list CreateUserRequest * list UpdateUserRequest) :
  foldM (diff_new_user expandStringList bId h) st new = Ok st' →
  ∀ l, l ∈ new → ∃ m, h !! l = Some m ∧ diffable m.
Proof.
  revert st. induction new as [|l0 rest IH]; intros st; cbn [foldM].
  - by intros _ l ?%elem_of_nil.
  - unfold_bind.
    destruct (diff_new_user expandStringList bId h st l0) as [st1|] eqn:Hstep; [|done].
    intros Hrun l [->|Hl]%elem_of_cons; [|by eapply IH].
    clear Hrun IH. destruct st as [[ex cr] ur].
    unfold diff_new_user, deref in Hstep. destruct (h !! l0) as [m|] eqn:Hl; [|done].
    unfold_bind. simpl in Hstep.
    destruct (m !! "username") as [[n| | | |]|] eqn:Hu; try done.
    exists m. split; [done|]. split; [by exists n|].
    destruct (m !! "groups") as [[| | |s|]|] eqn:Hg; try done; [right; by exists s | by left].
Qed.

(** X4: the diff returns only when every observed and every declared user
    is a map with a string username whose groups, when present, are a set.
    A map that has groups and that is passed both as an observed and as a
    declared user, or twice as an observed user, makes the diff panic. *)
Theorem diff_returns_only_on_separate_maps
    (expandStringList : list string → list string) (ord : RangeOrder)
    (bId : string) (old new : list loc) (h : gmap loc (gmap string value))
    (r : gmap loc (gmap string value) *
         (list CreateUserRequest * list DeleteUserInput * list UpdateUserRequest)) :
  diffAwsMqBrokerUsers expandStringList ord bId old new h = Ok r →
  (∀ l, l ∈ old ++ new → ∃ m, h !! l = Some m ∧ diffable m) ∧
  (∀ l m, l ∈ old → l ∈ new → h !! l = Some m → m !! "groups" = None) ∧
  (∀ pre post l m, old = pre ++ l :: post → l ∈ post → h !! l = Some m →
     m !! "groups" = None).
Proof.
  unfold diffAwsMqBrokerUsers. unfold_bind.
  destruct (foldM diff_old_user (h, ∅) old) as [[h1 ex1]|] eqn:Hrun1; [|done].
  destruct (foldM (diff_new_user expandStringList bId h1) (ex1, [], []) new)
    as [st'|] eqn:Hrun2; [|done].
  intros _. destruct (diff_old_loop_inv old h h1 ∅ ex1 Hrun1) as (Hold & Hh1 & Hdup).
  pose proof (diff_new_loop_inv expandStringList bId h1 new _ _ Hrun2) as Hnew.
  assert (Hboth : ∀ l m, l ∈ old → l ∈ new → h !! l = Some m → m !! "groups" = None).
  { intros l m Hlo Hln Hm. destruct (Hnew l Hln) as (m' & Hm' & Hd').
    rewrite Hh1, decide_True, Hm in Hm' by done. injection Hm' as <-.
    by apply diffable_listed_groups in Hd' as [_ ?]. }
  split_and!; [|done|done].
  intros l [Hl|Hl]%elem_of_app; [by apply Hold|].
  destruct (Hnew l Hl) as (m' & Hm' & Hd'). rewrite Hh1 in Hm'.
  case_decide as Hlo; [|by exists m'].
  destruct (Hold l Hlo) as (m & Hm & Hd). by exists m.
Qed.

Lemma diff_returns_only_on_separate_maps_witness :
  (∀ l, l ∈ [1%positive] ++ [2%positive; 3%positive] →
     ∃ m, plain_heap !! l = Some m ∧ diffable m) ∧
  (∀ l m, l ∈ [1%positive] → l ∈ [2%positive; 3%positive] → plain_heap !! l = Some m →
     m !! "groups" = None) ∧
  (∀ pre post l m, [1%positive] = pre ++ l :: post → l ∈ post → plain_heap !! l = Some m →
     m !! "groups" = None).
Proof.
  apply (diff_returns_only_on_separate_maps expandStringList_nonempty range_in_key_order
           "b-1234" [1%positive] [2%positive; 3%positive] plain_heap
           (plain_heap, ([create_bob], [], [update_alice]))).
  vm_cast_no_check (eq_refl (Ok (plain_heap, ([create_bob], @nil DeleteUserInput, [update_alice])))).
Defined.

(** ** The order of the map iteration *)



(** ** The frame of the diff *)

(** X6: a diff that returns changes nothing but the groups entry of the
    observed users' maps: it allocates and frees no map, leaves every map
    that is not an observed user's as it is, and in an observed user's map
    every key other than groups keeps its value. *)
Theorem diff_changes_only_observed_groups (expandStringList : list string → list string)
    (ord : RangeOrder) (bId : string) (old new : list loc)
    (h h1 : gmap loc (gmap string value)) r (l : loc) :
  wf_users h old → wf_users h new →
  (∀ l, l ∈ old → l ∉ new) →
  NoDup (user_names h old) → NoDup (user_names h new) →
  diffAwsMqBrokerUsers expandStringList ord bId old new h = Ok (h1, r) →
  (is_Some (h1 !! l) ↔ is_Some (h !! l)) ∧
  (l ∉ old → h1 !! l = h !! l) ∧
  (∀ k, k ≠ "groups" → h1 !! l ≫= (.!! k) = h !! l ≫= (.!! k)).
Proof.
  intros Hwfo Hwfn Hsep Hndo Hndn Hrun.
  destruct (diff_spec expandStringList ord bId old new h Hwfo Hwfn Hsep Hndo Hndn)
    as (h1' & cr & di & ur & Hrun' & Hh1 & _).
  rewrite Hrun' in Hrun. injection Hrun as <- _.
  rewrite Hh1. destruct (decide (l ∈ old)) as [Hin|Hout]; [|done].
  split_and!; [by rewrite fmap_is_Some | done |].
  intros k Hk. destruct (h !! l) as [m|]; [simpl|done].
  unfold listed_groups. destruct (m !! "groups") as [[| | |s|]|]; try done.
  by rewrite lookup_insert_ne.
Qed.

Lemma diff_changes_only_observed_groups_witness :
  (is_Some (heap_after_diff !! 1%positive) ↔ is_Some (sample_heap !! 1%positive)) ∧
  (1%positive ∉ [1%positive] → heap_after_diff !! 1%positive = sample_heap !! 1%positive) ∧
  (∀ k, k ≠ "groups" →
        heap_after_diff !! 1%positive ≫= (.!! k) = sample_heap !! 1%positive ≫= (.!! k)).
Proof.
  apply (diff_changes_only_observed_groups expandStringList_nonempty range_in_key_order
           "b-1234" [1%positive] [] sample_heap heap_after_diff
           ([], [delete_named "alice"], [])).
  - exact wf_users_sample_old.
  - apply wf_users_nil.
  - intros l _ Hl. by apply elem_of_nil in Hl.
  - apply (bool_decide_unpack _). vm_compute. exact I.
  - apply NoDup_nil_2.
  - vm_cast_no_check
      (eq_refl (Ok (heap_after_diff,
                    (@nil CreateUserRequest, [delete_named "alice"],
                     @nil UpdateUserRequest)))).
Defined.

(** ** An update that changes nothing *)

(** The diff of a collection against a copy of it, with the heap it
    leaves. *)
Lemma diff_of_copy_spec (expandStringList : list string → list string)
    (ord : RangeOrder) (bId : string) (old new : list loc)
    (h : gmap loc (gmap string value)) :
  wf_users h old → wf_users h new →
  (∀ l, l ∈ old → l ∉ new) →
  NoDup (user_names h old) → NoDup (user_names h new) →
  (∀ lo, lo ∈ old → ∃ ln, ln ∈ new ∧ h !! ln = h !! lo) →
  (∀ ln, ln ∈ new → ∃ lo, lo ∈ old ∧ h !! lo = h !! ln) →
  ∃ h1, diffAwsMqBrokerUsers expandStringList ord bId old new h = Ok (h1, ([], [], [])).
Proof.
  intros Hwfo Hwfn Hsep Hndo Hndn Hon Hno.
  destruct (diff_spec expandStringList ord bId old new h Hwfo Hwfn Hsep Hndo Hndn)
    as (h1 & cr & di & ur & Hrun & _ & _ & Hcr & Hdi & Hur).
  assert (Hnames : ∀ n, n ∈ user_names h old ↔ n ∈ user_names h new).
  { intros n. rewrite !elem_of_user_names. unfold name_at. split.
    - intros (lo & Hlo & Hn). destruct (Hon lo Hlo) as (ln & Hln & Heq).
      exists ln. by rewrite Heq.
    - intros (ln & Hln & Hn). destruct (Hno ln Hln) as (lo & Hlo & Heq).
      exists lo. by rewrite Heq. }
  assert (cr = []) as ->.
  { apply (fmap_nil_of_no_elem cur_Username). intros n [Hn Ho]%Hcr. by apply Ho, Hnames. }
  assert (di = []) as ->.
  { apply (fmap_nil_of_no_elem dui_Username). intros n [Ho Hn]%Hdi. by apply Hn, Hnames. }
  assert (ur = []) as ->.
  { apply (fmap_nil_of_no_elem uur_Username).
    intros n (lo & ln & mo & mn & Hlo & Hln & Hmo & Hmn & Hno' & Hnn & Hde)%Hur.
    destruct (Hno ln Hln) as (lo' & Hlo' & Heq).
    assert (lo' = lo) as ->.
    { apply (NoDup_omap_inj (name_at h) old lo' lo n Hndo); try done;
        unfold name_at; [by rewrite Heq, Hmn | by rewrite Hmo]. }
    assert (mo = mn) as -> by congruence.
    rewrite DeepEqual_refl in Hde; [done|].
    apply listed_groups_no_set. destruct (Hwfn ln Hln) as (m & Hm & Hwf). congruence. }
  by exists h1.
Qed.

(** X7: when the declared users are a copy of the observed users,
    updateAwsMqBrokerUsers issues no call, leaves the remote side as it is
    and returns false with no error. *)
Theorem updateAwsMqBrokerUsers_copy_makes_no_call {W} (conn : MQ W)
    (expandStringList : list string → list string) (ord : RangeOrder) (bId : string)
    (old new : list loc) (s : State W) :
  wf_users (heap s) old → wf_users (heap s) new →
  (∀ l, l ∈ old → l ∉ new) →
  NoDup (user_names (heap s) old) → NoDup (user_names (heap s) new) →
  (∀ lo, lo ∈ old → ∃ ln, ln ∈ new ∧ heap s !! ln = heap s !! lo) →
  (∀ ln, ln ∈ new → ∃ lo, lo ∈ old ∧ heap s !! lo = heap s !! ln) →
  ∃ h1, updateAwsMqBrokerUsers conn expandStringList ord bId old new s
        = Ok ((false, None), MkState h1 (world s) (trace s)).
Proof.
  intros Hwfo Hwfn Hsep Hndo Hndn Hon Hno.
  destruct (diff_of_copy_spec expandStringList ord bId old new (heap s)
              Hwfo Hwfn Hsep Hndo Hndn Hon Hno) as (h1 & Hdiff).
  exists h1. unfold updateAwsMqBrokerUsers. by rewrite Hdiff.
Qed.

Lemma updateAwsMqBrokerUsers_copy_makes_no_call_witness :
  ∃ h1, updateAwsMqBrokerUsers (scripted_conn (inl rejected)) expandStringList_nonempty
          range_in_key_order "b-1234" [1%positive; 2%positive] [4%positive; 3%positive]
          (MkState twin_heap [Some rejected] [])
        = Ok ((false, None), MkState h1 [Some rejected] []).
Proof.
  apply (updateAwsMqBrokerUsers_copy_makes_no_call (scripted_conn (inl rejected))
           expandStringList_nonempty range_in_key_order "b-1234"
           [1%positive; 2%positive] [4%positive; 3%positive]
           (MkState twin_heap [Some rejected] [])).
  - repeat (eapply wf_users_cons; [reflexivity | apply wf_user_sample |]).
    apply wf_users_nil.
  - repeat (eapply wf_users_cons; [reflexivity | apply wf_user_sample |]).
    apply wf_users_nil.
  - intros l. rewrite !elem_of_cons, !elem_of_nil.
    intros [->|[->|[]]] [?|[?|[]]]; done.
  - apply (bool_decide_unpack _). vm_compute. exact I.
  - apply (bool_decide_unpack _). vm_compute. exact I.
  - intros l. rewrite !elem_of_cons, !elem_of_nil. intros [->|[->|[]]].
    + exists 3%positive. split; [by right; left | reflexivity].
    + exists 4%positive. split; [by left | reflexivity].
  - intros l. rewrite !elem_of_cons, !elem_of_nil. intros [->|[->|[]]].
    + exists 2%positive. split; [by right; left | reflexivity].
    + exists 1%positive. split; [by left | reflexivity].
Defined.

(** ** The users of a read *)

(** The first loop of flattenMqUsers returns on configured users, and
    every pair it holds comes from one of them. *)
Lemma existingPairs_of_total (cfgUsers : list (gmap string value)) :
  Forall configured_user cfgUsers →
  ∃ ep, existingPairs_of cfgUsers = Ok ep ∧
        ∀ n p, ep !! n = Some p →
               ∃ c, c ∈ cfgUsers ∧ c !! "username" = Some (VString n) ∧
                    c !! "password" = Some (VString p).
Proof.
  intros Hcfg. unfold existingPairs_of.
  apply (foldM_invariant
           (λ ep : gmap string string, ∀ n p, ep !! n = Some p →
              ∃ c, c ∈ cfgUsers ∧ c !! "username" = Some (VString n) ∧
                   c !! "password" = Some (VString p))).
  - intros n p. by rewrite lookup_empty.
  - intros ep c Hc Hinv. rewrite Forall_forall in Hcfg.
    destruct (Hcfg c Hc) as (n & p & Hn & Hp). unfold_bind. rewrite Hn, Hp. simpl.
    eexists; split; [done|]. intros n' p'. rewrite lookup_insert. case_decide.
    + intros [= <-]. subst n'. by exists c.
    + apply Hinv.
Qed.

(** The hash function accepts a map whose four keys have their types. *)
Lemma resourceAwsMqUserHash_typed (m : gmap string value) (name : string) :
  m !! "username" = Some (VString name) →
  (m !! "password" = None ∨ ∃ p, m !! "password" = Some (VString p)) →
  (m !! "console_access" = None ∨ ∃ b, m !! "console_access" = Some (VBool b)) →
  (m !! "groups" = None ∨ ∃ s, m !! "groups" = Some (VSet s)) →
  ∃ code, resourceAwsMqUserHash m = Ok code.
Proof.
  intros Hu Hp Hc Hg. unfold resourceAwsMqUserHash. unfold_bind.
  destruct Hc as [-> | [b ->]], Hg as [-> | [s ->]], Hp as [-> | [p ->]];
    rewrite Hu; simpl; eexists; reflexivity.
Qed.

(** One user of the second loop. *)
Lemma flatten_user_mirrors (flattenStringSet : list string → SchemaSet string)
    (cfgUsers : list (gmap string value)) (ep : gmap string string) (u : User) :
  (∀ n p, ep !! n = Some p →
          ∃ c, c ∈ cfgUsers ∧ c !! "username" = Some (VString n) ∧
               c !! "password" = Some (VString p)) →
  is_Some (User_Username u) →
  ∃ m, flatten_user flattenStringSet ep u = Ok m ∧
       mirrors_remote_user flattenStringSet cfgUsers u m.
Proof.
  intros Hep [name Hname]. unfold flatten_user, mirrors_remote_user.
  rewrite Hname. simpl. eexists; split; [done|].
  assert (Hpw : match ep !! name with Some p => p | None => "" end = "" ∨
                ∃ p c, match ep !! name with Some p => p | None => "" end = p ∧ p ≠ "" ∧
                       c ∈ cfgUsers ∧ c !! "username" = Some (VString name) ∧
                       c !! "password" = Some (VString p)).
  { destruct (ep !! name) as [p|] eqn:Hp; [|by left].
    destruct (decide (p = "")) as [->|Hne]; [by left|].
    destruct (Hep name p Hp) as (c & Hc & Hcn & Hcp). right. by exists p, c. }
  destruct (User_ConsoleAccess u) as [ca|], (User_Groups u) as [|g gs]; simpl.
  all: destruct Hpw as [-> | (p & c & -> & Hne & Hc & Hcn & Hcp)];
    [ rewrite bool_decide_eq_false_2 by (by intros []) 
    | rewrite bool_decide_eq_true_2 by done ].
  all: split_and!; try by simplify_map_eq.
  all: try (intros k Hk; repeat (apply not_elem_of_cons in Hk as [? Hk]);
            by simplify_map_eq).
  all: try (by left).
  all: right; exists p, c; split_and!; try done; by simplify_map_eq.
Qed.

Lemma mirrors_remote_user_hash (flattenStringSet : list string → SchemaSet string)
    (cfgUsers : list (gmap string value)) (u : User) (m : gmap string value) :
  is_Some (User_Username u) →
  mirrors_remote_user flattenStringSet cfgUsers u m →
  ∃ code, resourceAwsMqUserHash m = Ok code.
Proof.
  intros [name Hname] (Hu & Hc & Hg & _ & Hp). rewrite Hname in Hu.
  apply (resourceAwsMqUserHash_typed m name Hu).
  - destruct Hp as [?|(p & c & _ & ? & _)]; eauto.
  - destruct (User_ConsoleAccess u); eauto.
  - destruct (User_Groups u); eauto.
Qed.

(** The second loop. *)
Lemma flatten_loop_mirrors (flattenStringSet : list string → SchemaSet string)
    (cfgUsers : list (gmap string value)) (ep : gmap string string)
    (users done : list User) (acc : list (gmap string value)) :
  (∀ n p, ep !! n = Some p →
          ∃ c, c ∈ cfgUsers ∧ c !! "username" = Some (VString n) ∧
               c !! "password" = Some (VString p)) →
  Forall (λ u, is_Some (User_Username u)) users →
  Forall2 (mirrors_remote_user flattenStringSet cfgUsers) done acc →
  ∃ out, foldM (λ out u, m ← flatten_user flattenStringSet ep u; Ok (out ++ [m])) acc users
         = Ok out ∧
         Forall2 (mirrors_remote_user flattenStringSet cfgUsers) (done ++ users) out.
Proof.
  intros Hep. revert done acc.
  induction users as [|u users IH]; intros done acc Husers Hacc; simpl.
  - exists acc. by rewrite app_nil_r.
  - apply Forall_cons in Husers as [Hu Husers].
    destruct (flatten_user_mirrors flattenStringSet cfgUsers ep u Hep Hu) as (m & Hm & Hmir).
    unfold_bind. rewrite Hm.
    destruct (IH (done ++ [u]) (acc ++ [m]) Husers) as (out & Hout & Hall).
    { apply Forall2_app; [done|]. by constructor. }
    exists out. split; [done|]. by rewrite <- app_assoc in Hall.
Qed.

(** flattenMqUsers returns on configured users and named remote users. *)
Lemma flattenMqUsers_total (flattenStringSet : list string → SchemaSet string)
    (users : list User) (cfgUsers : list (gmap string value)) :
  Forall configured_user cfgUsers →
  Forall (λ u, is_Some (User_Username u)) users →
  ∃ s, flattenMqUsers flattenStringSet users cfgUsers = Ok s.
Proof.
  intros Hcfg Husers.
  destruct (existingPairs_of_total cfgUsers Hcfg) as (ep & Hep & Hfrom).
  destruct (flatten_loop_mirrors flattenStringSet cfgUsers ep users [] [] Hfrom Husers)
    as (out & Hout & Hall); [constructor|]. simpl in Hall.
  destruct (schema_NewSet_items resourceAwsMqUserHash out) as (s & Hs & _).
  { intros m Hm. apply list_elem_of_lookup in Hm as (i & Hi).
    destruct (Forall2_lookup_r _ _ _ _ _ Hall Hi) as (u & Hu & Hmir).
    apply (mirrors_remote_user_hash flattenStringSet cfgUsers u m); [|done].
    rewrite Forall_forall in Husers. apply Husers. by eapply list_elem_of_lookup_2. }
  exists s. unfold flattenMqUsers, flattenMqUsers_out. unfold_bind.
  by rewrite Hep, Hout.
Qed.

(** X8: flattenMqUsers builds one map per user of the remote read, in
    order: name, console access and groups are those of the remote user, a
    password is always a non-empty password that the configuration gives for
    that very name, and the map has no other key.  The set it returns holds
    maps of that list only. *)
Theorem flattenMqUsers_mirrors_remote (flattenStringSet : list string → SchemaSet string)
    (users : list User) (cfgUsers : list (gmap string value)) :
  Forall configured_user cfgUsers →
  Forall (λ u, is_Some (User_Username u)) users →
  ∃ out s,
    flattenMqUsers_out flattenStringSet users cfgUsers = Ok out ∧
    flattenMqUsers flattenStringSet users cfgUsers = Ok s ∧
    Forall2 (mirrors_remote_user flattenStringSet cfgUsers) users out ∧
    (∀ m, m ∈ Set_List s → m ∈ out).
Proof.
  intros Hcfg Husers.
  destruct (existingPairs_of_total cfgUsers Hcfg) as (ep & Hep & Hfrom).
  destruct (flatten_loop_mirrors flattenStringSet cfgUsers ep users [] [] Hfrom Husers)
    as (out & Hout & Hall); [constructor|]. simpl in Hall.
  destruct (schema_NewSet_items resourceAwsMqUserHash out) as (s & Hs & Hitems).
  { intros m Hm. apply list_elem_of_lookup in Hm as (i & Hi).
    destruct (Forall2_lookup_r _ _ _ _ _ Hall Hi) as (u & Hu & Hmir).
    apply (mirrors_remote_user_hash flattenStringSet cfgUsers u m); [|done].
    rewrite Forall_forall in Husers. apply Husers. by eapply list_elem_of_lookup_2. }
  exists out, s. unfold flattenMqUsers, flattenMqUsers_out. unfold_bind.
  rewrite Hep. rewrite Hout. by split_and!.
Qed.

Lemma flattenMqUsers_mirrors_remote_witness :
  ∃ out s,
    flattenMqUsers_out flattenStringSet_new sample_remote_users sample_cfg_users = Ok out ∧
    flattenMqUsers flattenStringSet_new sample_remote_users sample_cfg_users = Ok s ∧
    Forall2 (mirrors_remote_user flattenStringSet_new sample_cfg_users)
      sample_remote_users out ∧
    (∀ m, m ∈ Set_List s → m ∈ out).
Proof.
  apply (flattenMqUsers_mirrors_remote flattenStringSet_new
           sample_remote_users sample_cfg_users).
  - repeat constructor; eexists _, _; split; reflexivity.
  - repeat constructor; by eexists.
Defined.




(** ** Users the set of a read loses *)

Lemma string_app_cons (a : ascii) (s t : string) : String a s +:+ t = String a (s +:+ t).
Proof. reflexivity. Qed.

Lemma string_app_assoc (s t u : string) : (s +:+ t) +:+ u = s +:+ (t +:+ u).
Proof. induction s as [|a s IH]; [done|]. rewrite !string_app_cons. by rewrite IH. Qed.

Lemma string_app_length (s t : string) :
  String.length (s +:+ t) = (String.length s + String.length t)%nat.
Proof. induction s as [|a s IH]; [done|]. rewrite string_app_cons. simpl. by rewrite IH. Qed.

(** A set built from two items of the same code holds the first one only. *)
Lemma schema_NewSet_same_code {A} (F : A → outcome string) (x y : A) (code : string) :
  F x = Ok code → F y = Ok code →
  ∃ s, schema_NewSet F [x; y] = Ok s ∧ Set_List s = [x].
Proof.
  intros Hx Hy. unfold schema_NewSet. simpl. unfold Set_Add. unfold_bind.
  rewrite Hx. simpl. rewrite lookup_empty. rewrite Hy. simpl.
  rewrite lookup_insert_eq. eexists; split; [done|].
  unfold Set_List. simpl. by rewrite insert_empty, map_to_list_singleton.
Qed.

(** The hash text of a user map does not tell where the password ends and
    the username starts. *)
Lemma resourceAwsMqUserHash_dash (m m' : gmap string value) (p q n : string) :
  m !! "console_access" = m' !! "console_access" →
  m !! "groups" = m' !! "groups" →
  m !! "password" = Some (VString (p +:+ "-" +:+ q)) →
  m !! "username" = Some (VString n) →
  m' !! "password" = Some (VString p) →
  m' !! "username" = Some (VString (q +:+ "-" +:+ n)) →
  resourceAwsMqUserHash m = resourceAwsMqUserHash m'.
Proof.
  intros Hca Hg Hp Hn Hp' Hn'. unfold resourceAwsMqUserHash. unfold_bind.
  rewrite Hca, Hg, Hp, Hn, Hp', Hn'.
  destruct (match m' !! "console_access" with
            | Some ca => match assert_bool (Some ca) with
                         | Ok b => Ok (Sprintf_t b +:+ "-")
                         | Panic msg => Panic msg
                         end
            | None => Ok "false-"
            end) as [buf|]; [|done].
  destruct (match m' !! "groups" with
            | Some g => match assert_set g with
                        | Ok s => Ok (buf +:+ Sprintf_v (Set_List s) +:+ "-")
                        | Panic msg => Panic msg
                        end
            | None => Ok buf
            end) as [buf'|]; [|done].
  simpl. f_equal. by rewrite !string_app_assoc.
Qed.

(** X10: the hash text of a user joins password and username with a dash,
    so two users of different names can share it: of two such users of a
    remote read, flattenMqUsers keeps the first and loses the second. *)
Theorem flattenMqUsers_loses_colliding_user (flattenStringSet : list string → SchemaSet string)
    (console_access : option bool) (groups : list string) (p q n : string)
    (c1 c2 : gmap string value) :
  p ≠ "" →
  c1 !! "username" = Some (VString n) →
  c1 !! "password" = Some (VString (p +:+ "-" +:+ q)) →
  c2 !! "username" = Some (VString (q +:+ "-" +:+ n)) →
  c2 !! "password" = Some (VString p) →
  ∃ s m,
    flattenMqUsers flattenStringSet
      [remote_user n console_access groups;
       remote_user (q +:+ "-" +:+ n) console_access groups] [c1; c2] = Ok s ∧
    Set_List s = [m] ∧
    m !! "username" = Some (VString n).
Proof.
  intros Hne Hn1 Hp1 Hn2 Hp2.
  assert (Hdiff : n ≠ q +:+ "-" +:+ n).
  { intros Heq. apply (f_equal String.length) in Heq.
    rewrite !string_app_length in Heq. simpl in Heq. lia. }
  assert (Hlong : p +:+ "-" +:+ q ≠ "").
  { intros Heq. apply (f_equal String.length) in Heq.
    rewrite !string_app_length in Heq. simpl in Heq. lia. }
  assert (Hcfg : Forall configured_user [c1; c2]).
  { repeat constructor; eexists _, _; by split. }
  destruct (existingPairs_of_total [c1; c2] Hcfg) as (ep & Hep & Hfrom).
  assert (Hpairs : ep = <[q +:+ "-" +:+ n := p]> (<[n := p +:+ "-" +:+ q]> ∅)).
  { unfold existingPairs_of in Hep. simpl in Hep. unfold_bind.
    rewrite Hn1, Hp1 in Hep. simpl in Hep. rewrite Hn2, Hp2 in Hep. simpl in Hep.
    by injection Hep as <-. }
  set (u1 := remote_user n console_access groups).
  set (u2 := remote_user (q +:+ "-" +:+ n) console_access groups).
  destruct (flatten_user_mirrors flattenStringSet [c1; c2] ep u1 Hfrom)
    as (m1 & Hm1 & (_ & Hca1 & Hg1 & _)); [by eexists|].
  destruct (flatten_user_mirrors flattenStringSet [c1; c2] ep u2 Hfrom)
    as (m2 & Hm2 & (_ & Hca2 & Hg2 & _)); [by eexists|].
  destruct (flatten_user_spec flattenStringSet ep u1 n eq_refl)
    as (m1' & Hm1' & Hu1 & Hpw1 & (code & Hcode)).
  destruct (flatten_user_spec flattenStringSet ep u2 (q +:+ "-" +:+ n) eq_refl)
    as (m2' & Hm2' & Hu2 & Hpw2 & _).
  rewrite Hm1 in Hm1'. injection Hm1' as <-.
  rewrite Hm2 in Hm2'. injection Hm2' as <-.
  assert (Hcode2 : resourceAwsMqUserHash m2 = Ok code).
  { rewrite <- Hcode. symmetry.
    apply (resourceAwsMqUserHash_dash m1 m2 p q n); try done.
    - by rewrite Hca1, Hca2.
    - by rewrite Hg1, Hg2.
    - apply Hpw1; [|done]. rewrite Hpairs.
      by rewrite lookup_insert_ne, lookup_insert_eq.
    - apply Hpw2; [|done]. rewrite Hpairs. by rewrite lookup_insert_eq. }
  destruct (schema_NewSet_same_code resourceAwsMqUserHash m1 m2 code Hcode Hcode2)
    as (s & Hs & Hlist).
  exists s, m1. split_and!; [|done|done].
  unfold flattenMqUsers, flattenMqUsers_out. unfold_bind. rewrite Hep.
  cbn [foldM]. unfold_bind. rewrite Hm1. cbn [app]. by rewrite Hm2.
Qed.

Lemma flattenMqUsers_loses_colliding_user_witness :
  ∃ s m,
    flattenMqUsers flattenStringSet_new
      [remote_user "ops" (Some true) ["admin"];
       remote_user ("team" +:+ "-" +:+ "ops") (Some true) ["admin"]]
      [plain_user "ops" ("swordfish" +:+ "-" +:+ "team");
       plain_user ("team" +:+ "-" +:+ "ops") "swordfish"] = Ok s ∧
    Set_List s = [m] ∧
    m !! "username" = Some (VString "ops").
Proof.
  apply (flattenMqUsers_loses_colliding_user flattenStringSet_new (Some true) ["admin"]
           "swordfish" "team" "ops"
           (plain_user "ops" ("swordfish" +:+ "-" +:+ "team"))
           (plain_user ("team" +:+ "-" +:+ "ops") "swordfish")).
  - done.
  - reflexivity.
  - reflexivity.
  - reflexivity.
  - reflexivity.
Defined.

(** ** Expanding what was flattened *)

(** X11: expandMqLogs gives back the general and audit flags that
    flattenMqLogs wrote, set or unset as they were. *)
Theorem expandMqLogs_flattenMqLogs (logs : option Logs) :
  expandMqLogs (flattenMqLogs logs) = Ok logs.
Proof.
  destruct logs as [[[g|] [a|]]|]; unfold flattenMqLogs, expandMqLogs; simpl;
    unfold_bind.
  all: repeat (first [ rewrite lookup_insert_eq
                     | rewrite lookup_insert_ne by done
                     | rewrite lookup_singleton_eq
                     | rewrite lookup_singleton_ne by done
                     | rewrite lookup_empty ]; simpl).
  all: done.
Qed.

(** X12: expanding flattened encryption options returns options whose
    flattened form is the same; an unset and an empty key id both come back
    unset, an unset owned-key flag comes back as false, and options with a
    key id and the flag set come back unchanged. *)
Theorem expandMqEncryptionOptions_flatten (encryptionOptions : option EncryptionOptions) :
  ∃ back,
    expandMqEncryptionOptions (flattenMqEncryptionOptions encryptionOptions) = Ok back ∧
    flattenMqEncryptionOptions back = flattenMqEncryptionOptions encryptionOptions ∧
    (encryptionOptions = None ↔ back = None) ∧
    ∀ eo, encryptionOptions = Some eo →
      ∃ eo', back = Some eo' ∧
        eo_UseAwsOwnedKey eo' = Some (BoolValue (eo_UseAwsOwnedKey eo)) ∧
        eo_KmsKeyId eo' = (if bool_decide (StringValue (eo_KmsKeyId eo) = "") then None
                           else eo_KmsKeyId eo).
Proof.
  destruct encryptionOptions as [[kms own]|]; simpl.
  - unfold_bind. rewrite lookup_insert_ne by done. rewrite lookup_singleton_eq. simpl.
    rewrite lookup_insert_eq.
    destruct (decide (StringValue kms = "")) as [He|He].
    + rewrite He. simpl. eexists; split; [done|]. simpl. split_and!; [done|done|].
      intros eo [= <-]. eexists; split; [done|]. simpl.
      by rewrite bool_decide_eq_true_2.
    + rewrite (bool_decide_eq_true_2 (StringValue kms ≠ "")) by done.
      eexists; split; [done|]. simpl. split_and!; [done|done|].
      intros eo [= <-]. eexists; split; [done|]. simpl.
      rewrite bool_decide_eq_false_2 by done. split; [done|].
      destruct kms; [done|]. by destruct He.
  - exists None. split_and!; try done. 
Qed.

(** X13: expandMqWeeklyStartTime returns a flattened start time unchanged
    exactly when it is nil or has all three fields set; with a field unset
    the type assertion on the missing key panics. *)
Theorem expandMqWeeklyStartTime_flatten (wst : option WeeklyStartTime) :
  (expandMqWeeklyStartTime (flattenMqWeeklyStartTime wst) = Ok wst ↔
   ∀ w, wst = Some w →
        is_Some (wst_DayOfWeek w) ∧ is_Some (wst_TimeOfDay w) ∧ is_Some (wst_TimeZone w)) ∧
  (expandMqWeeklyStartTime (flattenMqWeeklyStartTime wst) = Ok wst ∨
   expandMqWeeklyStartTime (flattenMqWeeklyStartTime wst)
   = Panic "interface conversion: interface {} is nil, not string").
Proof.
  destruct wst as [[[d|] [t|] [z|]]|]; simpl; unfold_bind; unfold put_string; simpl.
  all: repeat first
         [ rewrite lookup_insert_eq
         | rewrite lookup_insert_ne by done
         | rewrite lookup_empty ]; simpl.
  all: split; [split|].
  all: try (by left).
  all: try (by right).
  all: try done.
  all: try (intros _ w [= <-]; simpl; by split_and!; eexists).
  all: try (intros _ w [=]).
  all: try (intros H; destruct (H _ eq_refl) as ([? ?] & [? ?] & [? ?]); simpl in *;
            discriminate).
Qed.

(** ** Expanding and flattening the users *)






(** ** The users of Read *)

(** The loop over the users of the broker: it describes the users in order
    and leaves at the first failure. *)
Lemma describe_users_spec {W} (conn : MQ W) (id : string) (users : list UserSummary)
    (rawUsers : list User) (s : State W) :
  ∃ r s' resps,
    describe_users conn id users rawUsers s = Ok (r, s') ∧
    heap s' = heap s ∧
    match r with
    | inr raw' =>
        Forall2 (λ u r, ∃ w, (mq_DescribeUser conn id (us_Username u) w).1 = inr r)
          users resps ∧
        trace s' = trace s ++ described id users resps ∧
        raw' = rawUsers ++ (user_of_response <$> resps)
    | inl err =>
        ∃ pre failed post,
          users = pre ++ failed :: post ∧
          length resps = length pre ∧
          trace s' = trace s ++ described id pre resps ++
                       [EDescribeUser id (us_Username failed) (inl err)] ∧
          ∃ w, (mq_DescribeUser conn id (us_Username failed) w).1 = inl err
    end.
Proof.
  revert rawUsers s. induction users as [|u users IH]; intros rawUsers s; simpl.
  - exists (inr rawUsers), s, []. split_and!; try done.
    + by rewrite app_nil_r.
    + by rewrite app_nil_r.
  - unfold bindM, DescribeUser, log_call.
    destruct (mq_DescribeUser conn id (us_Username u) (world s)) as [[err|uOut] w] eqn:Hcall.
    + exists (inl err), (MkState (heap s) w
                           (trace s ++ [EDescribeUser id (us_Username u) (inl err)])), [].
      split_and!; try done. exists [], u, users. split_and!; try done.
      exists (world s). by rewrite Hcall.
    + destruct (IH (rawUsers ++ [user_of_response uOut])
                  (MkState (heap s) w
                     (trace s ++ [EDescribeUser id (us_Username u) (inr uOut)])))
        as (r & s' & resps & Hrun & Hheap & Hres).
      exists r, s'. unfold user_of_response in Hrun at 1. simpl in Hrun.
      destruct r as [err|raw'].
      * destruct Hres as (pre & failed & post & -> & Hlen & Ht & Hw).
        exists (uOut :: resps). split_and!; try done.
        exists (u :: pre), failed, post. split_and!; try done.
        -- simpl. by rewrite Hlen.
        -- rewrite Ht. simpl. by rewrite <- app_assoc.
      * destruct Hres as (Hall & Ht & ->).
        exists (uOut :: resps). split_and!; try done.
        -- constructor; [|done]. exists (world s). by rewrite Hcall.
        -- rewrite Ht. simpl. by rewrite <- app_assoc.
        -- by rewrite <- app_assoc.
Qed.

Lemma schema_NewSet_strings (l : list string) :
  ∃ s, schema_NewSet schema_HashString l = Ok s.
Proof.
  destruct (schema_NewSet_items schema_HashString l) as (s & Hs & _); [|by exists s].
  intros x _. by exists x.
Qed.

(** X15: when DescribeBroker succeeds and one of the listed users cannot be
    described, Read describes the users in order up to the first that fails
    and returns the error of that call as it is.  It keeps the id; by then
    it has written the attributes of the broker, but not user and tags. *)
Theorem read_describe_user_error {W} (conn : MQ W)
    (flattenStringSet : list string → SchemaSet string)
    (isAWSErr : error → string → string → bool)
    (ignoreTags : gmap string string → gmap string string)
    (d : ResourceData) (s : State W) (out : DescribeBrokerResponse) (w1 : W)
    (u : UserSummary) :
  mq_DescribeBroker conn (d_Id d) (world s) = (inr out, w1) →
  is_Some (dbr_Configurations out) →
  u ∈ dbr_Users out →
  (∀ w, ∃ e, (mq_DescribeUser conn (d_Id d) (us_Username u) w).1 = inl e) →
  ∃ d' err s' pre failed post resps,
    resourceAwsMqBrokerRead conn flattenStringSet isAWSErr ignoreTags d s
      = Ok ((d', Some err), s') ∧
    dbr_Users out = pre ++ failed :: post ∧
    length resps = length pre ∧
    trace s' = trace s ++ EDescribeBroker (d_Id d) (inr out) ::
                 described (d_Id d) pre resps ++
                 [EDescribeUser (d_Id d) (us_Username failed) (inl err)] ∧
    heap s' = heap s ∧
    d_Id d' = d_Id d ∧
    d_attrs d' !! "user" = d_attrs d !! "user" ∧
    d_attrs d' !! "tags" = d_attrs d !! "tags" ∧
    d_attrs d' !! "arn" = Some (AString (dbr_BrokerArn out)).
Proof.
  intros Hdb [cfgs Hcfgs] Hu Hfail.
  unfold resourceAwsMqBrokerRead, bindM, DescribeBroker, log_call. rewrite Hdb.
  destruct (schema_NewSet_strings (StringValueSlice (dbr_SecurityGroups out))) as [sg Hsg].
  destruct (schema_NewSet_strings (StringValueSlice (dbr_SubnetIds out))) as [sn Hsn].
  unfold liftM. rewrite Hsg, Hsn, Hcfgs. cbn [d_Id d_Set].
  match goal with
  | |- context [describe_users conn (d_Id d) (dbr_Users out) [] ?s1] =>
      destruct (describe_users_spec conn (d_Id d) (dbr_Users out) [] s1)
        as (r & s' & resps & Hrun & Hheap & Hres); rewrite Hrun
  end.
  destruct r as [err|raw'].
  - destruct Hres as (pre & failed & post & Husers & Hlen & Ht & _).
    eexists _, err, s', pre, failed, post, resps. split_and!; try done.
    + rewrite Ht. simpl. by rewrite <- app_assoc.
    + simpl. by rewrite !lookup_insert_ne.
    + simpl. by rewrite !lookup_insert_ne.
    + simpl. rewrite !lookup_insert_ne by done. by rewrite lookup_insert_eq.
  - destruct Hres as (Hall & _ & _).
    apply list_elem_of_lookup in Hu as (i & Hi).
    destruct (Forall2_lookup_l _ _ _ _ _ Hall Hi) as (r & _ & w & Hok).
    destruct (Hfail w) as [e He]. congruence.
Qed.

Lemma read_describe_user_error_witness :
  ∃ d' err s' pre failed post resps,
    resourceAwsMqBrokerRead (describing_conn (inr broker_with_users) ["alice"])
      flattenStringSet_new isAWSErr_typed id sample_broker (MkState ∅ [] [])
      = Ok ((d', Some err), s') ∧
    dbr_Users broker_with_users = pre ++ failed :: post ∧
    length resps = length pre ∧
    trace s' = [] ++ EDescribeBroker (d_Id sample_broker) (inr broker_with_users) ::
                 described (d_Id sample_broker) pre resps ++
                 [EDescribeUser (d_Id sample_broker) (us_Username failed) (inl err)] ∧
    heap s' = ∅ ∧
    d_Id d' = d_Id sample_broker ∧
    d_attrs d' !! "user" = d_attrs sample_broker !! "user" ∧
    d_attrs d' !! "tags" = d_attrs sample_broker !! "tags" ∧
    d_attrs d' !! "arn" = Some (AString (dbr_BrokerArn broker_with_users)).
Proof.
  apply (read_describe_user_error (describing_conn (inr broker_with_users) ["alice"])
           flattenStringSet_new isAWSErr_typed id sample_broker (MkState ∅ [] [])
           broker_with_users [] {| us_Username := Some "mallory" |}).
  - reflexivity.
  - by eexists.
  - right. left.
  - intros w. by eexists.
Defined.

(** The calls of a Read that returns, and the id it leaves. *)
Lemma read_calls {W} (conn : MQ W)
    (flattenStringSet : list string → SchemaSet string)
    (isAWSErr : error → string → string → bool)
    (ignoreTags : gmap string string → gmap string string)
    (d d' : ResourceData) (s s' : State W) (res : option error) :
  resourceAwsMqBrokerRead conn flattenStringSet isAWSErr ignoreTags d s
    = Ok ((d', res), s') →
  ∃ r evs,
    trace s' = trace s ++ EDescribeBroker (d_Id d) r :: evs ∧
    Forall (λ e, ∃ name ur, e = EDescribeUser (d_Id d) name ur) evs ∧
    (length evs ≤ match r with
                  | inl _ => 0
                  | inr out => length (dbr_Users out)
                  end)%nat ∧
    heap s' = heap s ∧
    (d_Id d' = d_Id d ∨ (d_Id d' = "" ∧ res = None)).
Proof.
  unfold resourceAwsMqBrokerRead, bindM, DescribeBroker, log_call.
  destruct (mq_DescribeBroker conn (d_Id d) (world s)) as [[err|out] w1] eqn:Hdb.
  - intros Hrun. exists (inl err), [].
    destruct (isAWSErr err mq_ErrCodeNotFoundException "");
      [|destruct (isAWSErr err mq_ErrCodeForbiddenException "Forbidden")];
      injection Hrun as <- <- <-; split_and!; try done; by auto.
  - unfold liftM.
    destruct (schema_NewSet _ (StringValueSlice (dbr_SecurityGroups out))); [|done].
    destruct (schema_NewSet _ (StringValueSlice (dbr_SubnetIds out))); [|done].
    destruct (dbr_Configurations out) as [cfgs|]; [|done]. cbn [d_Id d_Set].
    match goal with
    | |- context [describe_users conn (d_Id d) (dbr_Users out) [] ?s1] =>
        destruct (describe_users_spec conn (d_Id d) (dbr_Users out) [] s1)
          as (r & s2 & resps & Hrun & Hheap & Hres); rewrite Hrun
    end.
    assert (Hdesc : ∀ l rs, Forall (λ e, ∃ name ur, e = EDescribeUser (d_Id d) name ur)
                              (described (d_Id d) l rs)).
    { intros l. induction l as [|x l IH]; intros [|y rs]; simpl; try by constructor.
      constructor; [by eexists _, _ | apply IH]. }
    destruct r as [err|raw'].
    + destruct Hres as (pre & failed & post & Husers & Hlen & Ht & _).
      intros [= <- <- <-]. eexists (inr out), _. split_and!.
      * rewrite Ht. simpl. by rewrite <- app_assoc.
      * apply Forall_app. split; [apply Hdesc|]. apply Forall_singleton. by eexists _, _.
      * rewrite Husers. rewrite !length_app. unfold described.
        rewrite length_zip_with. simpl. lia.
      * done.
      * by left.
    + destruct Hres as (Hall & Ht & _).
      destruct (flattenMqUsers _ _ _) as [users|]; [|done].
      intros [= <- <- <-]. eexists (inr out), _. split_and!.
      * rewrite Ht. simpl. by rewrite <- app_assoc.
      * apply Hdesc.
      * unfold described. rewrite length_zip_with. lia.
      * done.
      * by left.
Qed.


(** X16: every remote call of a Read that returns is a DescribeBroker or a
    DescribeUser of the resource's id: the first call is the one
    DescribeBroker, all later ones are DescribeUser calls, and the maps of
    the heap are left alone. *)
Theorem read_only_describes {W} (conn : MQ W)
    (flattenStringSet : list string → SchemaSet string)
    (isAWSErr : error → string → string → bool)
    (ignoreTags : gmap string string → gmap string string)
    (d d' : ResourceData) (s s' : State W) (res : option error) :
  resourceAwsMqBrokerRead conn flattenStringSet isAWSErr ignoreTags d s
    = Ok ((d', res), s') →
  ∃ r evs,
    trace s' = trace s ++ EDescribeBroker (d_Id d) r :: evs ∧
    Forall (λ e, ∃ name ur, e = EDescribeUser (d_Id d) name ur) evs ∧
    (length evs ≤ match r with
                  | inl _ => 0
                  | inr out => length (dbr_Users out)
                  end)%nat ∧
    heap s' = heap s.
Proof.
  intros Hrun.
  destruct (read_calls conn flattenStringSet isAWSErr ignoreTags d d' s s' res Hrun)
    as (r & evs & Ht & Hevs & Hlen & Hheap & _).
  by exists r, evs.
Qed.

Lemma read_only_describes_witness :
  ∃ r evs,
    [EDescribeBroker "b-1234" (inl not_found_error)]
      = [] ++ EDescribeBroker (d_Id sample_broker) r :: evs ∧
    Forall (λ e, ∃ name ur, e = EDescribeUser (d_Id sample_broker) name ur) evs ∧
    (length evs ≤ match r with
                  | inl _ => 0
                  | inr out => length (dbr_Users out)
                  end)%nat ∧
    (∅ : gmap loc (gmap string value)) = ∅.
Proof.
  apply (read_only_describes (scripted_conn (inl not_found_error)) (λ _, MkSet ∅)
           isAWSErr_typed id sample_broker (d_SetId "" sample_broker)
           (MkState ∅ [] [])
           (MkState ∅ [] [EDescribeBroker "b-1234" (inl not_found_error)]) None).
  reflexivity.
Defined.

Lemma d_Get_d_Set_ne (k k' : string) (v : attr) (d : ResourceData) :
  k ≠ k' → d_Get k (d_Set k' v d) = d_Get k d.
Proof. intros Hne. unfold d_Get, d_Set. simpl. by rewrite lookup_insert_ne. Qed.

(** X24: when DescribeBroker and every DescribeUser succeed, Read returns
    nil and keeps the id: it has described every listed user once, in
    order, and has set the user attribute to the set that flattenMqUsers
    builds from the answers and the users configured so far, and the tags
    to the filtered tags of the broker. *)
Theorem read_refreshes_users_and_tags {W} (conn : MQ W)
    (flattenStringSet : list string → SchemaSet string)
    (isAWSErr : error → string → string → bool)
    (ignoreTags : gmap string string → gmap string string)
    (d : ResourceData) (s : State W) (out : DescribeBrokerResponse) (w1 : W) :
  mq_DescribeBroker conn (d_Id d) (world s) = (inr out, w1) →
  is_Some (dbr_Configurations out) →
  (∀ u w, u ∈ dbr_Users out →
     ∃ r, (mq_DescribeUser conn (d_Id d) (us_Username u) w).1 = inr r ∧
          is_Some (dur_Username r)) →
  Forall configured_user (Set_List (attr_user_set (d_Get "user" d))) →
  ∃ d' s' resps users,
    resourceAwsMqBrokerRead conn flattenStringSet isAWSErr ignoreTags d s
      = Ok ((d', None), s') ∧
    d_Id d' = d_Id d ∧
    heap s' = heap s ∧
    length resps = length (dbr_Users out) ∧
    trace s' = trace s ++ EDescribeBroker (d_Id d) (inr out) ::
                 described (d_Id d) (dbr_Users out) resps ∧
    flattenMqUsers flattenStringSet (user_of_response <$> resps)
      (Set_List (attr_user_set (d_Get "user" d))) = Ok users ∧
    d_attrs d' !! "user" = Some (AUserSet users) ∧
    d_attrs d' !! "tags" = Some (ATags (ignoreTags (dbr_Tags out))).
Proof.
  intros Hdb [cfgs Hcfgs] Hdesc Hcfg.
  unfold resourceAwsMqBrokerRead, bindM, DescribeBroker, log_call. rewrite Hdb.
  destruct (schema_NewSet_strings (StringValueSlice (dbr_SecurityGroups out))) as [sg Hsg].
  destruct (schema_NewSet_strings (StringValueSlice (dbr_SubnetIds out))) as [sn Hsn].
  unfold liftM. rewrite Hsg, Hsn, Hcfgs. cbn [d_Id d_Set].
  match goal with
  | |- context [describe_users conn (d_Id d) (dbr_Users out) [] ?s1] =>
      destruct (describe_users_spec conn (d_Id d) (dbr_Users out) [] s1)
        as (r & s' & resps & Hrun & Hheap & Hres); rewrite Hrun
  end.
  destruct r as [err|raw'].
  { destruct Hres as (pre & failed & post & Husers & _ & _ & w & Hw).
    destruct (Hdesc failed w) as (r & Hr & _).
    { rewrite Husers. apply elem_of_app. right. left. }
    rewrite Hw in Hr. discriminate Hr. }
  destruct Hres as (Hall & Ht & ->). rewrite app_nil_l.
  assert (Hnames : Forall (λ u, is_Some (User_Username u)) (user_of_response <$> resps)).
  { apply Forall_fmap, Forall_forall. intros r Hr.
    apply list_elem_of_lookup in Hr as (i & Hi).
    destruct (Forall2_lookup_r _ _ _ _ _ Hall Hi) as (u & Hu & w & Hw).
    destruct (Hdesc u w) as (r' & Hr' & Hname); [by eapply list_elem_of_lookup_2|].
    rewrite Hw in Hr'. by injection Hr' as <-. }
  rewrite !d_Get_d_Set_ne by done.
  destruct (flattenMqUsers_total flattenStringSet _ _ Hcfg Hnames) as (users & Husers).
  rewrite Husers.
  eexists _, s', resps, users. split_and!; try done.
  - symmetry. by eapply Forall2_length.
  - rewrite Ht. cbn [trace]. by rewrite <- app_assoc.
  - unfold d_Set at 1 2. cbn [d_attrs].
    rewrite lookup_insert_ne by done. by rewrite lookup_insert_eq.
  - unfold d_Set at 1. cbn [d_attrs]. by rewrite lookup_insert_eq.
Qed.

Lemma read_refreshes_users_and_tags_witness :
  ∃ d' s' resps users,
    resourceAwsMqBrokerRead (describing_conn (inr broker_with_users) ["alice"; "mallory"])
      flattenStringSet_new isAWSErr_typed id sample_broker (MkState ∅ [] [])
      = Ok ((d', None), s') ∧
    d_Id d' = d_Id sample_broker ∧
    heap s' = ∅ ∧
    length resps = length (dbr_Users broker_with_users) ∧
    trace s' = [] ++ EDescribeBroker (d_Id sample_broker) (inr broker_with_users) ::
                 described (d_Id sample_broker) (dbr_Users broker_with_users) resps ∧
    flattenMqUsers flattenStringSet_new (user_of_response <$> resps)
      (Set_List (attr_user_set (d_Get "user" sample_broker))) = Ok users ∧
    d_attrs d' !! "user" = Some (AUserSet users) ∧
    d_attrs d' !! "tags" = Some (ATags (id (dbr_Tags broker_with_users))).
Proof.
  apply (read_refreshes_users_and_tags
           (describing_conn (inr broker_with_users) ["alice"; "mallory"])
           flattenStringSet_new isAWSErr_typed id sample_broker (MkState ∅ [] [])
           broker_with_users []).
  - reflexivity.
  - by eexists.
  - intros u w [->|[->|[]%elem_of_nil]%elem_of_cons]%elem_of_cons;
      (eexists; split; [reflexivity | by eexists]).
  - apply Forall_nil_2.
Defined.

(** ** Deleting the broker *)

Lemma refresh_broker_deletion_spec {W} (conn : MQ W)
    (isAWSErr : error → string → string → bool) (id : string) (s s' : State W)
    (r : error + string) :
  refresh_broker_deletion conn isAWSErr id s = Ok (r, s') →
  ∃ res, trace s' = trace s ++ [EDescribeBroker id res] ∧ heap s' = heap s ∧
    match r with
    | inl err => res = inl err ∧ isAWSErr err "NotFoundException" "" = false
    | inr st =>
        (∃ err, res = inl err ∧ isAWSErr err "NotFoundException" "" = true ∧ st = "") ∨
        (∃ out, res = inr out ∧ dbr_BrokerState out = Some st)
    end.
Proof.
  unfold refresh_broker_deletion. intros (res & s1 & Hd & Hr)%bindM_Ok.
  unfold DescribeBroker, log_call in Hd.
  destruct (mq_DescribeBroker conn id (world s)) as [res' w]. injection Hd as <- <-.
  exists res'. destruct res' as [e|out].
  - destruct (isAWSErr e "NotFoundException" "") eqn:Hnf; injection Hr as <- <-.
    + split_and!; [done | done |]. left. by exists e.
    + by split_and!.
  - apply bindM_Ok in Hr as (st & s2 & Hst & Hr). injection Hr as <- <-.
    unfold liftM, deref_string in Hst.
    destruct (dbr_BrokerState out) as [st'|] eqn:Hbs; [|done]. injection Hst as <- <-.
    split_and!; [done | done |]. right. by exists out.
Qed.

Lemma waitForMqBrokerDeletion_spec {W} (conn : MQ W)
    (isAWSErr : error → string → string → bool) (id : string) (polls : nat)
    (s s' : State W) (e : option error) :
  waitForMqBrokerDeletion conn isAWSErr polls id s = Ok (e, s') →
  ∃ evs, trace s' = trace s ++ evs ∧ heap s' = heap s ∧
    Forall (λ ev, ∃ res, ev = EDescribeBroker id res) evs ∧
    (length evs ≤ polls)%nat ∧
    (e = None → ∃ seen last,
       evs = seen ++ [last] ∧ Forall (deletion_pending id) seen ∧
       deletion_done isAWSErr id last).
Proof.
  unfold waitForMqBrokerDeletion.
  revert s. induction polls as [|n IH]; intros s; cbn [WaitForState].
  - intros [= <- <-]. exists []. rewrite app_nil_r. by split_and!.
  - intros (r & s1 & Hr & Hk)%bindM_Ok.
    destruct (refresh_broker_deletion_spec conn isAWSErr id s s1 r Hr)
      as (res & Ht & Hh & Hres).
    destruct r as [err|st].
    + injection Hk as <- <-. exists [EDescribeBroker id res].
      split_and!; [done | done | apply Forall_singleton; by eexists | simpl; lia | done].
    + case_bool_decide as Htarget.
      * injection Hk as <- <-. exists [EDescribeBroker id res].
        split_and!; [done | done | apply Forall_singleton; by eexists | simpl; lia |].
        intros _. exists [], (EDescribeBroker id res). split_and!; [done | done |].
        apply list_elem_of_singleton in Htarget as ->.
        destruct Hres as [(err & -> & Hnf & _)|(out & -> & Hout)].
        -- left. by exists err.
        -- right. by exists out.
      * case_bool_decide as Hpending.
        -- destruct (IH s1 Hk) as (evs & Ht' & Hh' & Hd & Hlen & Hlast).
           exists (EDescribeBroker id res :: evs). split_and!.
           ++ rewrite Ht', Ht. by rewrite <- app_assoc.
           ++ congruence.
           ++ apply Forall_cons. split; [by eexists | done].
           ++ simpl. lia.
           ++ intros He. destruct (Hlast He) as (seen & last & -> & Hseen & Hdone).
              exists (EDescribeBroker id res :: seen), last. split_and!; [done | | done].
              apply Forall_cons. split; [|done].
              destruct Hres as [(err & -> & _ & ->)|(out & -> & Hout)].
              ** by destruct Htarget; left.
              ** by exists out, st.
        -- injection Hk as <- <-. exists [EDescribeBroker id res].
           split_and!; [done | done | apply Forall_singleton; by eexists | simpl; lia | done].
Qed.

(** X17: a Delete that returns has called DeleteBroker first.  If that call
    failed, its error is returned and the broker is not polled.  Otherwise
    the broker is described at most [polls] times, and Delete returns nil
    only when the last poll found the broker gone (a not-found error or an
    empty state) after polls that all saw a pending state. *)
Theorem delete_returns_nil_only_when_gone {W} (conn : MQ W)
    (mq_DeleteBroker : string → W → option error * W)
    (isAWSErr : error → string → string → bool) (polls : nat)
    (d : ResourceData) (s s' : State W) (res : option error) :
  resourceAwsMqBrokerDelete conn mq_DeleteBroker isAWSErr polls d s = Ok (res, s') →
  heap s' = heap s ∧
  match mq_DeleteBroker (d_Id d) (world s) with
  | (Some e, w1) => res = Some e ∧ world s' = w1 ∧ trace s' = trace s
  | (None, _) =>
      ∃ evs, trace s' = trace s ++ evs ∧
        Forall (λ ev, ∃ r, ev = EDescribeBroker (d_Id d) r) evs ∧
        (length evs ≤ polls)%nat ∧
        (res = None → ∃ seen last,
           evs = seen ++ [last] ∧ Forall (deletion_pending (d_Id d)) seen ∧
           deletion_done isAWSErr (d_Id d) last)
  end.
Proof.
  unfold resourceAwsMqBrokerDelete. intros (err & s1 & Hdel & Hk)%bindM_Ok.
  unfold DeleteBroker in Hdel.
  destruct (mq_DeleteBroker (d_Id d) (world s)) as [derr w1]. injection Hdel as <- <-.
  destruct derr as [e|].
  - injection Hk as <- <-. by split_and!.
  - destruct (waitForMqBrokerDeletion_spec conn isAWSErr (d_Id d) polls _ s' res Hk)
      as (evs & Ht & Hh & Hall & Hlen & Hlast).
    split; [done|]. by exists evs.
Qed.

Lemma delete_returns_nil_only_when_gone_witness :
  (∅ : gmap loc (gmap string value)) = ∅ ∧
  ∃ evs, [EDescribeBroker "b-1234" (inl not_found_error)] = [] ++ evs ∧
    Forall (λ ev, ∃ r, ev = EDescribeBroker (d_Id sample_broker) r) evs ∧
    (length evs ≤ 3)%nat ∧
    (@None error = None → ∃ seen last,
       evs = seen ++ [last] ∧ Forall (deletion_pending (d_Id sample_broker)) seen ∧
       deletion_done isAWSErr_typed (d_Id sample_broker) last).
Proof.
  apply (delete_returns_nil_only_when_gone (scripted_conn (inl not_found_error))
           (λ _ w, (None, w)) isAWSErr_typed 3 sample_broker (MkState ∅ [] [])
           (MkState ∅ [] [EDescribeBroker "b-1234" (inl not_found_error)]) None).
  reflexivity.
Defined.

(** X18: when DeleteBroker succeeds and the first DescribeBroker fails,
    Delete polls once: a not-found error ends it with nil, any other error
    is returned as it is. *)
Theorem delete_first_describe_error {W} (conn : MQ W)
    (mq_DeleteBroker : string → W → option error * W)
    (isAWSErr : error → string → string → bool) (polls : nat)
    (d : ResourceData) (s : State W) (w1 w2 : W) (err : error) :
  mq_DeleteBroker (d_Id d) (world s) = (None, w1) →
  mq_DescribeBroker conn (d_Id d) w1 = (inl err, w2) →
  resourceAwsMqBrokerDelete conn mq_DeleteBroker isAWSErr (S polls) d s
  = Ok (if isAWSErr err "NotFoundException" "" then None else Some err,
        MkState (heap s) w2 (trace s ++ [EDescribeBroker (d_Id d) (inl err)])).
Proof.
  intros Hdel Hdesc.
  unfold resourceAwsMqBrokerDelete, bindM, DeleteBroker. rewrite Hdel.
  unfold waitForMqBrokerDeletion. cbn [WaitForState].
  unfold bindM, refresh_broker_deletion, bindM, DescribeBroker, log_call. simpl.
  rewrite Hdesc. by destruct (isAWSErr err "NotFoundException" "").
Qed.

Lemma delete_first_describe_error_witness :
  resourceAwsMqBrokerDelete (scripted_conn (inl rejected)) (λ _ w, (None, w))
    isAWSErr_typed 3 sample_broker (MkState ∅ [] [])
  = Ok (if isAWSErr_typed rejected "NotFoundException" "" then None else Some rejected,
        MkState ∅ [] ([] ++ [EDescribeBroker (d_Id sample_broker) (inl rejected)])).
Proof.
  apply (delete_first_describe_error (scripted_conn (inl rejected)) (λ _ w, (None, w))
           isAWSErr_typed 2 sample_broker (MkState ∅ [] []) [] [] rejected).
  - reflexivity.
  - reflexivity.
Defined.

(** ** The password check *)

(** A property of bytes that holds of the 256 bytes holds of every byte. *)
Lemma byte_cases (P : N → bool) :
  forallb P (N.of_nat <$> seq 0 256) = true → ∀ c, P (N_of_ascii c) = true.
Proof.
  intros Hall c. rewrite forallb_forall in Hall. apply Hall.
  apply list_elem_of_In, list_elem_of_fmap. exists (nat_of_ascii c). split.
  - unfold nat_of_ascii. by rewrite N2Nat.id.
  - apply elem_of_seq. pose proof (nat_ascii_bounded c). lia.
Qed.

Lemma N_of_ascii_comma (c : ascii) : N_of_ascii c = 44%N ↔ c = comma.
Proof.
  split; [|by intros ->]. intros H.
  rewrite <- (ascii_N_embedding c). by rewrite H.
Qed.

(** Facts on the lead and continuation bytes of an encoding. *)
Lemma lead2_bits (c : ascii) :
  (λ n, implb (negb (n <? 194) && (n <? 224)) (negb (N.land n 31 =? 0)))%N (N_of_ascii c)
  = true.
Proof. apply byte_cases. vm_compute. reflexivity. Qed.

Lemma lead3_bits (c : ascii) :
  (λ n, implb (negb (n <? 224) && (n <? 240) && (N.land n 15 =? 0)) (n =? 224))%N
    (N_of_ascii c) = true.
Proof. apply byte_cases. vm_compute. reflexivity. Qed.

Lemma lead4_bits (c : ascii) :
  (λ n, implb (negb (n <? 240) && negb (244 <? n) && (N.land n 7 =? 0)) (n =? 240))%N
    (N_of_ascii c) = true.
Proof. apply byte_cases. vm_compute. reflexivity. Qed.

Lemma second_bits (c : ascii) :
  (λ n, implb (negb (n <? 144) && negb (191 <? n)) (negb (N.land n 63 =? 0)))%N
    (N_of_ascii c) = true.
Proof. apply byte_cases. vm_compute. reflexivity. Qed.

(** A rune with a bit above the low six is not the comma. *)
Lemma not_comma_of_high_bits (r : N) : N.shiftr r 6 ≠ 0%N → r ≠ 44%N.
Proof. by intros H ->. Qed.

Lemma lead2_nonzero (c : ascii) :
  (194 ≤ N_of_ascii c < 224)%N → N.land (N_of_ascii c) 31 ≠ 0%N.
Proof.
  intros [Hlo Hhi] Hz. pose proof (lead2_bits c) as H. simpl in H.
  apply N.ltb_ge in Hlo. apply N.ltb_lt in Hhi. apply N.eqb_eq in Hz.
  by rewrite Hlo, Hhi, Hz in H.
Qed.

Lemma lead3_zero (c : ascii) :
  (224 ≤ N_of_ascii c < 240)%N → N.land (N_of_ascii c) 15 = 0%N → N_of_ascii c = 224%N.
Proof.
  intros [Hlo Hhi] Hz. pose proof (lead3_bits c) as H. simpl in H.
  apply N.ltb_ge in Hlo. apply N.ltb_lt in Hhi. apply N.eqb_eq in Hz.
  rewrite Hlo, Hhi, Hz in H. by apply N.eqb_eq.
Qed.

Lemma lead4_zero (c : ascii) :
  (240 ≤ N_of_ascii c ≤ 244)%N → N.land (N_of_ascii c) 7 = 0%N → N_of_ascii c = 240%N.
Proof.
  intros [Hlo Hhi] Hz. pose proof (lead4_bits c) as H. simpl in H.
  apply N.ltb_ge in Hlo. apply N.ltb_ge in Hhi. apply N.eqb_eq in Hz.
  rewrite Hlo, Hhi, Hz in H. by apply N.eqb_eq.
Qed.

Lemma second_nonzero (c : ascii) :
  (144 ≤ N_of_ascii c ≤ 191)%N → N.land (N_of_ascii c) 63 ≠ 0%N.
Proof.
  intros [Hlo Hhi] Hz. pose proof (second_bits c) as H. simpl in H.
  apply N.ltb_ge in Hlo. apply N.ltb_ge in Hhi. apply N.eqb_eq in Hz.
  by rewrite Hlo, Hhi, Hz in H.
Qed.

(** The runes of the encodings of two, three and four bytes. *)
Lemma rune2_not_comma (a b : N) : a ≠ 0%N → N.lor (N.shiftl a 6) b ≠ 44%N.
Proof.
  intros Ha. apply not_comma_of_high_bits.
  rewrite N.shiftr_lor, N.shiftr_shiftl_l by lia. rewrite N.lor_eq_0_iff.
  intros [H _]. by apply N.shiftl_eq_0_iff in H.
Qed.

Lemma rune3_not_comma (a b c : N) :
  a ≠ 0%N ∨ b ≠ 0%N → N.lor (N.lor (N.shiftl a 12) (N.shiftl b 6)) c ≠ 44%N.
Proof.
  intros Hab. apply not_comma_of_high_bits.
  rewrite !N.shiftr_lor, !N.shiftr_shiftl_l by lia. rewrite !N.lor_eq_0_iff.
  intros [[Ha Hb] _]. apply N.shiftl_eq_0_iff in Ha, Hb. by destruct Hab.
Qed.

Lemma rune4_not_comma (a b c d : N) :
  a ≠ 0%N ∨ b ≠ 0%N →
  N.lor (N.lor (N.lor (N.shiftl a 18) (N.shiftl b 12)) (N.shiftl c 6)) d ≠ 44%N.
Proof.
  intros Hab. apply not_comma_of_high_bits.
  rewrite !N.shiftr_lor, !N.shiftr_shiftl_l by lia. rewrite !N.lor_eq_0_iff.
  intros [[[Ha Hb] _] _]. apply N.shiftl_eq_0_iff in Ha, Hb. by destruct Hab.
Qed.

(** One step of a range over a string: the comma comes out of the comma
    byte only, and no comma byte is skipped. *)
Lemma decode_step (c0 : ascii) (t0 : string) :
  ∃ r size, DecodeRuneInString (String c0 t0) = (r, S size) ∧
     (r = 44%N ↔ c0 = comma) ∧
     (size ≤ String.length t0)%nat ∧
     (comma ∈ bytes_of t0 ↔ comma ∈ bytes_of (skip_bytes size t0)).
Proof.
  unfold DecodeRuneInString.
  destruct (N.lt_ge_cases (N_of_ascii c0) 128) as [Hascii|Hhigh].
  { decode_leaves; [apply N_of_ascii_comma | skipped_no_comma]. }
  destruct (N.lt_ge_cases (N_of_ascii c0) 194) as [?|Hlead].
  { decode_leaves; [rune_is_error | skipped_no_comma]. }
  destruct (N.lt_ge_cases 244 (N_of_ascii c0)) as [?|Hmax].
  { decode_leaves; [rune_is_error | skipped_no_comma]. }
  destruct (N.lt_ge_cases (N_of_ascii c0) 224) as [Htwo|Hmore].
  { decode_leaves; try rune_is_error; try skipped_no_comma.
    split; [|intros ->; change (N_of_ascii comma) with 44%N in *; lia].
    intros Hr. exfalso. revert Hr. apply rune2_not_comma, lead2_nonzero. lia. }
  destruct (N.lt_ge_cases (N_of_ascii c0) 240) as [Hthree|Hfour].
  { pose proof (lead3_zero c0).
    destruct (decide (N_of_ascii c0 = 224%N)), (decide (N_of_ascii c0 = 237%N)).
    all: try (exfalso; lia).
    all: decode_leaves; try rune_is_error; try skipped_no_comma.
    all: split; [|intros ->; change (N_of_ascii comma) with 44%N in *; lia].
    all: intros Hr; exfalso; revert Hr; apply rune3_not_comma.
    all: match goal with
         | |- N.land ?a _ ≠ _ ∨ N.land (N_of_ascii ?b) _ ≠ _ =>
             pose proof (second_nonzero b);
             destruct (decide (N.land a 15 = 0%N)); [right | by left]
         end.
    all: lia. }
  pose proof (lead4_zero c0).
  destruct (decide (N_of_ascii c0 = 240%N)), (decide (N_of_ascii c0 = 244%N)).
  all: try (exfalso; lia).
  all: decode_leaves; try rune_is_error; try skipped_no_comma.
  all: split; [|intros ->; change (N_of_ascii comma) with 44%N in *; lia].
  all: intros Hr; exfalso; revert Hr; apply rune4_not_comma.
  all: match goal with
       | |- N.land ?a _ ≠ _ ∨ N.land (N_of_ascii ?b) _ ≠ _ =>
           pose proof (second_nonzero b);
           destruct (decide (N.land a 7 = 0%N)); [right | by left]
       end.
  all: lia.
Qed.

Lemma skip_bytes_length (n : nat) (s : string) :
  (String.length (skip_bytes n s) ≤ String.length s)%nat.
Proof.
  revert s. induction n as [|n IH]; intros [|c s]; simpl; try lia.
  specialize (IH s). lia.
Qed.

(** A range over a string yields the comma exactly when the string has a
    comma byte. *)
Lemma range_runes_comma (fuel : nat) (s : string) :
  (String.length s ≤ fuel)%nat →
  44%N ∈ range_runes_from fuel s ↔ comma ∈ bytes_of s.
Proof.
  revert s. induction fuel as [|fuel IH]; intros [|c0 t0] Hlen; simpl in Hlen.
  - simpl. by rewrite !elem_of_nil.
  - lia.
  - simpl. by rewrite !elem_of_nil.
  - destruct (decode_step c0 t0) as (r & size & Hdec & Hr & Hsize & Hskip).
    cbn [range_runes_from]. rewrite Hdec. cbn [skip_bytes bytes_of].
    rewrite !elem_of_cons, Hskip, <- IH.
    + split; (intros [H|H]; [left | by right]); [symmetry | symmetry]; by apply Hr.
    + pose proof (skip_bytes_length size t0). lia.
Qed.

(** The loop of the check: it collects the runes, and reports the comma
    once, when it meets it for the first time. *)
Lemma validate_loop_spec (Sprintf_q : string → string) (k : string) (runes : list N)
    (unique : gset N) (errors : list error) :
  foldl (validate_rune Sprintf_q k) (unique, errors) runes =
  (list_to_set runes ∪ unique,
   if bool_decide (44%N ∈ runes ∧ 44%N ∉ unique)
   then errors ++ [comma_error Sprintf_q k] else errors).
Proof.
  revert unique errors. induction runes as [|v runes IH]; intros unique errors.
  - cbn [foldl]. rewrite bool_decide_eq_false_2 by (by intros [?%elem_of_nil _]).
    f_equal. set_solver.
  - cbn [foldl]. unfold validate_rune at 2. case_bool_decide as Hseen.
    + rewrite IH. f_equal; [set_solver|].
      rewrite (bool_decide_ext (44%N ∈ runes ∧ 44%N ∉ unique)
                 (44%N ∈ v :: runes ∧ 44%N ∉ unique)); [done|].
      rewrite elem_of_cons. split; [tauto|].
      intros [[->|?] ?]; [done | tauto].
    + rewrite IH. f_equal; [set_solver|].
      destruct (decide (v = 44%N)) as [->|Hne].
      * rewrite (bool_decide_eq_true_2 (44%N = 44%N)) by done.
        rewrite bool_decide_eq_false_2 by set_solver.
        rewrite bool_decide_eq_true_2; [done|]. split; [by left | done].
      * rewrite (bool_decide_eq_false_2 (v = 44%N)) by done.
        rewrite (bool_decide_ext (44%N ∈ runes ∧ 44%N ∉ {[v]} ∪ unique)
                   (44%N ∈ v :: runes ∧ 44%N ∉ unique)); [done|].
        rewrite elem_of_cons. split.
        -- intros [? ?]. split; [by right | set_solver].
        -- intros [[?|?] ?]; [done|]. split; [done | set_solver].
Qed.

(** The errors of the check in closed form. *)
Lemma validate_errors_closed_form (Sprintf_q : string → string)
    (Sprintf_d : nat → string) (value k : string) :
  validateMqBrokerPassword Sprintf_q Sprintf_d (VString value) k =
  Ok ([],
      (if bool_decide (comma ∈ bytes_of value) then [comma_error Sprintf_q k] else []) ++
      (if bool_decide (size (list_to_set (range_runes value) : gset N) < 4)%nat
       then [unique_error Sprintf_q k] else []) ++
      (if bool_decide (String.length value < 12 ∨ 250 < String.length value)%nat
       then [length_error Sprintf_q Sprintf_d k 12 250 (String.length value)] else [])).
Proof.
  unfold validateMqBrokerPassword. unfold_bind. cbn [assert_string].
  rewrite validate_loop_spec. rewrite (right_id_L ∅ (∪)).
  rewrite (bool_decide_ext (44%N ∈ range_runes value ∧ 44%N ∉ (∅ : gset N))
             (comma ∈ bytes_of value)).
  2: { unfold range_runes. rewrite range_runes_comma by done. set_solver. }
  destruct (bool_decide (comma ∈ bytes_of value)),
    (bool_decide (size (list_to_set (range_runes value) : gset N) < 4)%nat),
    (bool_decide (String.length value < 12 ∨ 250 < String.length value)%nat); done.
Qed.

(** X19: the errors of validateMqBrokerPassword.  A value with a comma
    byte gets the comma error, once, however many commas it has; a value
    whose range yields fewer than four different runes gets the error on
    unique characters; a value shorter than 12 or longer than 250 bytes gets
    the length error.  The errors come in this order, and there is no
    warning. *)
Theorem validateMqBrokerPassword_errors (Sprintf_q : string → string)
    (Sprintf_d : nat → string) (value k : string) :
  validateMqBrokerPassword Sprintf_q Sprintf_d (VString value) k =
  Ok ([],
      (if bool_decide (comma ∈ bytes_of value) then [comma_error Sprintf_q k] else []) ++
      (if bool_decide (size (list_to_set (range_runes value) : gset N) < 4)%nat
       then [unique_error Sprintf_q k] else []) ++
      (if bool_decide (String.length value < 12 ∨ 250 < String.length value)%nat
       then [length_error Sprintf_q Sprintf_d k 12 250 (String.length value)] else [])).
Proof. apply validate_errors_closed_form. Qed.

(** The runes of a string of ASCII bytes are its bytes. *)
Lemma range_runes_ascii (fuel : nat) (s : string) :
  (String.length s ≤ fuel)%nat →
  Forall (λ c, (N_of_ascii c < 128)%N) (bytes_of s) →
  range_runes_from fuel s = N_of_ascii <$> bytes_of s.
Proof.
  revert s. induction fuel as [|fuel IH]; intros [|c0 t0] Hlen Hascii; simpl in Hlen;
    try done; [lia|].
  cbn [bytes_of] in Hascii. apply Forall_cons in Hascii as [Hc0 Ht0].
  cbn [range_runes_from]. unfold DecodeRuneInString.
  rewrite (proj2 (N.ltb_lt _ _) Hc0). cbn [skip_bytes bytes_of].
  rewrite fmap_cons. f_equal. apply IH; [lia | done].
Qed.

Lemma size_list_to_set_remove_dups `{Countable A} (l : list A) :
  size (list_to_set l : gset A) = length (remove_dups l).
Proof.
  rewrite <- (size_list_to_set (C := gset A) (remove_dups l)) by apply NoDup_remove_dups.
  f_equal. apply set_eq. intros x. by rewrite !elem_of_list_to_set, elem_of_remove_dups.
Qed.

Lemma remove_dups_fmap_length `{EqDecision A, EqDecision B} (f : A → B) (l : list A) :
  (∀ x y, f x = f y → x = y) →
  length (remove_dups (f <$> l)) = length (remove_dups l).
Proof.
  intros Hinj. induction l as [|x l IH]; [done|]. rewrite fmap_cons. cbn [remove_dups].
  destruct (decide_rel elem_of x l) as [Hin|Hout];
    destruct (decide_rel elem_of (f x) (f <$> l)) as [Hin'|Hout']; simpl.
  - done.
  - destruct Hout'. by apply list_elem_of_fmap_2.
  - destruct Hout. apply list_elem_of_fmap in Hin' as (y & Heq & Hy).
    apply Hinj in Heq. by subst.
  - by rewrite IH.
Qed.

Lemma N_of_ascii_inj (c c' : ascii) : N_of_ascii c = N_of_ascii c' → c = c'.
Proof. intros H. by rewrite <- (ascii_N_embedding c), H, ascii_N_embedding. Qed.

(** X20: a password of ASCII bytes passes validateMqBrokerPassword exactly
    when it has no comma, at least four different characters and a length
    of 12 to 250. *)
Theorem validateMqBrokerPassword_accepts_ascii (Sprintf_q : string → string)
    (Sprintf_d : nat → string) (value k : string) :
  Forall (λ c, (N_of_ascii c < 128)%N) (bytes_of value) →
  validateMqBrokerPassword Sprintf_q Sprintf_d (VString value) k = Ok ([], []) ↔
  (comma ∉ bytes_of value) ∧
  (4 ≤ length (remove_dups (bytes_of value)))%nat ∧
  (12 ≤ String.length value ≤ 250)%nat.
Proof.
  intros Hascii. rewrite validate_errors_closed_form.
  unfold range_runes. rewrite range_runes_ascii by done.
  rewrite size_list_to_set_remove_dups.
  rewrite (remove_dups_fmap_length N_of_ascii) by apply N_of_ascii_inj.
  split.
  - intros Heq. repeat case_bool_decide; try done. split_and!; try done; lia.
  - intros (Hc & Hu & Hl).
    rewrite (bool_decide_eq_false_2 (comma ∈ bytes_of value)) by done.
    rewrite !bool_decide_eq_false_2 by lia. done.
Qed.

Lemma validateMqBrokerPassword_accepts_ascii_witness :
  validateMqBrokerPassword id (λ _, "n") (VString "correct horse battery") "password"
  = Ok ([], []) ↔
  (comma ∉ bytes_of "correct horse battery") ∧
  (4 ≤ length (remove_dups (bytes_of "correct horse battery")))%nat ∧
  (12 ≤ String.length "correct horse battery" ≤ 250)%nat.
Proof.
  apply (validateMqBrokerPassword_accepts_ascii id (λ _, "n")
           "correct horse battery" "password").
  apply (bool_decide_unpack _). vm_compute. exact I.
Defined.

(** ** Update stops at the first failure *)

Lemma all_succeeded_app (evs1 evs2 : list event) :
  all_succeeded evs1 → all_succeeded evs2 → all_succeeded (evs1 ++ evs2).
Proof. intros H1 H2. by apply Forall_app. Qed.

Lemma failed_at_last_app (evs1 evs2 : list event) (err : error) :
  all_succeeded evs1 → failed_at_last evs2 err → failed_at_last (evs1 ++ evs2) err.
Proof.
  intros H1 (init & e & cause & -> & Hinit & He & Herr).
  exists (evs1 ++ init), e, cause. rewrite <- app_assoc. split_and!; try done.
  by apply all_succeeded_app.
Qed.

Lemma stops_at_failure_app (evs1 evs2 : list event) (res : option error) :
  all_succeeded evs1 → stops_at_failure evs2 res → stops_at_failure (evs1 ++ evs2) res.
Proof.
  intros H1 [[H2 Hres]|(err & -> & H2)].
  - left. split; [by apply all_succeeded_app | done].
  - right. exists err. split; [done|]. by apply failed_at_last_app.
Qed.

Lemma failed_at_last_wrap (evs : list event) (e : error) (text : string) :
  failed_at_last evs e →
  (∀ init ev, evs = init ++ [ev] → event_error ev = Some e) →
  failed_at_last evs (WrappedError text e).
Proof.
  intros (init & ev & cause & -> & Hinit & Hev & _) Hbare.
  exists init, ev, e. split_and!; [done | done | by eapply Hbare | right; by exists text].
Qed.

(** A step that issues one call and wraps its error. *)
Lemma one_call_step {W A} (run : W → option error * W) (ev : option error → event)
    (wrap : error → A) (ok : A) (s s' : State W) (a : A) :
  (∀ err, event_error (ev err) = err) →
  (err <-- log_call run ev ;;
   match err with
   | Some e => retM (wrap e)
   | None => retM ok
   end) s = Ok (a, s') →
  ∃ err, trace s' = trace s ++ [ev err] ∧ heap s' = heap s ∧
         a = match err with Some e => wrap e | None => ok end.
Proof.
  intros Hev. unfold bindM, log_call. destruct (run (world s)) as [[e|] w]; simpl.
  - intros [= <- <-]. by exists (Some e).
  - intros [= <- <-]. by exists None.
Qed.

Lemma update_security_groups_stops {W} (conn : MQ W)
    (expandStringSet : SchemaSet string → list string) (d : ResourceData)
    (s s' : State W) (e : option error) :
  update_security_groups conn expandStringSet d s = Ok (e, s') →
  ∃ evs, trace s' = trace s ++ evs ∧
    match e with
    | None => all_succeeded evs
    | Some err => failed_at_last evs err
    end.
Proof.
  unfold update_security_groups. destruct (d_HasChange "security_groups" d).
  - intros (err & Ht & _ & ->)%one_call_step; [|done].
    eexists; split; [done|]. destruct err as [c|].
    + eexists [], _, c. split_and!; [done | constructor | done | right; by eexists].
    + by apply Forall_singleton.
  - intros [= <- <-]. exists []. rewrite app_nil_r. split; [done | constructor].
Qed.

Lemma update_configuration_stops {W} (conn : MQ W) (d : ResourceData) (rr : bool)
    (s s' : State W) (c : error + bool) :
  update_configuration conn d rr s = Ok (c, s') →
  ∃ evs, trace s' = trace s ++ evs ∧
    match c with
    | inr _ => all_succeeded evs
    | inl err => failed_at_last evs err
    end.
Proof.
  unfold update_configuration. destruct (d_HasChanges _ d).
  - intros (cfg & s1 & Hcfg & (logs & s2 & Hlogs & Hcall)%bindM_Ok)%bindM_Ok.
    unfold liftM in Hcfg, Hlogs.
    destruct (expandMqConfigurationId _); [|done]. injection Hcfg as <- <-.
    destruct (expandMqLogs _); [|done]. injection Hlogs as <- <-.
    apply one_call_step in Hcall as (err & Ht & _ & ->); [|done].
    eexists; split; [done|]. destruct err as [e|].
    + eexists [], _, e. split_and!; [done | constructor | done | right; by eexists].
    + by apply Forall_singleton.
  - intros [= <- <-]. exists []. rewrite app_nil_r. split; [done | constructor].
Qed.

Lemma loop_result_stops (evs : list event) (plan : list user_call) (flag0 flag : bool)
    (err : option error) :
  loop_result evs plan flag0 flag err →
  match err with
  | None => all_succeeded evs
  | Some e => failed_at_last evs e ∧ ∀ init ev, evs = init ++ [ev] → event_error ev = Some e
  end.
Proof.
  unfold loop_result. destruct err as [e|].
  - intros (ok & failed & rest & _ & -> & _). split.
    + exists ((λ c, call_event c None) <$> ok), (call_event failed (Some e)), e.
      split_and!; [done | | by destruct failed | by left].
      apply Forall_fmap, Forall_forall. intros c _. by destruct c.
    + intros init ev [_ <-]%app_inj_tail. by destruct failed.
  - intros [-> _]. apply Forall_fmap, Forall_forall. intros c _. by destruct c.
Qed.

Lemma new_maps_trace {W} (ms : list (gmap string value)) (s s' : State W) (ls : list loc) :
  new_maps ms s = Ok (ls, s') → trace s' = trace s.
Proof.
  intros Hrun. destruct (logs_only_new_maps (λ _, False) ms s ls s' Hrun) as (evs & Ht & Hevs).
  destruct evs as [|e evs]; [by rewrite app_nil_r in Ht|].
  by apply Forall_cons in Hevs as [[] _].
Qed.

Lemma update_users_stops {W} (conn : MQ W) (expandStringList : list string → list string)
    (ord : RangeOrder) (d : ResourceData) (rr : bool) (s s' : State W) (c : error + bool) :
  update_users conn expandStringList ord d rr s = Ok (c, s') →
  ∃ evs, trace s' = trace s ++ evs ∧
    match c with
    | inr _ => all_succeeded evs
    | inl err => failed_at_last evs err
    end.
Proof.
  unfold update_users. destruct (d_HasChange "user" d).
  - unfold d_GetChange.
    intros (oldUsers & s1 & Ho & (newUsers & s2 & Hn & (r & s3 & Hu & Hr)%bindM_Ok)%bindM_Ok)%bindM_Ok.
    apply new_maps_trace in Ho, Hn. unfold updateAwsMqBrokerUsers in Hu.
    destruct (diffAwsMqBrokerUsers _ _ _ _ _ _) as [[h' [[createL deleteL] updateL]]|];
      [|done].
    destruct (apply_diff_spec conn createL deleteL updateL false
                (MkState h' (world s2) (trace s2)))
      as (flag & err & s4 & evs & Hrun & _ & Ht & Hres).
    rewrite Hrun in Hu. injection Hu as <- <-. simpl in Ht.
    apply loop_result_stops in Hres.
    exists evs. destruct err as [e|]; injection Hr as <- <-.
    + split; [congruence|]. destruct Hres as [Hfail Hbare]. by apply failed_at_last_wrap.
    + split; [congruence | done].
  - intros [= <- <-]. exists []. rewrite app_nil_r. split; [done | constructor].
Qed.

Lemma refresh_broker_state_answer {W} (conn : MQ W) (id : string) (s s' : State W)
    (r : error + string) :
  refresh_broker_state conn id s = Ok (r, s') →
  ∃ res, trace s' = trace s ++ [EDescribeBroker id res] ∧
    match r with
    | inl err => res = inl err
    | inr _ => ∃ out, res = inr out
    end.
Proof.
  unfold refresh_broker_state. intros (res & s1 & Hd & Hr)%bindM_Ok.
  unfold DescribeBroker, log_call in Hd.
  destruct (mq_DescribeBroker conn id (world s)) as [res' w]. injection Hd as <- <-.
  exists res'. destruct res' as [e|out].
  - by injection Hr as <- <-.
  - apply bindM_Ok in Hr as (st & s2 & Hst & Hr). injection Hr as <- <-.
    unfold liftM in Hst. destruct (deref_string _); [|done]. injection Hst as <- <-.
    split; [done|]. by exists out.
Qed.

Lemma WaitForState_stops {W} (conn : MQ W) (id : string) (pending target : list string)
    (polls : nat) (s s' : State W) (e : option error) :
  WaitForState (refresh_broker_state conn id) pending target polls s = Ok (e, s') →
  ∃ evs, trace s' = trace s ++ evs ∧ stops_at_failure evs e.
Proof.
  revert s. induction polls as [|n IH]; intros s; cbn [WaitForState].
  - intros [= <- <-]. exists []. rewrite app_nil_r. split; [done|].
    left. split; [constructor | by right; left].
  - intros (r & s1 & Hr & Hk)%bindM_Ok.
    destruct (refresh_broker_state_answer conn id s s1 r Hr) as (res & Ht & Hres).
    destruct r as [err|st].
    + injection Hk as <- <-. subst res. eexists; split; [done|].
      right. exists err. split; [done|]. eexists [], _, err.
      split_and!; [done | constructor | done | by left].
    + destruct Hres as [out ->].
      assert (Hok : all_succeeded [EDescribeBroker id (inr out)])
        by (by apply Forall_singleton).
      case_bool_decide.
      * injection Hk as <- <-. eexists; split; [done|]. left. split; [done | by left].
      * case_bool_decide.
        -- destruct (IH s1 Hk) as (evs & Ht' & Hstop).
           exists ([EDescribeBroker id (inr out)] ++ evs). split.
           ++ by rewrite Ht', Ht, <- app_assoc.
           ++ by apply stops_at_failure_app.
        -- injection Hk as <- <-. eexists; split; [done|]. left. split; [done|].
           right; right. by eexists.
Qed.

Lemma update_reboot_stops {W} (conn : MQ W) (polls : nat) (d : ResourceData)
    (requiresReboot : bool) (s s' : State W) (e : option error) :
  update_reboot conn polls d requiresReboot s = Ok (e, s') →
  ∃ evs, trace s' = trace s ++ evs ∧ stops_at_failure evs e.
Proof.
  unfold update_reboot. destruct (attr_bool _ && requiresReboot).
  - intros (r & s1 & Hr & Hk)%bindM_Ok. unfold RebootBroker, log_call in Hr.
    destruct (mq_RebootBroker conn (d_Id d) (world s)) as [r' w]. injection Hr as <- <-.
    destruct r' as [err|].
    + injection Hk as <- <-. eexists; split; [done|]. right. eexists; split; [done|].
      eexists [], _, err. split_and!; [done | constructor | done | right; by eexists].
    + destruct (WaitForState_stops conn (d_Id d) _ _ polls _ s' e Hk)
        as (evs & Ht & Hstop). simpl in Ht.
      exists ([ERebootBroker (d_Id d) None] ++ evs). split.
      * by rewrite Ht, <- app_assoc.
      * apply stops_at_failure_app; [|done]. by apply Forall_singleton.
  - intros [= <- <-]. exists []. rewrite app_nil_r. split; [done|].
    left. split; [constructor | by left].
Qed.

Lemma update_tags_stops {W} (conn : MQ W) (d : ResourceData) (s s' : State W)
    (e : option error) :
  update_tags conn d s = Ok (e, s') →
  ∃ evs, trace s' = trace s ++ evs ∧ stops_at_failure evs e.
Proof.
  unfold update_tags. destruct (d_HasChange "tags" d).
  - unfold d_GetChange. intros (err & Ht & _ & ->)%one_call_step; [|done].
    eexists; split; [done|]. destruct err as [c|].
    + right. eexists; split; [done|].
      eexists [], _, c. split_and!; [done | constructor | done | right; by eexists].
    + left. split; [by apply Forall_singleton | by left].
  - intros [= <- <-]. exists []. rewrite app_nil_r. split; [done|].
    left. split; [constructor | by left].
Qed.

(** X21: Update stops at the first remote call that fails.  In a run that
    returns, either the last call is the only one that failed and the
    handler returns the error of that call, bare or wrapped once, or every
    call succeeded and the handler returns nil or an error of the wait on
    the broker state (timeout or unexpected state). *)
Theorem update_stops_at_first_failure {W} (conn : MQ W)
    (expandStringList : list string → list string)
    (expandStringSet : SchemaSet string → list string) (polls : nat) (ord : RangeOrder)
    (d : ResourceData) (s s' : State W) (res : option error) :
  resourceAwsMqBrokerUpdate conn expandStringList expandStringSet polls ord d s
    = Ok (res, s') →
  ∃ evs, trace s' = trace s ++ evs ∧ stops_at_failure evs res.
Proof.
  unfold resourceAwsMqBrokerUpdate, update_changes.
  intros (c & s3 & (e & s1 & Hsg & Hc)%bindM_Ok & Hrest)%bindM_Ok.
  destruct (update_security_groups_stops conn expandStringSet d s s1 e Hsg)
    as (evs1 & Ht1 & H1).
  destruct e as [err|].
  { injection Hc as <- <-. injection Hrest as <- <-.
    exists evs1. split; [done|]. right. by exists err. }
  apply bindM_Ok in Hc as (c2 & s2 & Hcfg & Hc).
  destruct (update_configuration_stops conn d false s1 s2 c2 Hcfg) as (evs2 & Ht2 & H2).
  destruct c2 as [err|rr].
  { injection Hc as <- <-. injection Hrest as <- <-.
    exists (evs1 ++ evs2). split; [by rewrite Ht2, Ht1, app_assoc|].
    right. exists err. split; [done|]. by apply failed_at_last_app. }
  destruct (update_users_stops conn expandStringList ord d rr s2 s3 c Hc)
    as (evs3 & Ht3 & H3).
  destruct c as [err|rr'].
  { injection Hrest as <- <-.
    exists (evs1 ++ evs2 ++ evs3). split; [by rewrite Ht3, Ht2, Ht1, !app_assoc|].
    right. exists err. split; [done|]. by do 2 (apply failed_at_last_app; [done|]). }
  apply bindM_Ok in Hrest as (e4 & s4 & Hreboot & Hrest).
  destruct (update_reboot_stops conn polls d rr' s3 s4 e4 Hreboot) as (evs4 & Ht4 & H4).
  destruct e4 as [err|].
  { injection Hrest as <- <-.
    exists (evs1 ++ evs2 ++ evs3 ++ evs4).
    split; [by rewrite Ht4, Ht3, Ht2, Ht1, !app_assoc|].
    by do 3 (apply stops_at_failure_app; [done|]). }
  destruct (update_tags_stops conn d s4 s' res Hrest) as (evs5 & Ht5 & H5).
  assert (H4' : all_succeeded evs4).
  { destruct H4 as [[H4 _]|(err & Herr & _)]; [done | discriminate Herr]. }
  exists (evs1 ++ evs2 ++ evs3 ++ evs4 ++ evs5).
  split; [by rewrite Ht5, Ht4, Ht3, Ht2, Ht1, !app_assoc|].
  by do 4 (apply stops_at_failure_app; [done|]).
Qed.

Lemma update_stops_at_first_failure_witness :
  ∃ evs, trace rejected_user_update = [] ++ evs ∧
    stops_at_failure evs
      (Some (WrappedError "error updating MQ Broker (b-1234) user" rejected)).
Proof.
  apply (update_stops_at_first_failure (scripted_conn (inr running_broker))
           expandStringList_nonempty expandStringSet_nonempty 3 range_in_key_order
           users_changed_broker (MkState ∅ [None; Some rejected] [])
           rejected_user_update
           (Some (WrappedError "error updating MQ Broker (b-1234) user" rejected))).
  vm_cast_no_check
    (eq_refl (Ok (Some (WrappedError "error updating MQ Broker (b-1234) user" rejected),
                  rejected_user_update))).
Defined.

(** X22: when none of security groups, configuration, logs, user and tags
    has changed, Update makes no remote call and returns nil, whatever
    apply_immediately says. *)
Theorem update_without_changes_makes_no_call {W} (conn : MQ W)
    (expandStringList : list string → list string)
    (expandStringSet : SchemaSet string → list string) (polls : nat) (ord : RangeOrder)
    (d : ResourceData) (s : State W) :
  d_changed d ## {[ "security_groups"; "configuration"; "logs"; "user"; "tags" ]} →
  resourceAwsMqBrokerUpdate conn expandStringList expandStringSet polls ord d s
    = Ok (None, s).
Proof.
  intros Hnone.
  assert (Hno : ∀ k, k ∈ ["security_groups"; "configuration"; "logs"; "user"; "tags"] →
                     d_HasChange k d = false).
  { intros k Hk. unfold d_HasChange. apply bool_decide_eq_false_2. intros Hin.
    apply (Hnone k Hin). set_solver. }
  unfold resourceAwsMqBrokerUpdate, update_changes, update_security_groups,
    update_configuration, update_users, update_reboot, update_tags, d_HasChanges, bindM.
  cbn [existsb]. rewrite !Hno by set_solver. simpl. by rewrite andb_false_r.
Qed.

Lemma update_without_changes_makes_no_call_witness :
  resourceAwsMqBrokerUpdate (scripted_conn (inr running_broker))
    expandStringList_nonempty expandStringSet_nonempty 3 range_in_key_order
    sample_broker (MkState ∅ [Some rejected] [])
  = Ok (None, MkState ∅ [Some rejected] []).
Proof.
  apply (update_without_changes_makes_no_call (scripted_conn (inr running_broker))
           expandStringList_nonempty expandStringSet_nonempty 3 range_in_key_order
           sample_broker (MkState ∅ [Some rejected] [])).
  apply disjoint_empty_l.
Defined.

(** ** Creating the broker *)

(** A wait on the state of the broker [id] describes that broker only, and
    when it ends with success its last poll saw a target state. *)
Lemma WaitForState_describes {W} (conn : MQ W) (id : string) (pending target : list string)
    (polls : nat) (s s' : State W) (e : option error) :
  WaitForState (refresh_broker_state conn id) pending target polls s = Ok (e, s') →
  heap s' = heap s ∧
  ∃ evs, trace s' = trace s ++ evs ∧
    Forall (λ ev, ∃ r, ev = EDescribeBroker id r) evs ∧
    (e = None → ∃ seen out st,
       evs = seen ++ [EDescribeBroker id (inr out)] ∧
       dbr_BrokerState out = Some st ∧ st ∈ target).
Proof.
  revert s. induction polls as [|n IH]; intros s; cbn [WaitForState].
  - intros [= <- <-]. split; [done|]. exists []. rewrite app_nil_r. by split_and!.
  - intros (r & s1 & Hr & Hk)%bindM_Ok.
    assert (Hh : heap s1 = heap s).
    { unfold refresh_broker_state, bindM, DescribeBroker, log_call, liftM in Hr.
      destruct (mq_DescribeBroker conn id (world s)) as [[err|out] w]; simpl in Hr.
      - by injection Hr as <- <-.
      - destruct (deref_string (dbr_BrokerState out)); [|done]. by injection Hr as <- <-. }
    destruct (refresh_broker_state_spec conn id s s1 r Hr) as (res & Ht & Hres).
    assert (Hone : Forall (λ ev, ∃ r, ev = EDescribeBroker id r) [EDescribeBroker id res]).
    { apply Forall_singleton. by eexists. }
    destruct r as [err|st].
    + injection Hk as <- <-. split; [done|]. by exists [EDescribeBroker id res].
    + destruct (Hres st eq_refl) as (out & -> & Hout).
      case_bool_decide as Htarget.
      * injection Hk as <- <-. split; [done|]. exists [EDescribeBroker id (inr out)].
        split_and!; [done | done |]. intros _. by exists [], out, st.
      * case_bool_decide as Hpending.
        -- destruct (IH s1 Hk) as (Hh' & evs & Ht' & Hd & Hlast).
           split; [congruence|].
           exists (EDescribeBroker id (inr out) :: evs). split_and!.
           ++ rewrite Ht', Ht. by rewrite <- app_assoc.
           ++ apply Forall_cons. split; [by eexists | done].
           ++ intros He. destruct (Hlast He) as (seen & out' & st' & -> & Ho & Hin).
              by exists (EDescribeBroker id (inr out) :: seen), out', st'.
        -- injection Hk as <- <-. split; [done|]. by exists [EDescribeBroker id (inr out)].
Qed.

(** X23: a Create that returns has built its request and called
    CreateBroker.  If that call failed, its error is returned and nothing
    else happens: the resource data is untouched, without an id.
    Otherwise every later call only reads the new broker (DescribeBroker or
    DescribeUser of its id), the id of the new broker is set (unless the
    final Read found the broker gone and cleared it), and nil is returned
    only after a poll saw the broker running and the final Read was made. *)
Theorem create_result {W} (conn : MQ W)
    (mq_CreateBroker : CreateBrokerRequest → W → (error + CreateBrokerResponse) * W)
    (PrefixedUniqueId : string → string) (d_GetOk : string → ResourceData → option attr)
    (MqTags : gmap string string → gmap string string)
    (expandStringSet : SchemaSet string → list string)
    (flattenStringSet : list string → SchemaSet string)
    (isAWSErr : error → string → string → bool)
    (ignoreTags : gmap string string → gmap string string)
    (polls : nat) (d d' : ResourceData) (s s' : State W) (res : option error) :
  resourceAwsMqBrokerCreate conn mq_CreateBroker PrefixedUniqueId d_GetOk MqTags
    expandStringSet flattenStringSet isAWSErr ignoreTags polls d s = Ok ((d', res), s') →
  ∃ input,
    create_input PrefixedUniqueId d_GetOk MqTags expandStringSet d = Ok input ∧
    heap s' = heap s ∧
    match mq_CreateBroker input (world s) with
    | (inl err, w1) => res = Some err ∧ d' = d ∧ world s' = w1 ∧ trace s' = trace s
    | (inr out, _) =>
        (d_Id d' = StringValue (cbo_BrokerId out) ∨ (d_Id d' = "" ∧ res = None)) ∧
        ∃ evs, trace s' = trace s ++ evs ∧
          Forall (describe_event (StringValue (cbo_BrokerId out))) evs ∧
          (res = None → ∃ seen running rest,
             evs = seen ++ EDescribeBroker (StringValue (cbo_BrokerId out)) (inr running)
                     :: rest ∧
             dbr_BrokerState running = Some mq_BrokerStateRunning ∧ rest ≠ [])
    end.
Proof.
  unfold resourceAwsMqBrokerCreate.
  intros (input & s0 & Hin & (r & s1 & Hcall & Hk)%bindM_Ok)%bindM_Ok.
  unfold liftM in Hin.
  destruct (create_input _ _ _ _ d) as [input'|]; [|done]. injection Hin as <- <-.
  exists input'. split; [done|]. unfold CreateBroker in Hcall.
  destruct (mq_CreateBroker input' (world s)) as [r' w1]. injection Hcall as <- <-.
  destruct r' as [err|out].
  { injection Hk as <- <- <-. by split_and!. }
  apply bindM_Ok in Hk as (e & s2 & Hwait & Hk). cbn [d_Id d_SetId d_Set] in Hwait, Hk.
  destruct (WaitForState_describes conn _ _ _ polls _ s2 e Hwait)
    as (Hh2 & evs2 & Ht2 & Hd2 & Hlast). simpl in Hh2, Ht2.
  assert (Hd2' : Forall (describe_event (StringValue (cbo_BrokerId out))) evs2).
  { eapply Forall_impl; [exact Hd2|]. by intros ev [r ->]. }
  destruct e as [err|].
  { injection Hk as <- <- <-. split; [done|]. split; [by left|].
    exists evs2. by split_and!. }
  destruct (read_calls conn flattenStringSet isAWSErr ignoreTags _ d' s2 s' res Hk)
    as (r & evs3 & Ht3 & Hd3 & _ & Hh3 & Hid). cbn [d_Id d_SetId d_Set] in Ht3, Hid.
  split; [congruence|]. split; [done|].
  exists (evs2 ++ EDescribeBroker (StringValue (cbo_BrokerId out)) r :: evs3). split_and!.
  - by rewrite Ht3, Ht2, <- app_assoc.
  - apply Forall_app. split; [done|]. apply Forall_cons. split; [done|].
    eapply Forall_impl; [exact Hd3|]. by intros ev (name & ur & ->).
  - intros _. destruct (Hlast eq_refl) as (seen & running & st & -> & Hst & Hin).
    apply list_elem_of_singleton in Hin as ->.
    exists seen, running, (EDescribeBroker (StringValue (cbo_BrokerId out)) r :: evs3).
    split_and!; [by rewrite <- app_assoc | done | done].
Qed.

Lemma create_result_witness :
  ∃ input,
    create_input (λ prefix, prefix +:+ "-1") (λ _ _, None) id expandStringSet_nonempty
      new_broker = Ok input ∧
    (∅ : gmap loc (gmap string value)) = ∅ ∧
    match refuses_broker input [] with
    | (inl err, w1) =>
        Some rejected = Some err ∧ new_broker = new_broker ∧
        ([] : list (option error)) = w1 ∧ ([] : list event) = []
    | (inr out, _) =>
        (d_Id new_broker = StringValue (cbo_BrokerId out) ∨
         (d_Id new_broker = "" ∧ Some rejected = None)) ∧
        ∃ evs, [] = [] ++ evs ∧
          Forall (describe_event (StringValue (cbo_BrokerId out))) evs ∧
          (Some rejected = None → ∃ seen running rest,
             evs = seen ++ EDescribeBroker (StringValue (cbo_BrokerId out)) (inr running)
                     :: rest ∧
             dbr_BrokerState running = Some mq_BrokerStateRunning ∧ rest ≠ [])
    end.
Proof.
  apply (create_result (scripted_conn (inr running_broker)) refuses_broker
           (λ prefix, prefix +:+ "-1") (λ _ _, None) id expandStringSet_nonempty
           flattenStringSet_new isAWSErr_typed id 3 new_broker new_broker
           (MkState ∅ [] []) (MkState ∅ [] []) (Some rejected)).
  reflexivity.
Defined.
